(** * Growth Hirings Tracker: a shallow embedding of [main.py] and [scheduler.py]

    The pipeline polls a Slack channel, pulls URLs out of each message,
    fetches the linked pages, asks an LLM for structured job details and
    writes one Notion page per job.  The embedding follows the Python
    source function by function.  Python [str] values are modelled as
    [string] (one [ascii] per character, so code points below 256); the
    dictionaries are [gmap]s keyed by strings; the external services (Slack,
    HTTP, the LLM, Notion, the checkpoint file) are an explicit world that
    every effectful function threads through.

    What the embedding keeps abstract: floating point ([float(ts)], a
    number, an infinity or nan, and the date of a Slack timestamp are
    answers of the environment, and so is what [list.sort] makes of keys
    with a nan among them), the JSON decoder, and the answers of the
    services.  Reading and writing the checkpoint file never fails; the
    file is read in text mode, with the line ends translated.  The regular
    expressions of the source are run by a small backtracking matcher that
    follows Python's order of alternatives. *)

From Stdlib Require Import ZArith QArith Ascii String List Sorted Lia Bool Arith.
From stdpp Require Import base option list gmap strings.
Import ListNotations.

Local Open Scope Z_scope.
Local Open Scope list_scope.
Local Open Scope stdpp_scope.

(** ** Characters and strings *)

Module Str.

Definition dq : ascii := ascii_of_nat 34.      (* the double quote *)
Definition sq : ascii := ascii_of_nat 39.      (* the single quote *)
Definition bsl : ascii := ascii_of_nat 92.     (* the backslash *)
Definition nl : ascii := ascii_of_nat 10.      (* the line feed *)
Definition cr : ascii := ascii_of_nat 13.      (* the carriage return *)

Definition code (c : ascii) : nat := nat_of_ascii c.

(** [str.isspace()] and the regex class [\s] on code points below 256. *)
Definition isspace (c : ascii) : bool :=
  let n := code c in
  ((9 <=? n) && (n <=? 13))%nat || ((28 <=? n) && (n <=? 32))%nat
  || (n =? 133)%nat || (n =? 160)%nat.

(** The regex class [\d] on code points below 256. *)
Definition isdigit (c : ascii) : bool :=
  let n := code c in ((48 <=? n) && (n <=? 57))%nat.

Definition one (c : ascii) : string := String c "".

Fixpoint all (p : ascii -> bool) (s : string) : bool :=
  match s with
  | "" => true
  | String c t => p c && all p t
  end.

Fixpoint take (n : nat) (s : string) : string :=
  match n, s with
  | S m, String c t => String c (take m t)
  | _, _ => ""
  end.

Fixpoint drop (n : nat) (s : string) : string :=
  match n, s with
  | S m, String _ t => drop m t
  | _, _ => s
  end.

Fixpoint take_while (p : ascii -> bool) (s : string) : string :=
  match s with
  | String c t => if p c then String c (take_while p t) else ""
  | "" => ""
  end.

Fixpoint drop_while (p : ascii -> bool) (s : string) : string :=
  match s with
  | String c t => if p c then drop_while p t else s
  | "" => ""
  end.

Fixpoint starts_with (pre s : string) : bool :=
  match pre, s with
  | "", _ => true
  | String a p', String b s' => Ascii.eqb a b && starts_with p' s'
  | String _ _, "" => false
  end.

(** Python's [needle in haystack] on strings. *)
Fixpoint contains (needle hay : string) : bool :=
  starts_with needle hay ||
  match hay with
  | "" => false
  | String _ t => contains needle t
  end.

Fixpoint rev_onto (s acc : string) : string :=
  match s with
  | "" => acc
  | String c t => rev_onto t (String c acc)
  end.

Definition rev (s : string) : string := rev_onto s "".

(** [s.rstrip(chars)] for a character predicate. *)
Definition rstrip (p : ascii -> bool) (s : string) : string :=
  rev (drop_while p (rev s)).

(** [s.strip()] with no argument removes whitespace at both ends. *)
Definition strip (s : string) : string :=
  rstrip isspace (drop_while isspace s).

Definition nonempty (s : string) : bool :=
  match s with "" => false | _ => true end.

(** What a file opened for reading in text mode hands out: a carriage
    return is read as a line feed, and a line feed that follows a carriage
    return is not read again.  [after_cr] says that the character before
    was a carriage return. *)
Fixpoint universal_newlines_from (after_cr : bool) (s : string) : string :=
  match s with
  | "" => ""
  | String c t =>
      if Ascii.eqb c cr then String nl (universal_newlines_from true t)
      else if Ascii.eqb c nl && after_cr then universal_newlines_from false t
      else String c (universal_newlines_from false t)
  end.

Definition universal_newlines (s : string) : string :=
  universal_newlines_from false s.

End Str.

(** ** A backtracking matcher for the regular expressions of the source

    Only the constructs that occur in [main.py] are present.  Repetition is
    applied to character classes only, greedy as in Python; alternatives
    are tried in Python's order (an optional part is tried first, then
    skipped). *)

Module Re.

Inductive regex : Type :=
| Lit (s : string)              (* a literal run of characters *)
| Cls (p : ascii -> bool)       (* one character of a class *)
| Cat (r1 r2 : regex)
| Opt (r : regex)               (* r? *)
| Star (p : ascii -> bool)      (* [class]* *)
| Plus (p : ascii -> bool)      (* [class]+ *)
| Grp (r : regex)               (* ( r ), the pattern's group 1 *)
| Bol                           (* ^ *)
| Eol.                          (* $ *)

(** Matcher state: absolute position, the text still to read, group 1. *)
Record mstate : Type := MState {
  ms_pos : nat;
  ms_rest : string;
  ms_grp : option string
}.

Definition cont : Type := mstate -> option mstate.

Definition orelse (a : option mstate) (b : option mstate) : option mstate :=
  match a with
  | Some x => Some x
  | None => b
  end.

(** Greedy [class]*: take one more character while that leads to a match,
    otherwise stop here. *)
Fixpoint mstar (p : ascii -> bool) (pos : nat) (s : string)
         (g : option string) (k : cont) : option mstate :=
  match s with
  | String c t =>
      if p c
      then orelse (mstar p (S pos) t g k) (k (MState pos s g))
      else k (MState pos s g)
  | "" => k (MState pos s g)
  end.

Fixpoint rmatch (r : regex) (st : mstate) (k : cont) : option mstate :=
  match r with
  | Lit s =>
      if Str.starts_with s (ms_rest st)
      then k (MState (ms_pos st + String.length s)
                     (Str.drop (String.length s) (ms_rest st)) (ms_grp st))
      else None
  | Cls p =>
      match ms_rest st with
      | String c t => if p c then k (MState (S (ms_pos st)) t (ms_grp st)) else None
      | "" => None
      end
  | Cat r1 r2 => rmatch r1 st (fun st' => rmatch r2 st' k)
  | Opt r1 => orelse (rmatch r1 st k) (k st)
  | Star p => mstar p (ms_pos st) (ms_rest st) (ms_grp st) k
  | Plus p =>
      match ms_rest st with
      | String c t => if p c then mstar p (S (ms_pos st)) t (ms_grp st) k else None
      | "" => None
      end
  | Grp r1 =>
      rmatch r1 st (fun st' =>
        k (MState (ms_pos st') (ms_rest st')
                  (Some (Str.take (ms_pos st' - ms_pos st) (ms_rest st)))))
  | Bol => if (ms_pos st =? 0)%nat then k st else None
  | Eol =>
      match ms_rest st with
      | "" => k st
      | String c "" => if Ascii.eqb c Str.nl then k st else None
      | _ => None
      end
  end.

(** One match: where it starts, the matched text, group 1, what follows. *)
Record rmatch_result : Type := Match {
  m_start : nat;
  m_text : string;
  m_group : option string;
  m_after : string
}.

Definition match_at (r : regex) (pos : nat) (s : string) : option rmatch_result :=
  match rmatch r (MState pos s None) Some with
  | Some st => Some (Match pos (Str.take (ms_pos st - pos) s) (ms_grp st) (ms_rest st))
  | None => None
  end.

(** [re.search]: the leftmost position at which the pattern matches. *)
Fixpoint search_from (r : regex) (pos : nat) (s : string) : option rmatch_result :=
  match match_at r pos s with
  | Some m => Some m
  | None =>
      match s with
      | "" => None
      | String _ t => search_from r (S pos) t
      end
  end.

Definition search (r : regex) (s : string) : option rmatch_result :=
  search_from r 0 s.

(** [re.finditer]: leftmost matches, each search resuming where the
    previous match ended.  The patterns of the source never match the
    empty string; after an empty match the scan moves on by one
    character. *)
Fixpoint scan (fuel : nat) (r : regex) (pos : nat) (s : string) : list rmatch_result :=
  match fuel with
  | O => []
  | S fuel' =>
      let skip := match s with
                  | "" => []
                  | String _ t => scan fuel' r (S pos) t
                  end in
      match match_at r pos s with
      | Some m =>
          match m_text m with
          | "" => m :: skip
          | _ => m :: scan fuel' r (pos + String.length (m_text m)) (m_after m)
          end
      | None => skip
      end
  end.

Definition finditer (r : regex) (s : string) : list rmatch_result :=
  scan (S (String.length s)) r 0 s.

(** [re.findall] for a pattern with one group: the group's text. *)
Definition findall_group (r : regex) (s : string) : list string :=
  omap m_group (finditer r s).

(** [re.findall] for a pattern without groups: the matched text. *)
Definition findall (r : regex) (s : string) : list string :=
  map m_text (finditer r s).

(** [re.sub(r, repl, s)]: every match replaced by [repl]. *)
Fixpoint sub_scan (fuel : nat) (r : regex) (repl : string) (pos : nat) (s : string) : string :=
  match fuel with
  | O => s
  | S fuel' =>
      let skip := match s with
                  | "" => ""
                  | String c t => String c (sub_scan fuel' r repl (S pos) t)
                  end in
      match match_at r pos s with
      | Some m =>
          match m_text m with
          | "" => repl +:+ skip
          | _ => repl +:+ sub_scan fuel' r repl (pos + String.length (m_text m)) (m_after m)
          end
      | None => skip
      end
  end.

Definition sub (r : regex) (repl s : string) : string :=
  sub_scan (S (String.length s)) r repl 0 s.

(** The state a greedy class repetition ends in when nothing forces it to
    give characters back. *)
Definition run_end (p : ascii -> bool) (pos : nat) (s : string)
           (g : option string) : mstate :=
  MState (pos + String.length (Str.take_while p s)) (Str.drop_while p s) g.

End Re.

(** ** [extract_urls] *)

Definition not_gt_pipe (c : ascii) : bool :=
  negb (Ascii.eqb c ">" || Ascii.eqb c "|").

Definition not_gt (c : ascii) : bool := negb (Ascii.eqb c ">").

Definition bare_url_char (c : ascii) : bool :=
  negb (Str.isspace c || Ascii.eqb c "<" || Ascii.eqb c ">" || Ascii.eqb c Str.dq).

(** [https?://] *)
Definition re_scheme : Re.regex :=
  Re.Cat (Re.Lit "http") (Re.Cat (Re.Opt (Re.Lit "s")) (Re.Lit "://")).

(** The pattern [<(https?://[^>|]+)(?:\|[^>]* )?>] of the source (written
    here with a blank after the star). *)
Definition SLACK_URL_RE : Re.regex :=
  Re.Cat (Re.Lit "<")
    (Re.Cat (Re.Grp (Re.Cat re_scheme (Re.Plus not_gt_pipe)))
      (Re.Cat (Re.Opt (Re.Cat (Re.Lit "|") (Re.Star not_gt)))
              (Re.Lit ">"))).

(** [https?://[^\s<>Q]+], with Q the escaped double quote of the source *)
Definition PLAIN_URL_RE : Re.regex :=
  Re.Cat re_scheme (Re.Plus bare_url_char).

Definition extract_urls (text : string) : list string :=
  let slack_urls := Re.findall_group SLACK_URL_RE text in
  match slack_urls with
  | _ :: _ => slack_urls
  | [] => Re.findall PLAIN_URL_RE text
  end.

(** *** The extractor as the specification words it

    A bracket link is [<url>] or [<url|label>], where the URL is [http://]
    or [https://], in lower case, followed by at least one character, none
    of them a closing bracket or a pipe, and the label holds no closing
    bracket.  Other tokens in brackets (a mailto link, a scheme in upper
    case, a mention, a scheme with nothing after it) are not bracket links.
    A bare link is such a scheme followed by a maximal run of URL
    characters.  These relations are the reading of the specification that
    [extract_urls] is compared with. *)

Definition is_scheme (sch : string) : Prop :=
  sch = "http://" \/ sch = "https://".

(** [text] starts with a bracket link whose unwrapped URL is [u]; [after] is
    what follows the closing bracket. *)
Inductive bracket_link_at : string -> string -> string -> Prop :=
| BracketPlain sch body after :
    is_scheme sch -> body <> "" -> Str.all not_gt_pipe body = true ->
    bracket_link_at ("<" +:+ (sch +:+ body) +:+ ">" +:+ after) (sch +:+ body) after
| BracketLabel sch body label after :
    is_scheme sch -> body <> "" -> Str.all not_gt_pipe body = true ->
    Str.all not_gt label = true ->
    bracket_link_at ("<" +:+ (sch +:+ body) +:+ "|" +:+ label +:+ ">" +:+ after)
                    (sch +:+ body) after.

(** The bracket links of a text, left to right, each search resuming after
    the previous link. *)
Inductive bracket_links : string -> list string -> Prop :=
| BracketsEnd : bracket_links "" []
| BracketsHit text u after us :
    bracket_link_at text u after -> bracket_links after us ->
    bracket_links text (u :: us)
| BracketsSkip c text us :
    (forall u after, ~ bracket_link_at (String c text) u after) ->
    bracket_links text us ->
    bracket_links (String c text) us.

(** [text] starts with a bare link [u]: a scheme and the longest non-empty
    run of characters that are neither whitespace, nor an angle bracket,
    nor a double quote. *)
Inductive bare_link_at : string -> string -> string -> Prop :=
| BareLink sch body after :
    is_scheme sch -> body <> "" -> Str.all bare_url_char body = true ->
    match after with String c _ => bare_url_char c = false | "" => True end ->
    bare_link_at ((sch +:+ body) +:+ after) (sch +:+ body) after.

Inductive bare_links : string -> list string -> Prop :=
| BareEnd : bare_links "" []
| BareHit text u after us :
    bare_link_at text u after -> bare_links after us ->
    bare_links text (u :: us)
| BareSkip c text us :
    (forall u after, ~ bare_link_at (String c text) u after) ->
    bare_links text us ->
    bare_links (String c text) us.

(** Deterministic scanners used to relate the matcher to the relations. *)
Definition scheme_of (s : string) : option string :=
  if Str.starts_with "https://" s then Some "https://"
  else if Str.starts_with "http://" s then Some "http://"
  else None.

Definition slack_link_at (s : string) : option (string * string * string) :=
  if Str.starts_with "<" s then
    let s1 := Str.drop 1 s in
    match scheme_of s1 with
    | Some sch =>
        let s2 := Str.drop (String.length sch) s1 in
        let body := Str.take_while not_gt_pipe s2 in
        let s3 := Str.drop_while not_gt_pipe s2 in
        if Str.nonempty body then
          if Str.starts_with ">" s3 then Some (sch +:+ body, "", Str.drop 1 s3)
          else if Str.starts_with "|" s3 then
            let label := Str.take_while not_gt (Str.drop 1 s3) in
            let s5 := Str.drop_while not_gt (Str.drop 1 s3) in
            if Str.starts_with ">" s5
            then Some (sch +:+ body, "|" +:+ label, Str.drop 1 s5)
            else None
          else None
        else None
    | None => None
    end
  else None.

Definition plain_link_at (s : string) : option (string * string) :=
  match scheme_of s with
  | Some sch =>
      let s2 := Str.drop (String.length sch) s in
      let body := Str.take_while bare_url_char s2 in
      if Str.nonempty body
      then Some (sch +:+ body, Str.drop_while bare_url_char s2)
      else None
  | None => None
  end.

(** ** Outcomes of Python code: a value or a raised exception

    Every exception of the model is an instance of Python's [Exception]. *)

Inductive exn : Type :=
| RequestError          (* requests: connection error, timeout, bad URL *)
| JSONDecodeError       (* a body that is not JSON *)
| ValueError            (* float() of a malformed timestamp *)
| DateRangeError        (* datetime: ValueError or OverflowError, out of range *)
| AttributeError.       (* a method looked up on a value that lacks it *)

Inductive result (A : Type) : Type :=
| Ok (a : A)
| Raise (e : exn).

Arguments Ok {A} a.
Arguments Raise {A} e.

(** ** The calendar behind [datetime]

    [datetime] works in the proleptic Gregorian calendar.  [to_days] counts
    the days from 1970-01-01 to a date the way [datetime] numbers ordinals;
    [of_days] computes the date of a day number. *)

Module Calendar.

Record date : Type := Date { year : Z; month : Z; day : Z }.

Definition is_leap (y : Z) : bool :=
  (y mod 4 =? 0) && (negb (y mod 100 =? 0) || (y mod 400 =? 0)).

Definition DAYS_IN_MONTH (m : Z) : Z :=
  match m with
  | 1 => 31 | 2 => 28 | 3 => 31 | 4 => 30 | 5 => 31 | 6 => 30
  | 7 => 31 | 8 => 31 | 9 => 30 | 10 => 31 | 11 => 30 | 12 => 31 | _ => 0
  end.

Definition DAYS_BEFORE_MONTH (m : Z) : Z :=
  match m with
  | 1 => 0 | 2 => 31 | 3 => 59 | 4 => 90 | 5 => 120 | 6 => 151 | 7 => 181
  | 8 => 212 | 9 => 243 | 10 => 273 | 11 => 304 | 12 => 334 | _ => 0
  end.

Definition days_in_month (y m : Z) : Z :=
  if (m =? 2) && is_leap y then 29 else DAYS_IN_MONTH m.

Definition days_before_year (y : Z) : Z :=
  let p := y - 1 in 365 * p + p / 4 - p / 100 + p / 400.

Definition days_before_month (y m : Z) : Z :=
  DAYS_BEFORE_MONTH m + (if (2 <? m) && is_leap y then 1 else 0).

Definition validb (d : date) : bool :=
  (1 <=? month d) && (month d <=? 12) && (1 <=? day d)
  && (day d <=? days_in_month (year d) (month d)).

(** A date of the calendar: a month from 1 to 12 and a day of that month. *)
Definition valid (d : date) : Prop := validb d = true.

(** Days from 1970-01-01 (ordinal 719163) to [d]. *)
Definition to_days (d : date) : Z :=
  days_before_year (year d) + days_before_month (year d) (month d) + day d
  - 719163.

(** Month and day of day [doy] of a year that starts on 1 March. *)
Definition month_day_of_doy (doy : Z) : Z * Z :=
  let mp := (5 * doy + 2) / 153 in
  let d := doy - (153 * mp + 2) / 5 + 1 in
  let m := if mp <? 10 then mp + 3 else mp - 9 in
  (m, d).

(** The date of day [doe] of a 400-year era that starts on 1 March of a
    year divisible by 400; the year is relative to the start of the era. *)
Definition civil_of_doe (doe : Z) : date :=
  let yoe := (doe - doe / 1460 + doe / 36524 - doe / 146096) / 365 in
  let doy := doe - (365 * yoe + yoe / 4 - yoe / 100) in
  let md := month_day_of_doy doy in
  Date (if fst md <=? 2 then yoe + 1 else yoe) (fst md) (snd md).

Definition of_days (z : Z) : date :=
  let era := (z + 719468) / 146097 in
  let d := civil_of_doe ((z + 719468) mod 146097) in
  Date (year d + era * 400) (month d) (day d).

Definition digit (n : Z) : ascii := ascii_of_nat (48 + Z.to_nat (n mod 10)).

Definition pad2 (n : Z) : string :=
  String (digit (n / 10)) (String (digit n) "").

Definition pad4 (n : Z) : string :=
  String (digit (n / 1000)) (String (digit (n / 100)) (pad2 n)).

(** [strftime] with the format %Y-%m-%d, for years of four digits. *)
Definition strftime_ymd (d : date) : string :=
  pad4 (year d) +:+ "-" +:+ pad2 (month d) +:+ "-" +:+ pad2 (day d).

(** Days from 1 March to the first of month [m], January and February
    counting as the end of the year. *)
Definition march_offset (m : Z) : Z :=
  if m <=? 2 then 306 + DAYS_BEFORE_MONTH m else DAYS_BEFORE_MONTH m - 59.

(** What [month_day_of_doy] has to satisfy on a day of the year: a month,
    a day of that month (29 February on the last day only), and the right
    distance from 1 March. *)
Definition doy_ok (doy : Z) : bool :=
  let md := month_day_of_doy doy in
  (1 <=? fst md) && (fst md <=? 12) && (1 <=? snd md)
  && ((snd md <=? DAYS_IN_MONTH (fst md))
      || ((doy =? 365) && (fst md =? 2) && (snd md =? 29)))
  && (march_offset (fst md) + snd md - 1 =? doy).

(** An exhaustive check over a range of integers. *)
Fixpoint all_from (n : nat) (z : Z) (f : Z -> bool) : bool :=
  match n with
  | O => true
  | S k => if f z then all_from k (z + 1) f else false
  end.

End Calendar.

(** ** [decode_linkedin_activity_date] *)

Definition colon_or_dash (c : ascii) : bool :=
  Ascii.eqb c ":" || Ascii.eqb c "-".

(** The pattern [activity[:-](\d+)]. *)
Definition ACTIVITY_RE : Re.regex :=
  Re.Cat (Re.Lit "activity")
    (Re.Cat (Re.Cls colon_or_dash) (Re.Grp (Re.Plus Str.isdigit))).

(** [int(s)] for a string of decimal digits. *)
Fixpoint int_of_digits_from (acc : Z) (s : string) : Z :=
  match s with
  | "" => acc
  | String c t => int_of_digits_from (10 * acc + Z.of_nat (Str.code c - 48)) t
  end.

Definition int_of_digits (s : string) : Z := int_of_digits_from 0 s.

(** [sys.int_max_str_digits], as it is set by default: the longest digit
    string [int] converts. *)
Definition INT_MAX_STR_DIGITS : nat := Z.to_nat 4300.

(** [int(s)] for a string of decimal digits: the number it denotes, or
    [ValueError] when the string is longer than the limit. *)
Definition py_int (s : string) : result Z :=
  if (String.length s <=? INT_MAX_STR_DIGITS)%nat
  then Ok (int_of_digits s)
  else Raise ValueError.

(** The first instant [datetime] cannot represent: 10000-01-01, in
    milliseconds since the epoch. *)
Definition MAX_TIMESTAMP_MS : Z := 253402300800000.

(** [datetime.fromtimestamp(timestamp_ms / 1000, tz=timezone.utc)] for a
    non-negative integer [timestamp_ms], as far as the date goes.  The
    quotient is a float; below the bound it is less than a millisecond away
    from the exact quotient while whole days are exact, so the date is that
    of the whole milliseconds.  From year 10000 on the call raises. *)
Definition datetime_fromtimestamp_ms (timestamp_ms : Z) : result Calendar.date :=
  if timestamp_ms <? MAX_TIMESTAMP_MS
  then Ok (Calendar.of_days (timestamp_ms / 86400000))
  else Raise DateRangeError.

Definition decode_linkedin_activity_date (url : string) : result (option string) :=
  match Re.search ACTIVITY_RE url with
  | Some m =>
      match py_int (default "" (Re.m_group m)) with
      | Ok activity_id =>
          let timestamp_ms := Z.shiftr activity_id 22 in
          match datetime_fromtimestamp_ms timestamp_ms with
          | Ok dt => Ok (Some (Calendar.strftime_ymd dt))
          | Raise e => Raise e
          end
      | Raise e => Raise e
      end
  | None => Ok None
  end.

(** *** The decoder as the specification words it *)

(** [url] starts with the literal, a colon or dash, and the digit string
    [digits], which ends where the digits end. *)
Inductive activity_id_at : string -> string -> Prop :=
| ActivityIdAt sep digits rest :
    colon_or_dash sep = true -> digits <> "" ->
    Str.all Str.isdigit digits = true ->
    match rest with String c _ => Str.isdigit c = false | "" => True end ->
    activity_id_at ("activity" +:+ String sep digits +:+ rest) digits.

(** The leftmost activity identifier of a URL. *)
Inductive first_activity_id : string -> string -> Prop :=
| ActivityHere url digits :
    activity_id_at url digits -> first_activity_id url digits
| ActivityLater c url digits :
    (forall d, ~ activity_id_at (String c url) d) ->
    first_activity_id url digits ->
    first_activity_id (String c url) digits.

(** The URL contains the literal followed by a colon or dash and a digit. *)
Definition has_activity_id (url : string) : Prop :=
  exists a sep d b,
    colon_or_dash sep = true /\ Str.isdigit d = true /\
    url = a +:+ "activity" +:+ String sep (String d b).

Definition activity_at (s : string) : option (string * string) :=
  if Str.starts_with "activity" s then
    match Str.drop 8 s with
    | String c t =>
        if colon_or_dash c then
          if Str.nonempty (Str.take_while Str.isdigit t)
          then Some (Str.take_while Str.isdigit t, Str.drop_while Str.isdigit t)
          else None
        else None
    | "" => None
    end
  else None.

(** ** JSON values

    What [json.loads] returns and what the Notion client is handed.  Python's
    [None] and JSON's null are the same value.  Numbers are integers: of a
    number only its truth value is ever used. *)

#[warnings="-register-all"]
Inductive json : Type :=
| JNull
| JBool (b : bool)
| JNum (z : Z)
| JStr (s : string)
| JArr (l : list json)
| JObj (m : gmap string json).

(** Python's truth value of an object. *)
Definition truthy (v : json) : bool :=
  match v with
  | JNull => false
  | JBool b => b
  | JNum z => negb (z =? 0)
  | JStr s => Str.nonempty s
  | JArr l => match l with [] => false | _ :: _ => true end
  | JObj m => negb (bool_decide (m = ∅))
  end.

(** [a or b] *)
Definition py_or (a b : json) : json := if truthy a then a else b.

(** [d.get(key)], with [None] for a missing key. *)
Definition dict_get (d : gmap string json) (key : string) : json :=
  match d !! key with
  | Some v => v
  | None => JNull
  end.

(** [d.get(key, fallback)] *)
Definition dict_get_default (d : gmap string json) (key : string) (fallback : json) : json :=
  match d !! key with
  | Some v => v
  | None => fallback
  end.

(** [v == s] for a string [s]. *)
Definition json_eq_str (v : json) (s : string) : bool :=
  match v with
  | JStr t => String.eqb t s
  | _ => false
  end.

Definition json_of_ostr (o : option string) : json :=
  match o with
  | Some s => JStr s
  | None => JNull
  end.

(** Truth value of a [str | None]. *)
Definition truthy_ostr (o : option string) : bool :=
  match o with
  | Some s => Str.nonempty s
  | None => false
  end.

(** ** The outside world *)

(** The value of one property of a Notion page, as [create_notion_entry]
    builds it: a title, a rich text, a URL, a select or a date. *)
Inductive prop_value : Type :=
| PTitle (content : json)
| PRichText (content : json)
| PUrl (url : json)
| PSelect (name : json)
| PDate (start : json).

Abbreviation properties := (gmap string prop_value).

Record message : Type := Message {
  msg_ts : string;               (* msg["ts"] *)
  msg_text : option string       (* the key "text", when present *)
}.

Inductive slack_response : Type :=
| SlackFails (e : exn)                              (* the request or resp.json() raises *)
| SlackReply (ok : bool) (messages : list message). (* data.get("ok"), data.get("messages", []) *)

Inductive http_response : Type :=
| HttpFails                                  (* requests.get raises *)
| HttpResponse (status : Z) (text : string).

Inductive level : Type := INFO | WARNING | ERROR.

(** The log lines of the two files, with the values they interpolate. *)
Inductive log_msg : Type :=
| LFetchFailed (url : string)
| LFoundJobUrls (job_urls : list string)
| LClaudeFailed
| LDuplicate (link : json)
| LDedupFailed
| LAdded (company role : json)
| LNotionFailed
| LPolling (last_ts : string)
| LSlackError
| LNoNewMessages
| LProcessing (urls : list string)
| LFetchingPost (url : string)
| LScanning
| LFetching (job_url : string)
| LNoDetails (job_url : string)
| LDone (count : nat) (latest_ts : string)
| LStarted
| LPollError (e : exn)
| LSleeping (seconds : Z).

(** What the process does to the outside, in order. *)
Inductive event : Type :=
| ESlackHistory (channel oldest : string)
| EHttpGet (url : string)
| EClaude (prompt : string)
| ENotionQuery (link : json)
| ENotionCreate (props : properties)
| ESlackReaction (channel ts emoji : string)
| EFileWrite (content : string)
| ELog (lvl : level) (msg : log_msg)
| ESleep (seconds : Z).

(** A Python float, as far as the order of floats goes: a finite number,
    an infinity, or nan. *)
Inductive pyfloat : Type :=
| FNum (q : Q)
| FInf (positive : bool)
| FNan.

Definition is_nan (x : pyfloat) : bool :=
  match x with FNan => true | _ => false end.

(** [a <= b] and [a < b] on floats: every comparison with nan is false. *)
Definition float_le (a b : pyfloat) : bool :=
  match a, b with
  | FNan, _ => false
  | _, FNan => false
  | FInf false, _ => true
  | _, FInf true => true
  | FInf true, _ => false
  | _, FInf false => false
  | FNum x, FNum y => Qle_bool x y
  end.

Definition float_lt (a b : pyfloat) : bool :=
  float_le a b && negb (float_le b a).

(** How the outside answers.  The answers may change over time: an oracle
    is handed the number of events that precede the call.  The Notion query
    is also handed the pages the database holds at that moment.  The last
    fields are Python primitives on values the embedding keeps abstract:
    [float(ts)] of a message timestamp ([None] when it raises), the
    formatted UTC date of [datetime.fromtimestamp(float(ts))], [json.loads]
    ([None] when it raises), and what [list.sort] makes of a batch in which
    some key is nan.  With such a key the comparisons do not order the
    batch, and the order that results is that of the sorting algorithm: the
    embedding keeps of it only that the batch is rearranged. *)
Record env : Type := Env {
  slack_history : string -> slack_response;
  http_get : nat -> string -> http_response;
  claude_create : nat -> string -> option string;
  notion_query : nat -> list properties -> json -> option bool;
  notion_create : nat -> properties -> bool;
  py_float : string -> option pyfloat;
  py_utc_date : string -> result string;
  json_loads : string -> option json;
  sort_with_nan : list message -> list message;
  sort_with_nan_perm : forall l, Permutation (sort_with_nan l) l
}.

Record world : Type := World {
  w_file : option string;        (* last_processed_ts.txt, when it exists *)
  w_pages : list properties;     (* the pages of the Notion database *)
  w_trace : list event           (* the events so far, oldest first *)
}.

(** ** Effectful code: state passing with exceptions *)

Definition M (A : Type) : Type := world -> result A * world.

Definition ret {A} (a : A) : M A := fun w => (Ok a, w).

Definition raise {A} (e : exn) : M A := fun w => (Raise e, w).

Definition bind {A B} (c : M A) (k : A -> M B) : M B :=
  fun w =>
    match c w with
    | (Ok a, w') => k a w'
    | (Raise e, w') => (Raise e, w')
    end.

Notation "'let*' x ':=' c 'in' k" := (bind c (fun x => k))
  (at level 10, x name, c at level 100, k at level 200, only parsing).

Notation "c ';;;' k" := (bind c (fun _ => k))
  (at level 100, k at level 200, right associativity, only parsing).

(** [try: c except Exception: handler] *)
Definition try_except {A} (c : M A) (handler : exn -> M A) : M A :=
  fun w =>
    match c w with
    | (Ok a, w') => (Ok a, w')
    | (Raise e, w') => handler e w'
    end.

Definition emit (e : event) : M unit :=
  fun w => (Ok tt, World (w_file w) (w_pages w) (w_trace w ++ [e])).

Definition clock : M nat := fun w => (Ok (length (w_trace w)), w).

Definition log (lvl : level) (msg : log_msg) : M unit := emit (ELog lvl msg).

Definition get_pages : M (list properties) := fun w => (Ok (w_pages w), w).

Definition add_page (p : properties) : M unit :=
  fun w => (Ok tt, World (w_file w) (w_pages w ++ [p]) (w_trace w)).

(** ** Configuration *)

Definition SLACK_CHANNEL_ID : string := "C0ADKCQTZHU".

(** ** Checkpoint store *)

(** What [get_last_processed_ts] reads: the content of the file as text
    mode hands it out, stripped, or the beginning of time when there is no
    file.  [w_file] is the content as it is stored; on the systems the
    program runs on, writing in text mode stores the string as it is. *)
Definition stored_cursor (w : world) : string :=
  match w_file w with
  | Some content => Str.strip (Str.universal_newlines content)
  | None => "0"
  end.

Definition get_last_processed_ts : M string :=
  fun w => (Ok (stored_cursor w), w).

Definition save_last_processed_ts (ts : string) : M unit :=
  fun w => (Ok tt, World (Some ts) (w_pages w) (w_trace w ++ [EFileWrite ts])).

(** ** [fetch_page_content] *)

(** [Response.raise_for_status] of the requests library raises for the
    client and server error statuses, 400 to 599, and for no other. *)
Definition raise_for_status (status : Z) : bool :=
  (400 <=? status) && (status <? 600).

Definition FETCH_LIMIT : nat := Z.to_nat 15000.

(** A response with an informational status, 204 or 304 has no body:
    [http.client] reads none, whatever the server sent. *)
Definition bodyless (status : Z) : bool :=
  ((100 <=? status) && (status <? 200)) || (status =? 204) || (status =? 304).

(** [resp.text] of a response that reached the caller. *)
Definition response_text (status : Z) (text : string) : string :=
  if bodyless status then "" else text.

Definition fetch_page_content (e : env) (url : string) : M string :=
  let* n := clock in
  emit (EHttpGet url) ;;;
  match http_get e n url with
  | HttpResponse status text =>
      if raise_for_status status
      then log WARNING (LFetchFailed url) ;;; ret ""
      else ret (Str.take FETCH_LIMIT (response_text status text))
  | HttpFails => log WARNING (LFetchFailed url) ;;; ret ""
  end.

(** ** [extract_job_urls_from_page] *)

Definition JOB_BOARD_PATTERNS : list string :=
  [ "greenhouse.io"; "boards.greenhouse.io";
    "lever.co"; "jobs.lever.co";
    "ashbyhq.com"; "jobs.ashbyhq.com";
    "workday.com"; "myworkdayjobs.com";
    "smartrecruiters.com";
    "jobvite.com";
    "icims.com";
    "applytojob.com";
    "bamboohr.com";
    "recruitee.com";
    "workable.com";
    "breezy.hr";
    "jazz.co"; "resumator.com";
    "wellfound.com";
    "linkedin.com/jobs/view" ].

(** The class of the raw URL pattern: anything but whitespace, angle
    brackets, both quotes, the backslash, comma, semicolon and the closing
    round, curly and square brackets. *)
Definition raw_url_char (c : ascii) : bool :=
  negb (Str.isspace c
        || Ascii.eqb c "<" || Ascii.eqb c ">" || Ascii.eqb c Str.dq
        || Ascii.eqb c Str.sq || Ascii.eqb c Str.bsl
        || Ascii.eqb c "," || Ascii.eqb c ";" || Ascii.eqb c ")"
        || Ascii.eqb c "}" || Ascii.eqb c "]").

Definition RAW_URL_RE : Re.regex :=
  Re.Cat re_scheme (Re.Plus raw_url_char).

(** One turn of the loop over [raw_urls]; the state is [job_urls] and
    [seen]. *)
Definition job_url_step (source_url : string)
           (st : list string * gset string) (url : string) : list string * gset string :=
  let '(job_urls, seen) := st in
  let url := Str.rstrip (fun c => Ascii.eqb c ".") url in
  if String.eqb url source_url then st
  else if existsb (fun domain => Str.contains domain url) JOB_BOARD_PATTERNS then
    if bool_decide (url ∈ seen) then st
    else (job_urls ++ [url], {[ url ]} ∪ seen)
  else st.

Definition extract_job_urls_from_page (page_content source_url : string) : M (list string) :=
  let raw_urls := Re.findall RAW_URL_RE page_content in
  let job_urls := fst (fold_left (job_url_step source_url) raw_urls ([], ∅)) in
  log INFO (LFoundJobUrls job_urls) ;;;
  ret job_urls.

(** ** [extract_job_details] *)

Definition NL : string := Str.one Str.nl.

Definition quoted (s : string) : string :=
  Str.one Str.dq +:+ s +:+ Str.one Str.dq.

Definition prompt_field (key description : string) (last : bool) : string :=
  "  " +:+ quoted key +:+ ": " +:+ quoted description
  +:+ (if last then "" else ",") +:+ NL.

(** The fixed part of the prompt, up to the URL of the posting. *)
Definition PROMPT_HEAD : string :=
  "Extract job posting details from the content below." +:+ NL +:+
  "Return ONLY a JSON object with these fields (use null for any field not found):"
  +:+ NL +:+ NL +:+
  "{" +:+ NL +:+
  prompt_field "company_name" "Company name" false +:+
  prompt_field "open_role" "Job title" false +:+
  prompt_field "job_type" "Full-time or Part-time" false +:+
  prompt_field "location" "Location(s), semicolon-separated if multiple" false +:+
  prompt_field "compensation_range" "Salary/comp range if listed" false +:+
  prompt_field "link_to_apply"
    "Direct application URL if found in the page, otherwise null" false +:+
  prompt_field "job_listed_date"
    "Date the job was posted in YYYY-MM-DD format, or null if not found" true +:+
  "}" +:+ NL +:+ NL +:+
  "Important:" +:+ NL +:+
  "- For company_name, look in both the job page AND the LinkedIn post content. Check the LinkedIn poster's profile/company, the post text, or the job page title/header. Never return null or "
  +:+ quoted "Unknown" +:+ " if a company is mentioned anywhere." +:+ NL +:+
  "- Default job_type to " +:+ quoted "Full-time" +:+ " if not specified" +:+ NL +:+
  "- For location, combine all listed locations with semicolons" +:+ NL +:+
  "- For compensation, include the full range as stated" +:+ NL +:+
  "- For job_listed_date, look for any posting date, published date, or "
  +:+ quoted "posted X days/weeks ago" +:+ " and convert to YYYY-MM-DD" +:+ NL +:+
  "- Only return the JSON, no other text" +:+ NL +:+ NL.

Definition POST_LIMIT : nat := Z.to_nat 8000.

Definition content_sections (page_content : string)
           (linkedin_post_content : option string) : string :=
  (match linkedin_post_content with
   | Some post =>
       if Str.nonempty post
       then "LinkedIn Post Content (use this for company name if not found in job page):"
            +:+ NL +:+ Str.take POST_LIMIT post +:+ NL +:+ NL +:+ "---" +:+ NL +:+ NL
       else ""
   | None => ""
   end)
  +:+
  (if Str.nonempty page_content
   then "Job Page HTML Content:" +:+ NL +:+ page_content
   else "").

Definition build_prompt (page_content url : string)
           (linkedin_post_content : option string) : string :=
  PROMPT_HEAD +:+ "URL of the posting: " +:+ url +:+ NL +:+ NL
  +:+ content_sections page_content linkedin_post_content.

(** An opening code fence at the start: three backticks, an optional
    [json], whitespace. *)
Definition FENCE_OPEN_RE : Re.regex :=
  Re.Cat Re.Bol
    (Re.Cat (Re.Lit "```") (Re.Cat (Re.Opt (Re.Lit "json")) (Re.Star Str.isspace))).

(** A closing code fence at the end: whitespace, three backticks. *)
Definition FENCE_CLOSE_RE : Re.regex :=
  Re.Cat (Re.Star Str.isspace) (Re.Cat (Re.Lit "```") Re.Eol).

(** The result is [JNull] for Python's [None]. *)
Definition extract_job_details (e : env) (page_content url : string)
           (source_url : string) (linkedin_post_content : option string) : M json :=
  if negb (Str.nonempty page_content) && negb (truthy_ostr linkedin_post_content)
  then ret JNull
  else
    let prompt := build_prompt page_content url linkedin_post_content in
    let* n := clock in
    emit (EClaude prompt) ;;;
    match claude_create e n prompt with
    | Some reply =>
        let text := Str.strip reply in
        let text := Re.sub FENCE_OPEN_RE "" text in
        let text := Re.sub FENCE_CLOSE_RE "" text in
        match json_loads e text with
        | Some v => ret v
        | None => log ERROR LClaudeFailed ;;; ret JNull
        end
    | None => log ERROR LClaudeFailed ;;; ret JNull
    end.

(** ** [is_duplicate] and [create_notion_entry] *)

Definition is_duplicate (e : env) (link_to_apply : json) : M bool :=
  let* n := clock in
  emit (ENotionQuery link_to_apply) ;;;
  let* pages := get_pages in
  match notion_query e n pages link_to_apply with
  | Some true => log INFO (LDuplicate link_to_apply) ;;; ret true
  | Some false => ret false
  | None => log WARNING LDedupFailed ;;; ret false
  end.

(** The loop over [text_mappings]. *)
Definition add_text_properties (mappings : list (string * json))
           (props : properties) : properties :=
  fold_left
    (fun acc pv => if truthy (snd pv) then <[ fst pv := PRichText (snd pv) ]> acc else acc)
    mappings props.

(** The property dictionary [create_notion_entry] hands to Notion. *)
Definition build_properties (details : gmap string json) (source : string)
           (job_listed_date : json) : properties :=
  let properties : properties :=
    {[ "Company Name" := PTitle (py_or (dict_get details "company_name") (JStr "Unknown")) ]} in
  let text_mappings :=
    [ ("Open Role", dict_get details "open_role");
      ("Location", dict_get details "location");
      ("Compensation Range", dict_get details "compensation_range");
      ("Source", JStr source) ] in
  let properties := add_text_properties text_mappings properties in
  let link := dict_get details "link_to_apply" in
  let properties :=
    if truthy link then <[ "Link to Apply" := PUrl link ]> properties else properties in
  let job_type := dict_get_default details "job_type" (JStr "Full-time") in
  let properties :=
    if json_eq_str job_type "Full-time" || json_eq_str job_type "Part-time"
    then <[ "Job Type" := PSelect job_type ]> properties
    else properties in
  if truthy job_listed_date
  then <[ "Job Listed Date" := PDate job_listed_date ]> properties
  else properties.

Definition create_notion_entry (e : env) (details : gmap string json)
           (source : string) (job_listed_date : json) : M bool :=
  let link := dict_get details "link_to_apply" in
  let* dup := (if truthy link then is_duplicate e link else ret false) in
  if dup then ret false
  else
    let properties := build_properties details source job_listed_date in
    let* n := clock in
    emit (ENotionCreate properties) ;;;
    if notion_create e n properties
    then add_page properties ;;;
         log INFO (LAdded (dict_get details "company_name") (dict_get details "open_role")) ;;;
         ret true
    else log ERROR LNotionFailed ;;; ret false.

(** ** [post_slack_reaction] *)

Definition post_slack_reaction (channel timestamp emoji : string) : M unit :=
  emit (ESlackReaction channel timestamp emoji).

(** ** [poll_and_process] *)

(** The test that makes a URL a LinkedIn post URL. *)
Definition is_linkedin_post (u : string) : bool :=
  Str.contains "linkedin.com" u
  && (Str.contains "/feed/" u || Str.contains "/posts/" u || Str.contains "activity" u).

(** The loop that categorizes the URLs of a message; the state is
    [linkedin_post_url] and [job_urls]. *)
Definition categorize_step (st : option string * list string) (u : string)
  : option string * list string :=
  if is_linkedin_post u then (Some u, snd st) else (fst st, snd st ++ [u]).

Definition categorize (urls : list string) : option string * list string :=
  fold_left categorize_step urls (None, []).

(** [messages.sort(key=lambda m: float(m["ts"]))]: the keys are computed
    first, then the list is sorted by key, comparing keys with [<]; the
    sort is stable. *)
Fixpoint message_keys (e : env) (messages : list message)
  : option (list (pyfloat * message)) :=
  match messages with
  | [] => Some []
  | m :: rest =>
      match py_float e (msg_ts m), message_keys e rest with
      | Some k, Some keyed => Some ((k, m) :: keyed)
      | _, _ => None
      end
  end.

Fixpoint insert_by_key (x : pyfloat * message) (l : list (pyfloat * message))
  : list (pyfloat * message) :=
  match l with
  | [] => [x]
  | y :: rest =>
      if float_lt (fst y) (fst x) then y :: insert_by_key x rest else x :: l
  end.

Definition sort_by_key (l : list (pyfloat * message)) : list (pyfloat * message) :=
  fold_right insert_by_key [] l.

(** The order of the keys, and the messages of a given key. *)
Definition key_le (a b : pyfloat * message) : Prop :=
  float_le (fst a) (fst b) = true.

Definition float_eq (a b : pyfloat) : bool := float_le a b && float_le b a.

Definition has_key (k : pyfloat) (a : pyfloat * message) : bool :=
  float_eq (fst a) k.

Definition sort_messages (e : env) (messages : list message) : result (list message) :=
  match message_keys e messages with
  | Some keyed =>
      if existsb (fun km => is_nan (fst km)) keyed
      then Ok (sort_with_nan e messages)
      else Ok (map snd (sort_by_key keyed))
  | None => Raise ValueError
  end.

(** The body of the loop over [job_urls]. *)
Definition process_job_url (e : env) (text ts source_url : string)
           (linkedin_post_url linkedin_post_content linkedin_date : option string)
           (slack_date : string) (job_url : string) : M unit :=
  log INFO (LFetching job_url) ;;;
  let* content := fetch_page_content e job_url in
  let post_ctx :=
    if bool_decide (Some job_url = linkedin_post_url) then None
    else linkedin_post_content in
  let slack_ctx :=
    if Str.nonempty text then "Slack message text: " +:+ text +:+ NL +:+ NL else "" in
  let combined := Str.strip (slack_ctx +:+ default "" post_ctx) in
  let combined_post_ctx := if Str.nonempty combined then Some combined else None in
  let* details := extract_job_details e content job_url source_url combined_post_ctx in
  if truthy details then
    match details with
    | JObj details =>
        let details :=
          if truthy (dict_get details "link_to_apply") then details
          else <[ "link_to_apply" := JStr job_url ]> details in
        let job_date :=
          py_or (py_or (dict_get details "job_listed_date") (json_of_ostr linkedin_date))
                (JStr slack_date) in
        let details := delete "job_listed_date" details in
        let* success := create_notion_entry e details source_url job_date in
        if success
        then post_slack_reaction SLACK_CHANNEL_ID ts "white_check_mark"
        else ret tt
    | _ => raise AttributeError
    end
  else
    log WARNING (LNoDetails job_url) ;;;
    post_slack_reaction SLACK_CHANNEL_ID ts "warning".

Fixpoint for_each {A} (body : A -> M unit) (l : list A) : M unit :=
  match l with
  | [] => ret tt
  | x :: rest => body x ;;; for_each body rest
  end.

(** The body of the loop over the messages, below the [continue]. *)
Definition process_message (e : env) (text ts : string) (urls : list string) : M unit :=
  log INFO (LProcessing urls) ;;;
  let '(linkedin_post_url, job_urls) := categorize urls in
  let* linkedin_post_content :=
    (if truthy_ostr linkedin_post_url
     then log INFO (LFetchingPost (default "" linkedin_post_url)) ;;;
          let* c := fetch_page_content e (default "" linkedin_post_url) in ret (Some c)
     else ret None) in
  let* job_urls :=
    (match job_urls with
     | [] =>
         if truthy_ostr linkedin_post_url then
           log INFO LScanning ;;;
           let* embedded_job_urls :=
             extract_job_urls_from_page (default "" linkedin_post_content)
                                        (default "" linkedin_post_url) in
           match embedded_job_urls with
           | _ :: _ => ret embedded_job_urls
           | [] => ret [default "" linkedin_post_url]
           end
         else ret job_urls
     | _ :: _ => ret job_urls
     end) in
  let source_url :=
    if truthy_ostr linkedin_post_url then default "" linkedin_post_url
    else hd "" urls in
  let* linkedin_date :=
    (if truthy_ostr linkedin_post_url
     then match decode_linkedin_activity_date (default "" linkedin_post_url) with
          | Ok d => ret d
          | Raise x => raise x
          end
     else ret None) in
  let* slack_date :=
    (match py_utc_date e ts with
     | Ok d => ret d
     | Raise x => raise x
     end) in
  for_each (process_job_url e text ts source_url linkedin_post_url
                            linkedin_post_content linkedin_date slack_date)
           job_urls.

(** The loop over the sorted messages; the result is [latest_ts]. *)
Fixpoint for_messages (e : env) (messages : list message) (latest_ts : string) : M string :=
  match messages with
  | [] => ret latest_ts
  | msg :: rest =>
      let text := default "" (msg_text msg) in
      let ts := msg_ts msg in
      let urls := extract_urls text in
      match urls with
      | [] => for_messages e rest latest_ts               (* continue *)
      | _ :: _ =>
          process_message e text ts urls ;;;
          for_messages e rest ts
      end
  end.

Definition poll_and_process (e : env) : M unit :=
  let* last_ts := get_last_processed_ts in
  log INFO (LPolling last_ts) ;;;
  emit (ESlackHistory SLACK_CHANNEL_ID last_ts) ;;;
  match slack_history e last_ts with
  | SlackFails x => raise x
  | SlackReply ok messages =>
      if negb ok then log ERROR LSlackError
      else
        match messages with
        | [] => log INFO LNoNewMessages
        | _ :: _ =>
            match sort_messages e messages with
            | Raise x => raise x
            | Ok sorted =>
                let* latest_ts := for_messages e sorted last_ts in
                save_last_processed_ts latest_ts ;;;
                log INFO (LDone (length messages) latest_ts)
            end
        end
  end.

(** ** [scheduler.py] *)

Definition INTERVAL_SECONDS : Z := 30.

(** One turn of the [while True] loop. *)
Definition scheduler_turn (e : env) : M unit :=
  try_except (poll_and_process e) (fun x => log ERROR (LPollError x)) ;;;
  log INFO (LSleeping INTERVAL_SECONDS) ;;;
  emit (ESleep INTERVAL_SECONDS).

(** The first [turns] turns of the loop; turn [k] meets the outside
    [envs k].  The loop itself has no exit: the only way out of it would be
    an exception that escapes a turn. *)
Fixpoint scheduler_loop (envs : nat -> env) (k turns : nat) : M unit :=
  match turns with
  | O => ret tt
  | S turns' => scheduler_turn (envs k) ;;; scheduler_loop envs (S k) turns'
  end.

Definition scheduler_main (envs : nat -> env) (turns : nat) : M unit :=
  log INFO LStarted ;;;
  scheduler_loop envs 0 turns.

(** ** Observations on a run *)

(** The property dictionaries of the create calls in a trace, in order. *)
Definition create_calls (trace : list event) : list properties :=
  omap (fun ev => match ev with ENotionCreate p => Some p | _ => None end) trace.

Definition is_page_fetch (ev : event) : bool :=
  match ev with EHttpGet _ => true | _ => false end.

Definition is_llm_call (ev : event) : bool :=
  match ev with EClaude _ => true | _ => false end.

Definition is_create_call (ev : event) : bool :=
  match ev with ENotionCreate _ => true | _ => false end.

Definition is_file_write (ev : event) : bool :=
  match ev with EFileWrite _ => true | _ => false end.

Definition is_poll_start (ev : event) : bool :=
  match ev with ELog INFO (LPolling _) => true | _ => false end.

Definition is_sleep (ev : event) : bool :=
  match ev with ESleep _ => true | _ => false end.

(** An event of the work inside a cycle: neither the start of a poll, nor
    a write of the checkpoint file, nor a sleep. *)
Definition is_inner (ev : event) : bool :=
  negb (is_poll_start ev || is_file_write ev || is_sleep ev).

(** An event of a cycle other than the log line of its start; no sleep. *)
Definition is_cycle_work (ev : event) : bool :=
  negb (is_poll_start ev || is_sleep ev).

(** How many events of a kind a trace holds. *)
Definition count (P : event -> bool) (l : list event) : nat :=
  length (List.filter P l).


(** [c] leaves the checkpoint file alone and adds only events of kind [P]
    to the trace. *)
Definition steps_with (P : event -> bool) {A} (c : M A) : Prop :=
  forall w,
    w_file (snd (c w)) = w_file w /\
    exists evs, w_trace (snd (c w)) = w_trace w ++ evs /\ forallb P evs = true.

(** The timestamp the loop over the messages ends with: that of the last
    message from which URLs were extracted, or the initial one. *)
Definition latest_with_urls (messages : list message) (latest_ts : string) : string :=
  fold_left
    (fun acc msg =>
       match extract_urls (default "" (msg_text msg)) with
       | [] => acc
       | _ :: _ => msg_ts msg
       end)
    messages latest_ts.

(** The page carries [url] in its Link to Apply property. *)
Definition page_has_url (url : string) (p : properties) : bool :=
  match p !! "Link to Apply" with
  | Some (PUrl (JStr u)) => String.eqb u url
  | _ => false
  end.

(** The number of pages of the database recorded for [url]. *)
Definition records_for (url : string) (pages : list properties) : nat :=
  length (List.filter (page_has_url url) pages).

(** The existence query answers from the pages the database holds. *)
Definition faithful_query (e : env) : Prop :=
  forall n pages url,
    notion_query e n pages (JStr url) = Some (existsb (page_has_url url) pages).

(** ** Two runs side by side *)

(** The events [c] adds to the trace. *)
Definition events_of {A} (c : M A) (w : world) : list event :=
  drop (length (w_trace w)) (w_trace (snd (c w))).

(** The outside [e] with other answers from Slack, the pages, the LLM and
    Notion; the Python primitives stay as they are. *)
Definition with_outside (e : env)
           (slack : string -> slack_response)
           (http : nat -> string -> http_response)
           (claude : nat -> string -> option string)
           (query : nat -> list properties -> json -> option bool)
           (create : nat -> properties -> bool) : env :=
  Env slack http claude query create
      (py_float e) (py_utc_date e) (json_loads e)
      (sort_with_nan e) (sort_with_nan_perm e).

(** The Python primitives compute the same in the two outsides. *)
Definition same_python (e1 e2 : env) : Prop :=
  (forall ts, py_float e1 ts = py_float e2 ts) /\
  (forall ts, py_utc_date e1 ts = py_utc_date e2 ts) /\
  (forall text, json_loads e1 text = json_loads e2 text) /\
  (forall batch, sort_with_nan e1 batch = sort_with_nan e2 batch).

(** The request that the event [ev] records gets the same response from
    the two outsides, when it is event number [n1] of a run that meets
    [e1] with the database holding [p1], and event number [n2] of a run
    that meets [e2] with the database holding [p2]. *)
Definition answered_alike (e1 e2 : env) (n1 n2 : nat)
           (p1 p2 : list properties) (ev : event) : Prop :=
  match ev with
  | ESlackHistory _ oldest => slack_history e1 oldest = slack_history e2 oldest
  | EHttpGet url => http_get e1 n1 url = http_get e2 n2 url
  | EClaude prompt => claude_create e1 n1 prompt = claude_create e2 n2 prompt
  | ENotionQuery link => notion_query e1 n1 p1 link = notion_query e2 n2 p2 link
  | ENotionCreate props => notion_create e1 n1 props = notion_create e2 n2 props
  | _ => True
  end.

(** The pages of the database after the event: a create call that Notion
    accepts adds its page. *)
Definition pages_after (e : env) (n : nat) (pages : list properties)
           (ev : event) : list properties :=
  match ev with
  | ENotionCreate props => if notion_create e n props then pages ++ [props] else pages
  | _ => pages
  end.

(** Every request among the events [evs] gets the same response from the
    two outsides, the events being numbered from [n1] in one run and from
    [n2] in the other. *)
Fixpoint same_answers (e1 e2 : env) (n1 n2 : nat) (p1 p2 : list properties)
         (evs : list event) : Prop :=
  match evs with
  | [] => True
  | ev :: rest =>
      answered_alike e1 e2 n1 n2 p1 p2 ev /\
      same_answers e1 e2 (S n1) (S n2)
                   (pages_after e1 n1 p1 ev) (pages_after e2 n2 p2 ev) rest
  end.

Definition agree_at (e1 e2 : env) (w1 w2 : world) (evs : list event) : Prop :=
  same_answers e1 e2 (length (w_trace w1)) (length (w_trace w2))
               (w_pages w1) (w_pages w2) evs.

(** [c1] against [e1] and [c2] against [e2] go in step: from worlds with
    the same cursor, as long as the requests of [c1] are answered alike,
    [c2] adds the events [c1] adds, ends as [c1] ends, and leaves the same
    cursor. *)
Definition in_step (e1 e2 : env) {A} (c1 c2 : M A) : Prop :=
  forall w1, exists evs,
    w_trace (snd (c1 w1)) = w_trace w1 ++ evs /\
    forall w2 tail,
      stored_cursor w1 = stored_cursor w2 ->
      agree_at e1 e2 w1 w2 (evs ++ tail) ->
      fst (c1 w1) = fst (c2 w2) /\
      w_trace (snd (c2 w2)) = w_trace w2 ++ evs /\
      stored_cursor (snd (c1 w1)) = stored_cursor (snd (c2 w2)) /\
      agree_at e1 e2 (snd (c1 w1)) (snd (c2 w2)) tail.

(** An outside used in examples: Slack has nothing new, pages cannot be
    fetched, the LLM is down, Notion answers from its pages and accepts
    every page. *)
Definition example_env : env :=
  Env (fun _ => SlackReply true [])
      (fun _ _ => HttpFails)
      (fun _ _ => None)
      (fun _ pages link =>
         match link with
         | JStr url => Some (existsb (page_has_url url) pages)
         | _ => Some false
         end)
      (fun _ _ => true)
      (fun _ => Some (FNum 0))
      (fun _ => Ok "2024-01-01")
      (fun _ => None)
      (fun batch => batch)
      (fun batch => Permutation_refl batch).

Definition with_slack (e : env) (reply : slack_response) : env :=
  Env (fun _ => reply) (http_get e) (claude_create e) (notion_query e)
      (notion_create e) (py_float e) (py_utc_date e) (json_loads e)
      (sort_with_nan e) (sort_with_nan_perm e).


Definition empty_world : world := World None [] [].

(** Whether the last character read was a carriage return, after [s] is
    read from a state [after_cr]. *)
Fixpoint cr_state (after_cr : bool) (s : string) : bool :=
  match s with
  | "" => after_cr
  | String c t => cr_state (Ascii.eqb c Str.cr) t
  end.

(** A run of [n] zeros. *)
Fixpoint zeros (n : nat) : string :=
  match n with
  | O => ""
  | S m => String "0" (zeros m)
  end.

(** ** Further observations *)

(** The string neither starts nor ends with a character of class [p]. *)
Definition head_free (p : ascii -> bool) (s : string) : bool :=
  match s with
  | String c _ => negb (p c)
  | "" => true
  end.

Definition trimmed (s : string) : bool :=
  head_free Str.isspace s && head_free Str.isspace (Str.rev s).

(** A URL as the extractor yields it: a scheme and at least one more
    character. *)
Definition url_shaped (u : string) : Prop :=
  exists sch body, is_scheme sch /\ body <> "" /\ u = sch +:+ body.

(** [s[i:j]] *)
Definition slice (i j : nat) (s : string) : string :=
  Str.take (j - i) (Str.drop i s).

(** What holds of a URL the sniffer keeps: it is not the source URL, it
    contains one of the job board patterns, and it does not end with a
    period. *)
Definition sniffed (source_url u : string) : Prop :=
  u <> source_url /\
  existsb (fun domain => Str.contains domain u) JOB_BOARD_PATTERNS = true /\
  head_free (fun c => Ascii.eqb c ".") (Str.rev u) = true.

(** The loop keeps [seen] equal to the set of [job_urls], which holds no
    URL twice and only URLs of the wanted kind. *)
Definition sniff_inv (source_url : string) (st : list string * gset string) : Prop :=
  (forall u, u ∈ snd st <-> In u (fst st)) /\
  NoDup (fst st) /\
  Forall (sniffed source_url) (fst st).

(** A property of a page as the schema of the database has it: the name
    goes with the kind of value, no value is empty, and a select is one of
    the two job types. *)
Definition well_typed (key : string) (v : prop_value) : Prop :=
  match v with
  | PTitle content => key = "Company Name" /\ truthy content = true
  | PRichText content =>
      In key ["Open Role"; "Location"; "Compensation Range"; "Source"] /\
      truthy content = true
  | PUrl url => key = "Link to Apply" /\ truthy url = true
  | PSelect name =>
      key = "Job Type" /\ (name = JStr "Full-time" \/ name = JStr "Part-time")
  | PDate start => key = "Job Listed Date" /\ truthy start = true
  end.

(** The pages [c] adds to the database and the create calls it issues,
    read off the worlds before and after. *)
Definition run_adds {A} (c : M A) (w : world) (evs : list event)
           (added : list properties) : Prop :=
  w_file (snd (c w)) = w_file w /\
  w_trace (snd (c w)) = w_trace w ++ evs /\
  w_pages (snd (c w)) = w_pages w ++ added.

Definition is_success_reaction (ev : event) : bool :=
  match ev with
  | ESlackReaction _ _ emoji => String.eqb emoji "white_check_mark"
  | _ => false
  end.

(** A page as a cycle creates it: well typed, with a title, an apply link
    and a source. *)
Definition page_ok (p : properties) : Prop :=
  map_Forall well_typed p /\
  (exists title, p !! "Company Name" = Some (PTitle title)) /\
  (exists url, p !! "Link to Apply" = Some (PUrl url)) /\
  (exists source, p !! "Source" = Some (PRichText (JStr source))).

(** What the work inside a cycle keeps true of the events it adds and of
    the pages it adds: only inner events; one success reaction per added
    page; every create call and every added page is a page as above; the
    added pages are among the create calls, in order. *)
Definition cycle_inv (evs : list event) (added : list properties) : Prop :=
  forallb is_inner evs = true /\
  count is_success_reaction evs = length added /\
  Forall page_ok (create_calls evs) /\
  sublist added (create_calls evs).

(** [c] extends the trace and the database by events and pages in relation
    [R], leaves the checkpoint file alone, and a value it returns
    satisfies [Q]. *)
Definition keeps (R : list event -> list properties -> Prop) {A}
           (c : M A) (Q : A -> Prop) : Prop :=
  forall w,
    exists evs added,
      run_adds c w evs added /\ R evs added /\
      (forall a, fst (c w) = Ok a -> Q a).

(** The longest prompt that goes with a job URL: the fixed head, the URL
    line (22 characters and the URL), at most 8,000 characters of context
    under a heading of 83, and at most 15,000 of the page under a heading
    of 23. *)
Definition prompt_limit (url : string) : nat :=
  String.length PROMPT_HEAD + String.length url + Z.to_nat 23128.

Definition prompt_within (limit : nat) (ev : event) : bool :=
  match ev with
  | EClaude prompt => (String.length prompt <=? limit)%nat
  | _ => true
  end.

(** The order of two messages by [float(m["ts"])], and the messages whose
    timestamp is the number [k]. *)
Definition ts_le (e : env) (a b : message) : Prop :=
  match py_float e (msg_ts a), py_float e (msg_ts b) with
  | Some ka, Some kb => float_le ka kb = true
  | _, _ => False
  end.

Definition ts_is (e : env) (k : pyfloat) (m : message) : bool :=
  match py_float e (msg_ts m) with
  | Some q => float_eq q k
  | None => false
  end.

(** [float(m["ts"])] is not nan. *)
Definition ts_ordered (e : env) (m : message) : Prop :=
  py_float e (msg_ts m) <> Some FNan.

(** What a cycle, and so any number of turns of the scheduler, keeps true
    of the events it adds and of the pages it adds to the database: the
    added pages are among the create calls, in order; every create call is
    a page as above; one success reaction per added page. *)
Definition db_inv (evs : list event) (added : list properties) : Prop :=
  sublist added (create_calls evs) /\
  Forall page_ok (create_calls evs) /\
  count is_success_reaction evs = length added.

Definition is_reaction (ev : event) : bool :=
  match ev with ESlackReaction _ _ _ => true | _ => false end.

(** [source_url = linkedin_post_url or urls[0]] for the URLs of a message. *)
Definition source_url_of (urls : list string) : string :=
  let linkedin_post_url := fst (categorize urls) in
  if truthy_ostr linkedin_post_url then default "" linkedin_post_url
  else hd "" urls.

Definition has_source (source : string) (p : properties) : Prop :=
  p !! "Source" = Some (PRichText (JStr source)).

(** The Source of the page is the source URL of a message of the batch. *)
Definition sourced (messages : list message) (p : properties) : Prop :=
  exists m, In m messages /\
            has_source (source_url_of (extract_urls (default "" (msg_text m)))) p.

Definition calls_inv (P : properties -> Prop)
           (evs : list event) (added : list properties) : Prop :=
  Forall P (create_calls evs).

Definition is_not_create (ev : event) : bool := negb (is_create_call ev).

(** The raw URL at the start of [s], as the pattern of the sniffer matches
    it, and what follows it. *)
Definition raw_link_at (s : string) : option (string * string) :=
  match scheme_of s with
  | Some sch =>
      let s2 := Str.drop (String.length sch) s in
      let body := Str.take_while raw_url_char s2 in
      if Str.nonempty body
      then Some (sch +:+ body, Str.drop_while raw_url_char s2)
      else None
  | None => None
  end.

(** The URL begins with http:// or https:// and goes on. *)
Definition is_http_url (u : string) : bool :=
  (Str.starts_with "http://" u && (7 <? String.length u)%nat)
  || (Str.starts_with "https://" u && (8 <? String.length u)%nat).

(** A page fetch, if the event is one, asks for an http(s) URL. *)
Definition fetch_http (ev : event) : bool :=
  match ev with
  | EHttpGet url => is_http_url url
  | _ => true
  end.

(** A reaction, if the event is one, goes to the message [ts] of the
    channel that is read, with one of the two emoji of the source. *)
Definition reaction_to (ts : string) (ev : event) : bool :=
  match ev with
  | ESlackReaction channel timestamp emoji =>
      String.eqb channel SLACK_CHANNEL_ID && String.eqb timestamp ts
      && (String.eqb emoji "white_check_mark" || String.eqb emoji "warning")
  | _ => true
  end.

Definition has_urls (m : message) : bool :=
  match extract_urls (default "" (msg_text m)) with
  | [] => false
  | _ :: _ => true
  end.

(** A reaction, if the event is one, goes to a message of the batch from
    which URLs were extracted. *)
Definition reaction_in (batch : list message) (ev : event) : bool :=
  match ev with
  | ESlackReaction _ _ _ =>
      existsb (fun m => has_urls m && reaction_to (msg_ts m) ev) batch
  | _ => true
  end.

(** No more create calls than LLM calls, no more LLM calls than page
    fetches. *)
Definition calls_ordered (evs : list event) : Prop :=
  (count is_create_call evs <= count is_llm_call evs)%nat /\
  (count is_llm_call evs <= count is_page_fetch evs)%nat.

(** [c] adds events in the order above. *)
Definition ordered {A} (c : M A) : Prop :=
  forall w, exists evs,
    w_trace (snd (c w)) = w_trace w ++ evs /\ calls_ordered evs.

(** Neither an LLM call nor a create call. *)
Definition is_cheap (ev : event) : bool :=
  negb (is_llm_call ev || is_create_call ev).

(** The position of [$]: the end of the text, or the line feed that ends
    it. *)
Definition at_end (s : string) : bool :=
  match s with
  | "" => true
  | String c "" => Ascii.eqb c Str.nl
  | _ => false
  end.

(** [s] is a closing fence: blanks, three backticks, the end. *)
Definition closes (s : string) : bool :=
  let t := Str.drop_while Str.isspace s in
  Str.starts_with "```" t && at_end (Str.drop 3 t).

(** What the two substitutions of [extract_job_details] compute. *)
Definition strip_open (s : string) : string :=
  if Str.starts_with "```" s then
    let s1 := Str.drop 3 s in
    Str.drop_while Str.isspace (if Str.starts_with "json" s1 then Str.drop 4 s1 else s1)
  else s.

Fixpoint strip_close (s : string) : string :=
  if closes s then Str.drop 3 (Str.drop_while Str.isspace s)
  else match s with
       | "" => ""
       | String c t => String c (strip_close t)
       end.

(* ================================================================== *)
(** * Properties *)

(** ** Strings *)

Module StrFacts.
Import Str.

Lemma app_cons c s t : String c s +:+ t = String c (s +:+ t).
Proof. reflexivity. Qed.

Lemma length_cons c s : String.length (String c s) = S (String.length s).
Proof. reflexivity. Qed.

Lemma app_nil_l s : "" +:+ s = s.
Proof. reflexivity. Qed.

Lemma app_nil_r s : s +:+ "" = s.
Proof. induction s as [|c s IH]; [reflexivity|]. rewrite app_cons, IH. reflexivity. Qed.

Lemma app_assoc a b c : (a +:+ b) +:+ c = a +:+ (b +:+ c).
Proof. induction a as [|x a IH]; [reflexivity|]. rewrite !app_cons, IH. reflexivity. Qed.

Lemma length_app a b : String.length (a +:+ b) = (String.length a + String.length b)%nat.
Proof. induction a as [|x a IH]; [reflexivity|]. rewrite app_cons. simpl. rewrite IH. reflexivity. Qed.

Lemma take_app_length a b : take (String.length a) (a +:+ b) = a.
Proof. induction a as [|x a IH]; [destruct b; reflexivity|]. rewrite app_cons. simpl. rewrite IH. reflexivity. Qed.

Lemma drop_app_length a b : drop (String.length a) (a +:+ b) = b.
Proof. induction a as [|x a IH]; [reflexivity|]. rewrite app_cons. simpl. exact IH. Qed.

Lemma take_drop n s : take n s +:+ drop n s = s.
Proof.
  revert s. induction n as [|n IH]; intros [|c s]; try reflexivity.
  simpl. rewrite app_cons, IH. reflexivity.
Qed.

Lemma take_while_drop_while p s : take_while p s +:+ drop_while p s = s.
Proof.
  induction s as [|c s IH]; [reflexivity|]. simpl.
  destruct (p c); [|reflexivity]. rewrite app_cons, IH. reflexivity.
Qed.

Lemma all_take_while p s : all p (take_while p s) = true.
Proof.
  induction s as [|c s IH]; [reflexivity|]. simpl.
  destruct (p c) eqn:E; [|reflexivity]. simpl. rewrite E, IH. reflexivity.
Qed.

Lemma all_app p a b : all p (a +:+ b) = all p a && all p b.
Proof.
  induction a as [|c a IH]; [reflexivity|]. rewrite app_cons. simpl.
  rewrite IH, andb_assoc. reflexivity.
Qed.

Lemma drop_while_stops p s c t : drop_while p s = String c t -> p c = false.
Proof.
  induction s as [|x s IH]; simpl; [discriminate|].
  destruct (p x) eqn:E; [exact IH|]. intros [= -> ->]. exact E.
Qed.

(** A run of [p]-characters followed by a non-[p] character (or the end)
    is what [take_while] and [drop_while] split off. *)
Lemma take_while_app p a b :
  all p a = true ->
  match b with String c _ => p c = false | "" => True end ->
  take_while p (a +:+ b) = a /\ drop_while p (a +:+ b) = b.
Proof.
  intros Ha Hb. induction a as [|x a IH].
  - rewrite app_nil_l. destruct b as [|c b]; [split; reflexivity|].
    simpl. rewrite Hb. split; reflexivity.
  - simpl in Ha. apply andb_prop in Ha as [Hx Ha]. rewrite app_cons. simpl.
    rewrite Hx. destruct (IH Ha) as [-> ->]. split; reflexivity.
Qed.

Lemma starts_with_app pre t : starts_with pre (pre +:+ t) = true.
Proof.
  induction pre as [|c pre IH]; [reflexivity|]. rewrite app_cons. simpl.
  rewrite Ascii.eqb_refl. exact IH.
Qed.

Lemma starts_with_inv pre s :
  starts_with pre s = true -> s = pre +:+ drop (String.length pre) s.
Proof.
  revert s. induction pre as [|c pre IH]; intros s H; [reflexivity|].
  destruct s as [|d s]; [discriminate|]. simpl in H.
  apply andb_prop in H as [Hc H]. apply Ascii.eqb_eq in Hc as ->.
  rewrite app_cons. simpl. f_equal. apply IH, H.
Qed.

Lemma starts_with_iff pre s :
  starts_with pre s = true <-> exists t, s = pre +:+ t.
Proof.
  split.
  - intros H. eexists. apply starts_with_inv, H.
  - intros [t ->]. apply starts_with_app.
Qed.

Lemma starts_with_cat a b s :
  starts_with (a +:+ b) s =
  starts_with a s && starts_with b (drop (String.length a) s).
Proof.
  revert s. induction a as [|c a IH]; intros s; [reflexivity|].
  rewrite app_cons. destruct s as [|d s]; [reflexivity|]. simpl.
  rewrite IH, andb_assoc. reflexivity.
Qed.

Lemma contains_app needle a b :
  contains needle (a +:+ needle +:+ b) = true.
Proof.
  induction a as [|c a IH].
  - rewrite app_nil_l. destruct (needle +:+ b) eqn:E; simpl;
      rewrite <- E, starts_with_app; reflexivity.
  - rewrite app_cons. simpl. rewrite IH. apply orb_true_r.
Qed.

Lemma contains_iff needle hay :
  contains needle hay = true <-> exists a b, hay = a +:+ needle +:+ b.
Proof.
  split.
  - induction hay as [|c hay IH]; simpl.
    + rewrite orb_false_r. intros H. apply starts_with_inv in H.
      exists "", (drop (String.length needle) ""). exact H.
    + intros H. apply orb_prop in H as [H|H].
      * apply starts_with_inv in H. exists "". eexists. exact H.
      * destruct (IH H) as (a & b & ->). exists (String c a), b. reflexivity.
  - intros (a & b & ->). apply contains_app.
Qed.

(** [contains (one c) s = false] says that the character does not occur. *)
Lemma all_not_contains c s :
  all (fun x => negb (Ascii.eqb x c)) s = negb (contains (one c) s).
Proof.
  induction s as [|x s IH]; [reflexivity|]. simpl. rewrite IH.
  rewrite (Ascii.eqb_sym c x). destruct (Ascii.eqb x c); simpl.
  - reflexivity.
  - reflexivity.
Qed.

End StrFacts.

(** ** The matcher on the patterns of the source *)

Module ReFacts.
Import Str StrFacts Re.

Lemma orelse_none_r a : orelse a None = a.
Proof. destruct a; reflexivity. Qed.

Lemma rmatch_cat r1 r2 st k :
  rmatch (Cat r1 r2) st k = rmatch r1 st (fun st' => rmatch r2 st' k).
Proof. reflexivity. Qed.

Lemma rmatch_lit s st k :
  rmatch (Lit s) st k =
  if starts_with s (ms_rest st)
  then k (MState (ms_pos st + String.length s)
                 (drop (String.length s) (ms_rest st)) (ms_grp st))
  else None.
Proof. reflexivity. Qed.

Lemma rmatch_opt r st k : rmatch (Opt r) st k = orelse (rmatch r st k) (k st).
Proof. reflexivity. Qed.

Lemma rmatch_grp r st k :
  rmatch (Grp r) st k =
  rmatch r st (fun st' =>
    k (MState (ms_pos st') (ms_rest st')
              (Some (take (ms_pos st' - ms_pos st) (ms_rest st))))).
Proof. reflexivity. Qed.

(** The longest run is tried first: when the rest of the pattern matches
    after it, that is the match. *)
Lemma mstar_greedy p pos s g k :
  is_Some (k (run_end p pos s g)) ->
  mstar p pos s g k = k (run_end p pos s g).
Proof.
  unfold run_end. revert pos. induction s as [|c s IH]; intros pos H; simpl in *.
  - rewrite Nat.add_0_r. reflexivity.
  - destruct (p c); [|simpl; rewrite Nat.add_0_r; reflexivity].
    rewrite length_cons, Nat.add_succ_r in H |- *.
    pose proof (IH (S pos)) as IH'. simpl in IH'.
    rewrite (IH' H). destruct H as [x ->]. reflexivity.
Qed.

(** When the rest of the pattern cannot start with a character of the
    class, giving characters back never helps. *)
Lemma mstar_forced p pos s g k :
  (forall pos' c t, p c = true -> k (MState pos' (String c t) g) = None) ->
  mstar p pos s g k = k (run_end p pos s g).
Proof.
  intros Hk. unfold run_end. revert pos.
  induction s as [|c s IH]; intros pos; simpl.
  - rewrite Nat.add_0_r. reflexivity.
  - destruct (p c) eqn:E; [|simpl; rewrite Nat.add_0_r; reflexivity].
    rewrite (Hk pos c s E), orelse_none_r, IH, length_cons.
    rewrite Nat.add_succ_r. reflexivity.
Qed.

Lemma rmatch_plus_run p st k :
  (is_Some (k (run_end p (ms_pos st) (ms_rest st) (ms_grp st))) \/
   forall pos' c t, p c = true -> k (MState pos' (String c t) (ms_grp st)) = None) ->
  rmatch (Plus p) st k =
  if nonempty (take_while p (ms_rest st))
  then k (run_end p (ms_pos st) (ms_rest st) (ms_grp st))
  else None.
Proof.
  intros H. destruct st as [pos s g]. simpl in *. destruct s as [|c s]; [reflexivity|].
  simpl. destruct (p c) eqn:E; [|reflexivity]. simpl.
  assert (R : run_end p pos (String c s) g = run_end p (S pos) s g).
  { unfold run_end. simpl. rewrite E, length_cons, Nat.add_succ_r. reflexivity. }
  rewrite R in *. destruct H as [H|H].
  - apply mstar_greedy, H.
  - apply mstar_forced, H.
Qed.

Lemma rmatch_star_forced p st k :
  (forall pos' c t, p c = true -> k (MState pos' (String c t) (ms_grp st)) = None) ->
  rmatch (Star p) st k = k (run_end p (ms_pos st) (ms_rest st) (ms_grp st)).
Proof. intros H. apply mstar_forced, H. Qed.

Lemma drop_drop n m s : drop n (drop m s) = drop (m + n) s.
Proof.
  revert s. induction m as [|m IH]; intros s; [reflexivity|].
  destruct s as [|c s]; [destruct n; reflexivity|]. simpl. apply IH.
Qed.

Lemma starts_with_head_neq a b r s :
  a <> b -> starts_with (one a) s = true -> starts_with (String b r) s = false.
Proof.
  intros Hab. destruct s as [|c s]; [discriminate|]. simpl.
  destruct (Ascii.eqb_spec a c) as [->|]; [|discriminate].
  intros _. destruct (Ascii.eqb_spec b c) as [->|]; [congruence|reflexivity].
Qed.

(** [https?://] reads exactly one of the two schemes. *)
Lemma rmatch_scheme st k :
  rmatch re_scheme st k =
  match scheme_of (ms_rest st) with
  | Some sch => k (MState (ms_pos st + String.length sch)
                          (drop (String.length sch) (ms_rest st)) (ms_grp st))
  | None => None
  end.
Proof.
  destruct st as [pos s g]. unfold re_scheme, scheme_of.
  rewrite rmatch_cat, rmatch_lit. cbn [ms_rest ms_pos ms_grp].
  change "https://" with ("http" +:+ "s" +:+ "://").
  change "http://" with ("http" +:+ "://").
  rewrite !starts_with_cat.
  destruct (starts_with "http" s); [|reflexivity]. cbn [andb].
  rewrite rmatch_cat, rmatch_opt, !rmatch_lit. cbn [ms_rest ms_pos ms_grp].
  rewrite !drop_drop. cbn [String.length Nat.add].
  destruct (starts_with "s" (drop 4 s)) eqn:Es.
  - rewrite (starts_with_head_neq "s" ":" "//" (drop 4 s)) by (discriminate || exact Es).
    rewrite orelse_none_r. cbn [andb].
    replace (pos + 4 + 1 + 3)%nat with (pos + 8)%nat by lia.
    destruct (starts_with "://" (drop 5 s)); reflexivity.
  - cbn [orelse andb].
    replace (pos + 4 + 3)%nat with (pos + 7)%nat by lia.
    destruct (starts_with "://" (drop 4 s)); reflexivity.
Qed.

Lemma starts_with_one c d t : starts_with (one c) (String d t) = Ascii.eqb c d.
Proof. simpl. apply andb_true_r. Qed.

Lemma not_gt_pipe_head c t :
  not_gt_pipe c = true ->
  starts_with ">" (String c t) = false /\ starts_with "|" (String c t) = false.
Proof.
  unfold not_gt_pipe. intros H. apply negb_true_iff, orb_false_iff in H as [H1 H2].
  change ">" with (one ">"). change "|" with (one "|").
  rewrite !starts_with_one, Ascii.eqb_sym, H1, Ascii.eqb_sym, H2. split; reflexivity.
Qed.

Lemma not_gt_head c t : not_gt c = true -> starts_with ">" (String c t) = false.
Proof.
  unfold not_gt. intros H. apply negb_true_iff in H.
  change ">" with (one ">"). rewrite starts_with_one, Ascii.eqb_sym. exact H.
Qed.

(** The end of the Slack pattern: an optional [|label], then [>]. *)
Lemma rmatch_slack_tail pos s g :
  rmatch (Cat (Opt (Cat (Lit "|") (Star not_gt))) (Lit ">")) (MState pos s g) Some =
  if starts_with ">" s then Some (MState (pos + 1) (drop 1 s) g)
  else if starts_with "|" s then
    if starts_with ">" (drop_while not_gt (drop 1 s))
    then Some (MState (pos + 1 + String.length (take_while not_gt (drop 1 s)) + 1)
                      (drop 1 (drop_while not_gt (drop 1 s))) g)
    else None
  else None.
Proof.
  rewrite rmatch_cat, rmatch_opt, rmatch_cat, !rmatch_lit. cbn [ms_rest ms_pos ms_grp].
  destruct (starts_with "|" s) eqn:Ep.
  - assert (Hgt : starts_with ">" s = false).
    { destruct s as [|c t]; [reflexivity|].
      change "|" with (one "|") in Ep. change ">" with (one ">").
      rewrite starts_with_one in *. apply Ascii.eqb_eq in Ep as <-. reflexivity. }
    rewrite Hgt, orelse_none_r.
    rewrite rmatch_star_forced.
    + unfold run_end. cbn [ms_rest ms_pos ms_grp String.length].
      rewrite rmatch_lit. cbn [ms_rest ms_pos ms_grp String.length]. reflexivity.
    + intros pos' c t Hc. rewrite rmatch_lit. cbn [ms_rest ms_pos ms_grp].
      rewrite (not_gt_head c t Hc). reflexivity.
  - cbn [orelse]. cbn [String.length]. destruct (starts_with ">" s); reflexivity.
Qed.

Lemma scheme_of_inv s sch :
  scheme_of s = Some sch -> is_scheme sch /\ s = sch +:+ drop (String.length sch) s.
Proof.
  unfold scheme_of, is_scheme.
  destruct (starts_with "https://" s) eqn:E1; [|destruct (starts_with "http://" s) eqn:E2];
    intros [= <-].
  - split; [right; reflexivity|]. apply starts_with_inv, E1.
  - split; [left; reflexivity|]. apply starts_with_inv, E2.
Qed.

Lemma scheme_of_app sch t : is_scheme sch -> scheme_of (sch +:+ t) = Some sch.
Proof.
  unfold scheme_of. intros [-> | ->].
  - rewrite (starts_with_app "http://" t).
    replace (starts_with "https://" ("http://" +:+ t)) with false; [reflexivity|].
    rewrite !app_cons, app_nil_l. reflexivity.
  - rewrite (starts_with_app "https://" t). reflexivity.
Qed.

Lemma nonempty_iff s : nonempty s = true <-> s <> "".
Proof. destruct s; simpl; split; congruence. Qed.

(** The Slack pattern at one position, as the scanner computes it. *)
Lemma rmatch_slack pos s :
  rmatch SLACK_URL_RE (MState pos s None) Some =
  match slack_link_at s with
  | Some (u, mid, after) =>
      Some (MState (pos + (2 + String.length u + String.length mid)) after (Some u))
  | None => None
  end.
Proof.
  unfold SLACK_URL_RE, slack_link_at.
  rewrite rmatch_cat, rmatch_lit. cbn [ms_rest ms_pos ms_grp String.length].
  destruct (starts_with "<" s); [|reflexivity].
  rewrite rmatch_cat, rmatch_grp, rmatch_cat, rmatch_scheme. cbn [ms_rest ms_pos ms_grp].
  destruct (scheme_of (drop 1 s)) as [sch|] eqn:Esch; [|reflexivity].
  apply scheme_of_inv in Esch as [_ Esch].
  set (s2 := drop (String.length sch) (drop 1 s)) in *.
  rewrite rmatch_plus_run.
  2:{ right. intros pos' c t Hc. cbn [ms_rest ms_pos ms_grp].
      rewrite rmatch_slack_tail. destruct (not_gt_pipe_head c t Hc) as [-> ->]. reflexivity. }
  unfold run_end. cbn [ms_rest ms_pos ms_grp]. cbv zeta.
  destruct (nonempty (take_while not_gt_pipe s2)); [|reflexivity].
  assert (G : take (pos + 1 + String.length sch + String.length (take_while not_gt_pipe s2)
                    - (pos + 1)) (drop 1 s) = sch +:+ take_while not_gt_pipe s2).
  { replace (pos + 1 + String.length sch + String.length (take_while not_gt_pipe s2)
             - (pos + 1))%nat
      with (String.length (sch +:+ take_while not_gt_pipe s2))
      by (rewrite length_app; lia).
    rewrite Esch.
    replace (sch +:+ s2)
      with ((sch +:+ take_while not_gt_pipe s2) +:+ drop_while not_gt_pipe s2)
      by (rewrite app_assoc, take_while_drop_while; reflexivity).
    apply take_app_length. }
  rewrite G, rmatch_slack_tail.
  destruct (starts_with ">" (drop_while not_gt_pipe s2)).
  - rewrite length_app. cbn [String.length]. do 2 f_equal. lia.
  - destruct (starts_with "|" (drop_while not_gt_pipe s2)); [|reflexivity].
    destruct (starts_with ">" (drop_while not_gt (drop 1 (drop_while not_gt_pipe s2))));
      [|reflexivity].
    rewrite !length_app. cbn [String.length]. do 2 f_equal. lia.
Qed.

Lemma rmatch_plain pos s :
  rmatch PLAIN_URL_RE (MState pos s None) Some =
  match plain_link_at s with
  | Some (u, after) => Some (MState (pos + String.length u) after None)
  | None => None
  end.
Proof.
  unfold PLAIN_URL_RE, plain_link_at.
  rewrite rmatch_cat, rmatch_scheme. cbn [ms_rest ms_pos ms_grp].
  destruct (scheme_of s) as [sch|]; [|reflexivity].
  rewrite rmatch_plus_run.
  2:{ left. destruct (run_end _ _ _ _). eexists. reflexivity. }
  unfold run_end. cbn [ms_rest ms_pos ms_grp]. cbv zeta.
  destruct (nonempty _); [|reflexivity].
  rewrite length_app. do 2 f_equal. lia.
Qed.

End ReFacts.

(** ** [extract_urls] against the specification's reading *)

Module ExtractFacts.
Import Str StrFacts Re ReFacts.

Lemma take_while_app_cons p a c b :
  all p a = true -> p c = false ->
  take_while p (a +:+ String c b) = a /\ drop_while p (a +:+ String c b) = String c b.
Proof. intros Ha Hc. apply take_while_app; assumption. Qed.

Lemma slack_link_at_sound s u mid after :
  slack_link_at s = Some (u, mid, after) ->
  bracket_link_at s u after /\ s = "<" +:+ u +:+ mid +:+ ">" +:+ after.
Proof.
  unfold slack_link_at. intros H.
  destruct (starts_with "<" s) eqn:E0; [|discriminate].
  apply starts_with_inv in E0. cbn [String.length] in E0.
  remember (drop 1 s) as s1 eqn:Hs1. clear Hs1. subst s.
  destruct (scheme_of s1) as [sch|] eqn:Esch; [|discriminate].
  apply scheme_of_inv in Esch as [Hsch Esch].
  remember (drop (String.length sch) s1) as s2 eqn:Hs2. clear Hs2. subst s1.
  cbv zeta in H.
  pose proof (take_while_drop_while not_gt_pipe s2) as E2.
  pose proof (all_take_while not_gt_pipe s2) as Hbody.
  remember (take_while not_gt_pipe s2) as body eqn:Hb. clear Hb.
  remember (drop_while not_gt_pipe s2) as s3 eqn:Hs3. clear Hs3. subst s2.
  destruct (nonempty body) eqn:Hne; [|discriminate].
  apply nonempty_iff in Hne.
  destruct (starts_with ">" s3) eqn:E3.
  - apply starts_with_inv in E3. cbn [String.length] in E3.
    remember (drop 1 s3) as s4 eqn:Hs4. clear Hs4. subst s3.
    injection H as <- <- <-.
    rewrite <- (app_assoc sch body). split; [|reflexivity].
    apply BracketPlain; assumption.
  - destruct (starts_with "|" s3) eqn:E4; [|discriminate].
    apply starts_with_inv in E4. cbn [String.length] in E4.
    remember (drop 1 s3) as s4 eqn:Hs4. clear Hs4. subst s3.
    pose proof (take_while_drop_while not_gt s4) as E5.
    pose proof (all_take_while not_gt s4) as Hlab.
    remember (take_while not_gt s4) as label eqn:Hl. clear Hl.
    remember (drop_while not_gt s4) as s5 eqn:Hs5. clear Hs5. subst s4.
    destruct (starts_with ">" s5) eqn:E6; [|discriminate].
    apply starts_with_inv in E6. cbn [String.length] in E6.
    remember (drop 1 s5) as s6 eqn:Hs6. clear Hs6. subst s5.
    injection H as <- <- <-.
    rewrite <- (app_assoc sch body).
    split; [|rewrite (app_assoc "|" label); reflexivity].
    apply BracketLabel; assumption.
Qed.

Lemma slack_link_at_complete s u after :
  bracket_link_at s u after -> exists mid, slack_link_at s = Some (u, mid, after).
Proof.
  intros H. destruct H as [sch body after Hsch Hne Hbody
                          | sch body label after Hsch Hne Hbody Hlab];
    unfold slack_link_at; rewrite starts_with_app;
    change 1%nat with (String.length "<"); rewrite drop_app_length;
    rewrite app_assoc, (scheme_of_app sch _ Hsch), drop_app_length; cbv zeta.
  - change (">" +:+ after) with (String ">" after).
    destruct (take_while_app_cons not_gt_pipe body ">" after Hbody eq_refl) as [-> ->].
    apply nonempty_iff in Hne. rewrite Hne. exists "". reflexivity.
  - change ("|" +:+ label +:+ ">" +:+ after) with (String "|" (label +:+ ">" +:+ after)).
    destruct (take_while_app_cons not_gt_pipe body "|" (label +:+ ">" +:+ after)
                Hbody eq_refl) as [-> ->].
    apply nonempty_iff in Hne. rewrite Hne.
    change (starts_with ">" (String "|" (label +:+ ">" +:+ after))) with false.
    change (starts_with "|" (String "|" (label +:+ ">" +:+ after))) with true.
    change (drop (String.length "<") (String "|" (label +:+ ">" +:+ after)))
      with (label +:+ ">" +:+ after).
    change (">" +:+ after) with (String ">" after).
    destruct (take_while_app_cons not_gt label ">" after Hlab eq_refl) as [-> ->].
    exists ("|" +:+ label). reflexivity.
Qed.


Lemma match_at_slack pos s :
  match_at SLACK_URL_RE pos s =
  match slack_link_at s with
  | Some (u, mid, after) => Some (Match pos ("<" +:+ u +:+ mid +:+ ">") (Some u) after)
  | None => None
  end.
Proof.
  unfold match_at. rewrite rmatch_slack.
  destruct (slack_link_at s) as [[[u mid] after]|] eqn:E; [|reflexivity].
  apply slack_link_at_sound in E as [_ E]. cbn [ms_pos ms_grp ms_rest].
  do 2 f_equal.
  replace (pos + (2 + String.length u + String.length mid) - pos)%nat
    with (String.length ("<" +:+ u +:+ mid +:+ ">"))
    by (rewrite !length_app; cbn [String.length]; lia).
  rewrite E at 1.
  replace ("<" +:+ u +:+ mid +:+ ">" +:+ after)
    with (("<" +:+ u +:+ mid +:+ ">") +:+ after)
    by (rewrite !app_assoc; reflexivity).
  apply take_app_length.
Qed.

Lemma plain_link_at_sound s u after :
  plain_link_at s = Some (u, after) -> bare_link_at s u after /\ s = u +:+ after.
Proof.
  unfold plain_link_at. intros H.
  destruct (scheme_of s) as [sch|] eqn:Esch; [|discriminate].
  apply scheme_of_inv in Esch as [Hsch Esch].
  remember (drop (String.length sch) s) as s2 eqn:Hs2. clear Hs2. subst s.
  cbv zeta in H.
  pose proof (take_while_drop_while bare_url_char s2) as E2.
  pose proof (all_take_while bare_url_char s2) as Hbody.
  assert (Hstop : match drop_while bare_url_char s2 with
                  | String c _ => bare_url_char c = false
                  | "" => True
                  end).
  { destruct (drop_while bare_url_char s2) as [|c t] eqn:E; [exact I|].
    eapply drop_while_stops, E. }
  remember (take_while bare_url_char s2) as body eqn:Hb. clear Hb.
  remember (drop_while bare_url_char s2) as s3 eqn:Hs3. clear Hs3. subst s2.
  destruct (nonempty body) eqn:Hne; [|discriminate].
  apply nonempty_iff in Hne. injection H as <- <-.
  rewrite <- app_assoc. split; [|reflexivity].
  apply BareLink; assumption.
Qed.

Lemma plain_link_at_complete s u after :
  bare_link_at s u after -> plain_link_at s = Some (u, after).
Proof.
  intros H. destruct H as [sch body after Hsch Hne Hbody Hstop]. unfold plain_link_at.
  rewrite app_assoc, (scheme_of_app sch _ Hsch), drop_app_length. cbv zeta.
  destruct (take_while_app bare_url_char body after Hbody Hstop) as [-> ->].
  apply nonempty_iff in Hne. rewrite Hne. reflexivity.
Qed.


Lemma match_at_plain pos s :
  match_at PLAIN_URL_RE pos s =
  match plain_link_at s with
  | Some (u, after) => Some (Match pos u None after)
  | None => None
  end.
Proof.
  unfold match_at. rewrite rmatch_plain.
  destruct (plain_link_at s) as [[u after]|] eqn:E; [|reflexivity].
  apply plain_link_at_sound in E as [_ E]. cbn [ms_pos ms_grp ms_rest].
  do 2 f_equal.
  replace (pos + String.length u - pos)%nat with (String.length u) by lia.
  rewrite E. apply take_app_length.
Qed.

Lemma bracket_link_at_nonempty s u after :
  bracket_link_at s u after -> (String.length after < String.length s)%nat.
Proof.
  intros H. apply slack_link_at_complete in H as [mid H].
  apply slack_link_at_sound in H as [_ ->].
  rewrite !length_app. cbn [String.length]. lia.
Qed.

Lemma bare_link_at_nonempty s u after :
  bare_link_at s u after ->
  u <> "" /\ (String.length after < String.length s)%nat.
Proof.
  intros H. destruct H as [sch body after [-> | ->] Hne _ _]; rewrite !length_app;
    cbn [String.length]; (split; [discriminate|lia]).
Qed.

(** The scan over the Slack pattern yields the bracket links of the text. *)
Lemma scan_slack fuel : forall pos s,
  (String.length s < fuel)%nat ->
  bracket_links s (omap m_group (scan fuel SLACK_URL_RE pos s)).
Proof.
  induction fuel as [|fuel IH]; intros pos s Hlen; [lia|].
  cbn [scan]. rewrite match_at_slack.
  destruct (slack_link_at s) as [[[u mid] after]|] eqn:E.
  - apply slack_link_at_sound in E as [Hat _].
    pose proof (bracket_link_at_nonempty _ _ _ Hat) as Hlt.
    cbn [m_text m_after]. rewrite app_cons, app_nil_l. cbn [omap list_omap m_group].
    eapply BracketsHit; [exact Hat|]. apply IH. lia.
  - assert (Hno : forall u after, ~ bracket_link_at s u after).
    { intros u after H. apply slack_link_at_complete in H as [mid H]. congruence. }
    destruct s as [|c t]; [constructor|].
    apply BracketsSkip; [exact Hno|]. apply IH. cbn [String.length] in Hlen. lia.
Qed.

Lemma scan_plain fuel : forall pos s,
  (String.length s < fuel)%nat ->
  bare_links s (map m_text (scan fuel PLAIN_URL_RE pos s)).
Proof.
  induction fuel as [|fuel IH]; intros pos s Hlen; [lia|].
  cbn [scan]. rewrite match_at_plain.
  destruct (plain_link_at s) as [[u after]|] eqn:E.
  - apply plain_link_at_sound in E as [Hat _].
    destruct (bare_link_at_nonempty _ _ _ Hat) as [Hne Hlt].
    cbn [m_text m_after]. destruct u as [|c u]; [congruence|]. cbn [map m_text].
    eapply BareHit; [exact Hat|]. apply IH. lia.
  - assert (Hno : forall u after, ~ bare_link_at s u after).
    { intros u after H. apply plain_link_at_complete in H. congruence. }
    destruct s as [|c t]; [constructor|].
    apply BareSkip; [exact Hno|]. apply IH. cbn [String.length] in Hlen. lia.
Qed.

Lemma bracket_links_findall text :
  bracket_links text (findall_group SLACK_URL_RE text).
Proof. apply scan_slack. lia. Qed.

Lemma bare_links_findall text : bare_links text (findall PLAIN_URL_RE text).
Proof. apply scan_plain. lia. Qed.





End ExtractFacts.

Example extract_urls_ex1 :
  extract_urls "see <https://a.io/j|the job> and <http://b.co> http://c.d" =
  ["https://a.io/j"; "http://b.co"].
Proof. vm_compute. reflexivity. Qed.

Example extract_urls_ex2 :
  extract_urls "see https://a.io/j, and http://b.co/x>y" =
  ["https://a.io/j,"; "http://b.co/x"].
Proof. vm_compute. reflexivity. Qed.



(** ** The calendar *)

Module CalendarFacts.
Import Calendar.

Lemma all_from_spec f n : forall z,
  all_from n z f = true -> forall k, z <= k < z + Z.of_nat n -> f k = true.
Proof.
  induction n as [|n IH]; intros z H k Hk; [lia|].
  cbn [all_from] in H. destruct (f z) eqn:E; [|discriminate].
  destruct (Z.eq_dec k z) as [->|Hne]; [exact E|].
  apply (IH (z + 1) H). lia.
Qed.

Lemma doy_checked : all_from 366 0 doy_ok = true.
Proof. vm_compute. reflexivity. Qed.

Lemma is_leap_spec y :
  is_leap y = true <-> y mod 4 = 0 /\ (y mod 100 <> 0 \/ y mod 400 = 0).
Proof.
  unfold is_leap.
  rewrite andb_true_iff, orb_true_iff, negb_true_iff, !Z.eqb_eq, Z.eqb_neq.
  reflexivity.
Qed.

(** The twelve months, one by one. *)
Ltac month_cases m :=
  let H := fresh in
  assert (H : m = 1 \/ m = 2 \/ m = 3 \/ m = 4 \/ m = 5 \/ m = 6 \/ m = 7
              \/ m = 8 \/ m = 9 \/ m = 10 \/ m = 11 \/ m = 12) by lia;
  decompose [or] H; clear H; subst m.

Lemma validb_spec d :
  validb d = true <->
  1 <= month d <= 12 /\ 1 <= day d <= days_in_month (year d) (month d).
Proof. unfold validb. rewrite !andb_true_iff, !Z.leb_le. lia. Qed.

Lemma days_before_year_succ y :
  days_before_year (y + 1) = days_before_year y + 365 + (if is_leap y then 1 else 0).
Proof.
  unfold days_before_year. cbv zeta.
  destruct (is_leap y) eqn:E.
  - apply is_leap_spec in E. Z.div_mod_to_equations; lia.
  - assert (Hn : ~ (y mod 4 = 0 /\ (y mod 100 <> 0 \/ y mod 400 = 0))).
    { intros F. apply is_leap_spec in F. congruence. }
    Z.div_mod_to_equations; lia.
Qed.

Lemma days_before_year_mono y1 y2 : y1 <= y2 -> days_before_year y1 <= days_before_year y2.
Proof. unfold days_before_year. cbv zeta. intros H. Z.div_mod_to_equations; lia. Qed.

(** The day of the year of a date of the calendar. *)
Lemma day_of_year_bounds y m d :
  1 <= m <= 12 -> 1 <= d <= days_in_month y m ->
  1 <= days_before_month y m + d <= 365 + (if is_leap y then 1 else 0).
Proof.
  intros Hm Hd. unfold days_before_month, days_in_month in *.
  month_cases m; cbn -[Z.add Z.sub is_leap] in *; destruct (is_leap y);
    cbn -[Z.add Z.sub] in *; lia.
Qed.

Lemma day_of_year_inj y m1 d1 m2 d2 :
  1 <= m1 <= 12 -> 1 <= d1 <= days_in_month y m1 ->
  1 <= m2 <= 12 -> 1 <= d2 <= days_in_month y m2 ->
  days_before_month y m1 + d1 = days_before_month y m2 + d2 ->
  m1 = m2 /\ d1 = d2.
Proof.
  intros Hm1 Hd1 Hm2 Hd2. unfold days_before_month, days_in_month in *.
  month_cases m1; month_cases m2; cbn -[Z.add Z.sub is_leap] in *;
    destruct (is_leap y); cbn -[Z.add Z.sub] in *; lia.
Qed.

(** Two dates of the calendar with the same day count are the same. *)
Lemma to_days_inj d1 d2 :
  valid d1 -> valid d2 -> to_days d1 = to_days d2 -> d1 = d2.
Proof.
  destruct d1 as [y1 m1 a1], d2 as [y2 m2 a2].
  unfold valid. rewrite !validb_spec. unfold to_days. cbn [year month day].
  intros [Hm1 Hd1] [Hm2 Hd2] E.
  pose proof (day_of_year_bounds y1 m1 a1 Hm1 Hd1) as B1.
  pose proof (day_of_year_bounds y2 m2 a2 Hm2 Hd2) as B2.
  pose proof (days_before_year_succ y1) as S1.
  pose proof (days_before_year_succ y2) as S2.
  assert (Hy : y1 = y2).
  { destruct (Z.lt_trichotomy y1 y2) as [Hlt|[Heq|Hgt]]; [|exact Heq|].
    - pose proof (days_before_year_mono (y1 + 1) y2 ltac:(lia)). lia.
    - pose proof (days_before_year_mono (y2 + 1) y1 ltac:(lia)). lia. }
  subst y2.
  destruct (day_of_year_inj y1 m1 a1 m2 a2 Hm1 Hd1 Hm2 Hd2 ltac:(lia)) as [-> ->].
  reflexivity.
Qed.
(** Within an era [civil_of_doe] yields a date of the calendar with the
    right day count (day 0 of the era is 0000-03-01, 719468 days before
    1970-01-01). *)
Lemma civil_of_doe_ok doe :
  0 <= doe < 146097 ->
  valid (civil_of_doe doe) /\ to_days (civil_of_doe doe) = doe - 719468.
Proof.
  intros H. unfold valid, civil_of_doe. cbv zeta.
  set (yoe := (doe - doe / 1460 + doe / 36524 - doe / 146096) / 365).
  set (doy := doe - (365 * yoe + yoe / 4 - yoe / 100)).
  assert (Hyoe : 0 <= yoe <= 399) by (unfold yoe; Z.div_mod_to_equations; lia).
  assert (Hdoy : 0 <= doy <= 365) by (unfold doy, yoe; Z.div_mod_to_equations; lia).
  assert (Hleap : doy = 365 -> is_leap (yoe + 1) = true).
  { intros E. apply is_leap_spec. unfold doy, yoe in *. Z.div_mod_to_equations; lia. }
  pose proof (all_from_spec doy_ok _ 0 doy_checked doy ltac:(lia)) as Hok.
  unfold doy_ok in Hok. cbv zeta in Hok.
  destruct (month_day_of_doy doy) as [m d]. cbn [fst snd] in *.
  rewrite !andb_true_iff, orb_true_iff, !andb_true_iff, !Z.leb_le, !Z.eqb_eq in Hok.
  destruct Hok as ((((Hm1 & Hm2) & Hd1) & Hd2) & Hoff).
  unfold march_offset in Hoff.
  unfold validb, to_days, days_before_year, days_before_month, days_in_month.
  cbn [year month day]. cbv zeta.
  rewrite !andb_true_iff, !Z.leb_le.
  destruct (m <=? 2) eqn:Em; [apply Z.leb_le in Em|apply Z.leb_gt in Em].
  - (* January or February of the following year *)
    replace (2 <? m) with false by (symmetry; apply Z.ltb_ge; lia). cbn [andb].
    split.
    + repeat split; try lia.
      destruct ((m =? 2) && is_leap (yoe + 1)) eqn:E.
      * apply andb_prop in E as [E _]. apply Z.eqb_eq in E.
        destruct Hd2 as [Hd2|Hd2]; [subst m; cbn in Hd2|]; lia.
      * destruct Hd2 as [Hd2|[[Hd Hm] Hd29]]; [exact Hd2|].
        rewrite (Hleap Hd) in E. subst m. cbn in E. discriminate.
    + unfold doy in Hoff. Z.div_mod_to_equations; lia.
  - (* March to December *)
    replace (2 <? m) with true by (symmetry; apply Z.ltb_lt; lia). cbn [andb].
    replace (m =? 2) with false by (symmetry; apply Z.eqb_neq; lia). cbn [andb].
    split.
    + repeat split; try lia; destruct Hd2 as [Hd2|[[Hd Hm] Hd29]]; lia.
    + destruct (is_leap yoe) eqn:El.
      * apply is_leap_spec in El. unfold doy in Hoff. Z.div_mod_to_equations; lia.
      * assert (Hn : ~ (yoe mod 4 = 0 /\ (yoe mod 100 <> 0 \/ yoe mod 400 = 0))).
        { intros F. apply is_leap_spec in F. congruence. }
        unfold doy in Hoff. Z.div_mod_to_equations; lia.
Qed.

Lemma is_leap_era y e : is_leap (y + e * 400) = is_leap y.
Proof.
  unfold is_leap.
  replace ((y + e * 400) mod 4) with (y mod 4)
    by (replace (y + e * 400) with (y + (e * 100) * 4) by lia;
        rewrite Z.mod_add by lia; reflexivity).
  replace ((y + e * 400) mod 100) with (y mod 100)
    by (replace (y + e * 400) with (y + (e * 4) * 100) by lia;
        rewrite Z.mod_add by lia; reflexivity).
  rewrite Z.mod_add by lia. reflexivity.
Qed.

Lemma days_before_year_era y e :
  days_before_year (y + e * 400) = days_before_year y + e * 146097.
Proof.
  unfold days_before_year. cbv zeta.
  replace (y + e * 400 - 1) with (y - 1 + e * 400) by lia.
  replace ((y - 1 + e * 400) / 4) with ((y - 1) / 4 + e * 100)
    by (replace (y - 1 + e * 400) with (y - 1 + (e * 100) * 4) by lia;
        rewrite Z.div_add by lia; reflexivity).
  replace ((y - 1 + e * 400) / 100) with ((y - 1) / 100 + e * 4)
    by (replace (y - 1 + e * 400) with (y - 1 + (e * 4) * 100) by lia;
        rewrite Z.div_add by lia; reflexivity).
  rewrite Z.div_add by lia. lia.
Qed.

Lemma to_days_era y m d e :
  to_days (Date (y + e * 400) m d) = to_days (Date y m d) + e * 146097.
Proof.
  unfold to_days, days_before_month. cbn [year month day].
  rewrite days_before_year_era, is_leap_era. lia.
Qed.

Lemma validb_era y m d e : validb (Date (y + e * 400) m d) = validb (Date y m d).
Proof.
  unfold validb, days_in_month. cbn [year month day].
  rewrite is_leap_era. reflexivity.
Qed.

(** [of_days] inverts the day count: it yields a date of the calendar,
    and that date lies [z] days from 1970-01-01. *)
Lemma of_days_correct z : valid (of_days z) /\ to_days (of_days z) = z.
Proof.
  unfold of_days. cbv zeta.
  pose proof (Z.mod_pos_bound (z + 719468) 146097 ltac:(lia)) as Hb.
  pose proof (Z.div_mod (z + 719468) 146097 ltac:(lia)) as Hdm.
  destruct (civil_of_doe_ok _ Hb) as [Hv Hd].
  destruct (civil_of_doe ((z + 719468) mod 146097)) as [y m d].
  cbn [year month day]. unfold valid in *.
  rewrite validb_era, to_days_era, Hd. split; [exact Hv|]. lia.
Qed.

(** [of_days z] is the only date of the calendar [z] days from the epoch. *)
Lemma of_days_unique z d : valid d -> to_days d = z -> d = of_days z.
Proof.
  intros Hv Hd. destruct (of_days_correct z) as [Hv' Hd'].
  apply to_days_inj; [exact Hv|exact Hv'|congruence].
Qed.

End CalendarFacts.

(** ** [decode_linkedin_activity_date] *)

Module DecodeFacts.
Import Str StrFacts Re ReFacts.

Lemma rmatch_cls p st k :
  rmatch (Cls p) st k =
  match ms_rest st with
  | String c t => if p c then k (MState (S (ms_pos st)) t (ms_grp st)) else None
  | "" => None
  end.
Proof. reflexivity. Qed.

Lemma take_take_while p t :
  take (String.length (take_while p t)) t = take_while p t.
Proof.
  induction t as [|c t IH]; [reflexivity|]. cbn [take_while].
  destruct (p c); [|reflexivity]. rewrite length_cons. cbn [take]. rewrite IH.
  reflexivity.
Qed.

Lemma rmatch_activity pos s :
  rmatch ACTIVITY_RE (MState pos s None) Some =
  match activity_at s with
  | Some (digits, after) =>
      Some (MState (pos + 9 + String.length digits) after (Some digits))
  | None => None
  end.
Proof.
  unfold ACTIVITY_RE, activity_at.
  rewrite rmatch_cat, rmatch_lit. cbn [ms_rest ms_pos ms_grp String.length].
  destruct (starts_with "activity" s); [|reflexivity].
  rewrite rmatch_cat, rmatch_cls. cbn [ms_rest ms_pos ms_grp].
  destruct (drop 8 s) as [|c t]; [reflexivity|].
  destruct (colon_or_dash c); [|reflexivity].
  rewrite rmatch_grp, rmatch_plus_run.
  2:{ left. eexists. reflexivity. }
  unfold run_end. cbn [ms_rest ms_pos ms_grp].
  destruct (nonempty (take_while isdigit t)); [|reflexivity].
  replace (S (pos + 8) + String.length (take_while isdigit t) - S (pos + 8))%nat
    with (String.length (take_while isdigit t)) by lia.
  rewrite take_take_while. do 2 f_equal. lia.
Qed.

Lemma activity_at_sound s digits after :
  activity_at s = Some (digits, after) -> activity_id_at s digits.
Proof.
  unfold activity_at. intros H.
  destruct (starts_with "activity" s) eqn:E0; [|discriminate].
  apply starts_with_inv in E0. cbn [String.length] in E0.
  destruct (drop 8 s) as [|c t]; [discriminate|].
  destruct (colon_or_dash c) eqn:Ec; [|discriminate].
  destruct (nonempty (take_while isdigit t)) eqn:Hne; [|discriminate].
  injection H as <- <-. apply nonempty_iff in Hne.
  pose proof (take_while_drop_while isdigit t) as E2.
  pose proof (all_take_while isdigit t) as Hall.
  assert (Hstop : match drop_while isdigit t with
                  | String x _ => isdigit x = false
                  | "" => True
                  end).
  { destruct (drop_while isdigit t) as [|x r] eqn:E; [exact I|].
    eapply drop_while_stops, E. }
  remember (take_while isdigit t) as digits eqn:Hd. clear Hd.
  remember (drop_while isdigit t) as rest eqn:Hr. clear Hr. subst t s.
  rewrite <- app_cons. apply ActivityIdAt; assumption.
Qed.

Lemma activity_at_complete s digits :
  activity_id_at s digits -> exists after, activity_at s = Some (digits, after).
Proof.
  intros H. destruct H as [sep digits rest Hsep Hne Hall Hstop].
  unfold activity_at. rewrite starts_with_app.
  change 8%nat with (String.length "activity"). rewrite drop_app_length.
  rewrite app_cons, Hsep.
  destruct (take_while_app isdigit digits rest Hall Hstop) as [-> ->].
  apply nonempty_iff in Hne. rewrite Hne. eexists. reflexivity.
Qed.

Lemma match_at_activity pos s :
  match match_at ACTIVITY_RE pos s with
  | Some m => exists digits, m_group m = Some digits /\ activity_id_at s digits
  | None => forall digits, ~ activity_id_at s digits
  end.
Proof.
  unfold match_at. rewrite rmatch_activity.
  destruct (activity_at s) as [[digits after]|] eqn:E.
  - exists digits. split; [reflexivity|]. eapply activity_at_sound, E.
  - intros digits H. apply activity_at_complete in H as [after H]. congruence.
Qed.

Lemma activity_id_at_fun s d1 d2 :
  activity_id_at s d1 -> activity_id_at s d2 -> d1 = d2.
Proof.
  intros H1 H2.
  apply activity_at_complete in H1 as [a1 H1].
  apply activity_at_complete in H2 as [a2 H2]. congruence.
Qed.

(** [re.search] finds the leftmost identifier. *)
Lemma search_first url digits :
  first_activity_id url digits ->
  forall pos, exists m,
    search_from ACTIVITY_RE pos url = Some m /\ m_group m = Some digits.
Proof.
  induction 1 as [url digits Hat|c url digits Hno _ IH]; intros pos.
  - pose proof (match_at_activity pos url) as Hm.
    assert (Hs : exists m, match_at ACTIVITY_RE pos url = Some m /\
                           m_group m = Some digits).
    { destruct (match_at ACTIVITY_RE pos url) as [m|].
      - destruct Hm as (d & Hg & Hd). exists m. split; [reflexivity|].
        rewrite Hg. f_equal. eapply activity_id_at_fun; eassumption.
      - exfalso. eapply Hm, Hat. }
    destruct Hs as (m & Hs & Hg). exists m. split; [|exact Hg].
    destruct url; cbn [search_from]; rewrite Hs; reflexivity.
  - cbn [search_from]. pose proof (match_at_activity pos (String c url)) as Hm.
    destruct (match_at ACTIVITY_RE pos (String c url)) as [m|].
    + destruct Hm as (d & _ & Hd). exfalso. eapply Hno, Hd.
    + apply IH.
Qed.

Lemma activity_id_at_has s digits : activity_id_at s digits -> has_activity_id s.
Proof.
  intros H. destruct H as [sep digits rest Hsep Hne Hall _].
  destruct digits as [|d ds]; [congruence|].
  cbn [all] in Hall. apply andb_prop in Hall as [Hd _].
  exists "", sep, d, (ds +:+ rest). repeat split; assumption.
Qed.

Lemma has_activity_id_tail c s : has_activity_id s -> has_activity_id (String c s).
Proof.
  intros (a & sep & d & b & Hsep & Hd & ->).
  exists (String c a), sep, d, b. repeat split; assumption.
Qed.

Lemma search_none url :
  ~ has_activity_id url -> forall pos, search_from ACTIVITY_RE pos url = None.
Proof.
  induction url as [|c url IH]; intros Hno pos; cbn [search_from].
  - pose proof (match_at_activity pos "") as Hm.
    destruct (match_at ACTIVITY_RE pos "") as [m|]; [|reflexivity].
    destruct Hm as (d & _ & Hd). exfalso. eapply Hno, activity_id_at_has, Hd.
  - pose proof (match_at_activity pos (String c url)) as Hm.
    destruct (match_at ACTIVITY_RE pos (String c url)) as [m|].
    + destruct Hm as (d & _ & Hd). exfalso. eapply Hno, activity_id_at_has, Hd.
    + apply IH. intros H. apply Hno, has_activity_id_tail, H.
Qed.

(** A URL that contains an identifier has a leftmost one. *)
Lemma has_activity_id_first url :
  has_activity_id url -> exists digits, first_activity_id url digits.
Proof.
  induction url as [|c url IH]; intros (a & sep & d & b & Hsep & Hd & E).
  - destruct a; discriminate E.
  - destruct (activity_at (String c url)) as [[digits after]|] eqn:Eat.
    + exists digits. apply ActivityHere. eapply activity_at_sound, Eat.
    + assert (Hno : forall x, ~ activity_id_at (String c url) x).
      { intros x Hx. apply activity_at_complete in Hx as [y Hx]. congruence. }
      destruct a as [|c' a].
      * exfalso. rewrite app_nil_l in E. revert Eat. rewrite E.
        unfold activity_at. rewrite (starts_with_app "activity").
        change 8%nat with (String.length "activity"). rewrite drop_app_length.
        rewrite Hsep. cbn [take_while]. rewrite Hd. cbn [nonempty]. discriminate.
      * rewrite app_cons in E. injection E as -> ->.
        destruct IH as [digits H].
        { exists a, sep, d, b. repeat split; assumption. }
        exists digits. apply ActivityLater; assumption.
Qed.

End DecodeFacts.

Example decode_linkedin_activity_date_ex :
  decode_linkedin_activity_date
    "https://www.linkedin.com/posts/jane_hiring-activity-7020656157437648896-AbCd"
  = Ok (Some "2023-01-16").
Proof. vm_compute. reflexivity. Qed.

(** What the decoder does within the limits of [int] and [datetime].
    When a URL holds an activity identifier, the leftmost one with its full
    digit string of at most 4300 digits denoting X, and X shifted right by
    22 bits lies below 253402300800000 milliseconds (dates up to
    9999-12-31), the decoder returns, formatted, the one date of the
    calendar that lies floor((X >> 22) / 86400000) days after 1970-01-01,
    which is the UTC date of (X >> 22) milliseconds since the epoch.  A URL
    that contains an identifier has a leftmost one; a URL without any gives
    absent. *)
Lemma decode_linkedin_activity_date_spec (url : string) :
  (forall digits,
     first_activity_id url digits ->
     (String.length digits <= INT_MAX_STR_DIGITS)%nat ->
     Z.shiftr (int_of_digits digits) 22 < MAX_TIMESTAMP_MS ->
     exists d, Calendar.valid d /\
       Calendar.to_days d = Z.shiftr (int_of_digits digits) 22 / 86400000 /\
       (forall d', Calendar.valid d' ->
                   Calendar.to_days d' = Z.shiftr (int_of_digits digits) 22 / 86400000 ->
                   d' = d) /\
       decode_linkedin_activity_date url = Ok (Some (Calendar.strftime_ymd d))) /\
  (has_activity_id url -> exists digits, first_activity_id url digits) /\
  (~ has_activity_id url -> decode_linkedin_activity_date url = Ok None).
Proof.
  split; [|split].
  - intros digits Hfirst Hlen Hrange.
    destruct (DecodeFacts.search_first url digits Hfirst 0%nat) as (m & Hs & Hg).
    exists (Calendar.of_days (Z.shiftr (int_of_digits digits) 22 / 86400000)).
    destruct (CalendarFacts.of_days_correct
                (Z.shiftr (int_of_digits digits) 22 / 86400000)) as [Hv Hd].
    split; [exact Hv|]. split; [exact Hd|].
    split; [intros d' Hv' Hd'; apply CalendarFacts.of_days_unique; assumption|].
    unfold decode_linkedin_activity_date, Re.search. rewrite Hs, Hg.
    cbn [default from_option id]. unfold py_int.
    apply Nat.leb_le in Hlen. rewrite Hlen.
    cbv zeta. unfold datetime_fromtimestamp_ms, id.
    apply Z.ltb_lt in Hrange. rewrite Hrange. reflexivity.
  - apply DecodeFacts.has_activity_id_first.
  - intros Hno. unfold decode_linkedin_activity_date, Re.search.
    rewrite DecodeFacts.search_none by exact Hno. reflexivity.
Qed.

(** The raises that the decoder lets through, each for the leftmost
    identifier of the URL: [ValueError] from [int] for more than 4300
    digits, and the error of [datetime] from year 10000 on. *)
Lemma decode_linkedin_activity_date_raise_cases (url digits : string) :
  first_activity_id url digits ->
  ((INT_MAX_STR_DIGITS < String.length digits)%nat ->
   decode_linkedin_activity_date url = Raise ValueError) /\
  ((String.length digits <= INT_MAX_STR_DIGITS)%nat ->
   MAX_TIMESTAMP_MS <= Z.shiftr (int_of_digits digits) 22 ->
   decode_linkedin_activity_date url = Raise DateRangeError).
Proof.
  intros Hfirst.
  destruct (DecodeFacts.search_first url digits Hfirst 0%nat) as (m & Hs & Hg).
  unfold decode_linkedin_activity_date, Re.search. rewrite Hs, Hg.
  cbn [default from_option id]. unfold py_int, id. split.
  - intros Hlen. apply Nat.leb_gt in Hlen. rewrite Hlen. reflexivity.
  - intros Hlen Hrange. apply Nat.leb_le in Hlen. rewrite Hlen. cbv zeta.
    unfold datetime_fromtimestamp_ms. apply Z.ltb_ge in Hrange. rewrite Hrange.
    reflexivity.
Qed.

(** C5.  The decoder raises where the claim has it return a date.  A URL
    with an activity identifier of 22 digits, whose instant lies in the year
    10000, makes [datetime] raise; a URL whose identifier is 4301 zeros, the
    integer 0 and so the date 1970-01-01, makes [int] raise.  Nothing
    catches either: the exception leaves [decode_linkedin_activity_date]. *)
Theorem decode_linkedin_activity_date_raises :
  (has_activity_id "https://www.linkedin.com/feed/update/urn:li:activity:1062849512059437056000" /\
   decode_linkedin_activity_date
     "https://www.linkedin.com/feed/update/urn:li:activity:1062849512059437056000"
   = Raise DateRangeError) /\
  (has_activity_id ("https://www.linkedin.com/feed/update/urn:li:activity:" +:+ zeros 4301) /\
   int_of_digits (zeros 4301) = 0 /\
   decode_linkedin_activity_date
     ("https://www.linkedin.com/feed/update/urn:li:activity:" +:+ zeros 4301)
   = Raise ValueError).
Proof.
  split; split.
  - exists "https://www.linkedin.com/feed/update/urn:li:", ":"%char, "1"%char,
           "062849512059437056000".
    repeat split.
  - vm_compute. reflexivity.
  - exists "https://www.linkedin.com/feed/update/urn:li:", ":"%char, "0"%char,
           (zeros 4300).
    repeat split.
  - split; vm_compute; reflexivity.
Qed.

(** ** Running effectful code *)

Ltac run_m :=
  unfold bind, try_except, ret, raise, log, emit, clock, get_pages, add_page,
    post_slack_reaction, save_last_processed_ts in *;
  cbn [fst snd w_file w_pages w_trace] in *.

(** ** [fetch_page_content] *)

Lemma length_take_le n s : (String.length (Str.take n s) <= n)%nat.
Proof.
  revert s. induction n as [|n IH]; intros [|c s]; cbn [Str.take String.length]; try lia.
  specialize (IH s). lia.
Qed.



(** ** URL categorization *)

Lemma categorize_from urls : forall li jobs,
  fold_left categorize_step urls (li, jobs) =
  (match last (List.filter is_linkedin_post urls) with
   | Some u => Some u
   | None => li
   end,
   jobs ++ List.filter (fun u => negb (is_linkedin_post u)) urls).
Proof.
  induction urls as [|u urls IH]; intros li jobs; cbn [fold_left List.filter].
  - rewrite app_nil_r. reflexivity.
  - unfold categorize_step at 2. cbn [fst snd].
    destruct (is_linkedin_post u) eqn:E; cbn [negb]; rewrite IH.
    + rewrite last_cons.
      destruct (last (List.filter is_linkedin_post urls)); reflexivity.
    + rewrite <- app_assoc. reflexivity.
Qed.

(** C2 (as amended).  Of the URLs of a message that have the social-post
    shape, exactly one is kept as the post URL when there is any: the last
    one in the list.  Every URL without that shape goes to the direct-job
    list, in order, and no other URL does. *)
Theorem categorize_keeps_last (urls : list string) :
  categorize urls =
  (last (List.filter is_linkedin_post urls),
   List.filter (fun u => negb (is_linkedin_post u)) urls).
Proof.
  unfold categorize. rewrite categorize_from.
  destruct (last (List.filter is_linkedin_post urls)); reflexivity.
Qed.

(** C2 as stated fails: of two post URLs the second, not the first, is
    kept. *)
Lemma categorize_drops_first_post :
  categorize [ "https://www.linkedin.com/posts/ann_one";
               "https://www.linkedin.com/posts/bob_two" ]
  = (Some "https://www.linkedin.com/posts/bob_two", []).
Proof. vm_compute. reflexivity. Qed.

(** ** [create_notion_entry] *)

Lemma add_text_properties_other key mappings : forall props,
  Forall (fun pv => fst pv <> key) mappings ->
  add_text_properties mappings props !! key = props !! key.
Proof.
  unfold add_text_properties.
  induction mappings as [|[k v] mappings IH]; intros props Hne; [reflexivity|].
  inversion Hne as [|? ? Hk Hrest]; subst. cbn [fold_left fst snd] in *.
  rewrite IH by exact Hrest.
  destruct (truthy v); [|reflexivity]. apply lookup_insert_ne. exact Hk.
Qed.

(** The Job Type property is set exactly when the looked up [job_type] is
    one of the two recognized names. *)
Lemma build_properties_job_type details source job_listed_date :
  build_properties details source job_listed_date !! "Job Type" =
  let job_type := dict_get_default details "job_type" (JStr "Full-time") in
  if json_eq_str job_type "Full-time" || json_eq_str job_type "Part-time"
  then Some (PSelect job_type)
  else None.
Proof.
  unfold build_properties. cbv zeta.
  set (base := add_text_properties _ _).
  assert (Hbase : base !! "Job Type" = None).
  { unfold base. rewrite add_text_properties_other.
    - apply lookup_singleton_ne. discriminate.
    - repeat constructor; discriminate. }
  set (with_link := if truthy (dict_get details "link_to_apply") then _ else base).
  assert (Hlink : with_link !! "Job Type" = None).
  { unfold with_link. destruct (truthy _); [|exact Hbase].
    rewrite lookup_insert_ne by discriminate. exact Hbase. }
  set (jt := dict_get_default details "job_type" (JStr "Full-time")).
  destruct (json_eq_str jt "Full-time" || json_eq_str jt "Part-time");
    destruct (truthy job_listed_date);
    rewrite ?(lookup_insert_ne _ "Job Listed Date" "Job Type") by discriminate;
    rewrite ?lookup_insert_eq; try reflexivity; exact Hlink.
Qed.

(** The Link to Apply property is the apply-link, when there is one. *)
Lemma build_properties_link details source job_listed_date :
  build_properties details source job_listed_date !! "Link to Apply" =
  if truthy (dict_get details "link_to_apply")
  then Some (PUrl (dict_get details "link_to_apply"))
  else None.
Proof.
  unfold build_properties. cbv zeta.
  set (base := add_text_properties _ _).
  assert (Hbase : base !! "Link to Apply" = None).
  { unfold base. rewrite add_text_properties_other.
    - apply lookup_singleton_ne. discriminate.
    - repeat constructor; discriminate. }
  set (jt := dict_get_default details "job_type" (JStr "Full-time")).
  destruct (json_eq_str jt "Full-time" || json_eq_str jt "Part-time");
    destruct (truthy job_listed_date);
    rewrite ?(lookup_insert_ne _ "Job Listed Date" "Link to Apply") by discriminate;
    rewrite ?(lookup_insert_ne _ "Job Type" "Link to Apply") by discriminate;
    destruct (truthy (dict_get details "link_to_apply"));
    rewrite ?lookup_insert_eq; try reflexivity; exact Hbase.
Qed.

(** What one call of [create_notion_entry] does, case by case. *)
Lemma create_notion_entry_cases e details source job_listed_date w :
  let link := dict_get details "link_to_apply" in
  let props := build_properties details source job_listed_date in
  let q := notion_query e (length (w_trace w)) (w_pages w) link in
  (truthy link = true /\ q = Some true /\
   create_notion_entry e details source job_listed_date w =
   (Ok false, World (w_file w) (w_pages w)
                    (w_trace w ++ [ENotionQuery link; ELog INFO (LDuplicate link)]))) \/
  (exists pre n,
     (truthy link = false /\ pre = [] \/
      truthy link = true /\ q = Some false /\ pre = [ENotionQuery link] \/
      truthy link = true /\ q = None /\
        pre = [ENotionQuery link; ELog WARNING LDedupFailed]) /\
     n = length (w_trace w ++ pre) /\
     (notion_create e n props = true /\
      create_notion_entry e details source job_listed_date w =
      (Ok true, World (w_file w) (w_pages w ++ [props])
                      (w_trace w ++ pre ++
                       [ENotionCreate props;
                        ELog INFO (LAdded (dict_get details "company_name")
                                          (dict_get details "open_role"))]))
      \/
      notion_create e n props = false /\
      create_notion_entry e details source job_listed_date w =
      (Ok false, World (w_file w) (w_pages w)
                       (w_trace w ++ pre ++
                        [ENotionCreate props; ELog ERROR LNotionFailed])))).
Proof.
  cbv zeta. unfold create_notion_entry, is_duplicate. run_m.
  destruct (truthy (dict_get details "link_to_apply")) eqn:Hl.
  - destruct (notion_query e (length (w_trace w)) (w_pages w)
                           (dict_get details "link_to_apply")) as [[|]|] eqn:Hq;
      cbn [fst snd w_file w_pages w_trace].
    + left. repeat split. rewrite <- app_assoc. reflexivity.
    + right. eexists [_], _. split; [right; left; repeat split|].
      split; [reflexivity|].
      destruct (notion_create e _ _) eqn:Hc; [left|right];
        (split; [first [exact Hc|reflexivity]|]);
        cbn [fst snd w_file w_pages w_trace]; rewrite <- !app_assoc; reflexivity.
    + right. eexists [_; _], _. split; [right; right; repeat split|].
      split; [reflexivity|]. rewrite <- !app_assoc. cbn [app].
      destruct (notion_create e _ _) eqn:Hc; [left|right];
        (split; [first [exact Hc|reflexivity]|]);
        cbn [fst snd w_file w_pages w_trace]; rewrite <- !app_assoc; reflexivity.
  - right. exists [], (length (w_trace w)). split; [left; split; reflexivity|].
    split; [rewrite app_nil_r; reflexivity|].
    destruct (notion_create e _ _) eqn:Hc; [left|right];
      (split; [first [exact Hc|reflexivity]|]);
      cbn [fst snd w_file w_pages w_trace]; rewrite <- !app_assoc; reflexivity.
Qed.

Lemma create_calls_app t1 t2 : create_calls (t1 ++ t2) = create_calls t1 ++ create_calls t2.
Proof. unfold create_calls. apply omap_app. Qed.

(** C9.  When the details bind [job_type] to null, no create call and no
    created page carries a Job Type property; when the key is absent
    altogether, the property is the Full-time default. *)
Theorem create_notion_entry_null_job_type
        (e : env) (details : gmap string json) (source : string)
        (job_listed_date : json) (w : world) :
  exists evs added,
    w_trace (snd (create_notion_entry e details source job_listed_date w))
      = w_trace w ++ evs /\
    w_pages (snd (create_notion_entry e details source job_listed_date w))
      = w_pages w ++ added /\
    (details !! "job_type" = Some JNull ->
     Forall (fun p : properties => p !! "Job Type" = None) (create_calls evs ++ added)) /\
    (details !! "job_type" = None ->
     Forall (fun p : properties => p !! "Job Type" = Some (PSelect (JStr "Full-time")))
            (create_calls evs ++ added)).
Proof.
  pose proof (build_properties_job_type details source job_listed_date) as Hjt.
  cbv zeta in Hjt. unfold dict_get_default in Hjt.
  assert (Hnull : details !! "job_type" = Some JNull ->
                  build_properties details source job_listed_date !! "Job Type" = None).
  { intros E. rewrite E in Hjt. exact Hjt. }
  assert (Habsent : details !! "job_type" = None ->
                    build_properties details source job_listed_date !! "Job Type"
                    = Some (PSelect (JStr "Full-time"))).
  { intros E. rewrite E in Hjt. exact Hjt. }
  destruct (create_notion_entry_cases e details source job_listed_date w)
    as [(_ & _ & ->) | (pre & n & Hpre & _ & [(_ & ->) | (_ & ->)])];
    cbn [snd w_trace w_pages].
  - eexists _, []. split; [reflexivity|]. split; [rewrite app_nil_r; reflexivity|].
    split; intros _; constructor.
  - assert (Hcalls : create_calls pre = []).
    { destruct Hpre as [[_ ->] | [(_ & _ & ->) | (_ & _ & ->)]]; reflexivity. }
    eexists _, [_]. split; [reflexivity|]. split; [reflexivity|].
    rewrite create_calls_app, Hcalls. cbn [create_calls omap list_omap app].
    split; intros E; repeat constructor; auto.
  - assert (Hcalls : create_calls pre = []).
    { destruct Hpre as [[_ ->] | [(_ & _ & ->) | (_ & _ & ->)]]; reflexivity. }
    eexists _, []. split; [reflexivity|]. split; [rewrite app_nil_r; reflexivity|].
    rewrite create_calls_app, Hcalls. cbn [create_calls omap list_omap app].
    split; intros E; repeat constructor; auto.
Qed.

Lemma records_for_app url p1 p2 :
  records_for url (p1 ++ p2) = (records_for url p1 + records_for url p2)%nat.
Proof. unfold records_for. rewrite List.filter_app, length_app. reflexivity. Qed.

Lemma existsb_records url pages :
  existsb (page_has_url url) pages = negb (records_for url pages =? 0)%nat.
Proof.
  unfold records_for. induction pages as [|p pages IH]; [reflexivity|].
  cbn [existsb List.filter]. destruct (page_has_url url p); [reflexivity|exact IH].
Qed.

Lemma build_properties_has_url details source job_listed_date url :
  url <> "" ->
  dict_get details "link_to_apply" = JStr url ->
  page_has_url url (build_properties details source job_listed_date) = true.
Proof.
  intros Hne Hl. unfold page_has_url.
  rewrite build_properties_link, Hl. cbn [truthy].
  destruct url; [congruence|]. cbn [Str.nonempty]. apply String.eqb_refl.
Qed.

(** C3.  Two calls of the create path in a row for one apply-link URL,
    against a database whose existence query answers from its pages, that
    accepts the write of the first call (the one write that call can
    issue, right after its query) and holds at most one record for the URL
    beforehand: afterwards exactly one record exists for the URL, and the
    second call returns "not created" and issues no create call. *)
Theorem create_twice_one_record
        (e1 e2 : env) (details1 details2 : gmap string json)
        (source1 source2 : string) (date1 date2 : json) (url : string) (w : world) :
  faithful_query e1 -> faithful_query e2 ->
  notion_create e1 (S (length (w_trace w)))
                (build_properties details1 source1 date1) = true ->
  url <> "" ->
  dict_get details1 "link_to_apply" = JStr url ->
  dict_get details2 "link_to_apply" = JStr url ->
  (records_for url (w_pages w) <= 1)%nat ->
  let run1 := create_notion_entry e1 details1 source1 date1 w in
  let run2 := create_notion_entry e2 details2 source2 date2 (snd run1) in
  records_for url (w_pages (snd run2)) = 1%nat /\
  fst run2 = Ok false /\
  exists evs, w_trace (snd run2) = w_trace (snd run1) ++ evs /\ create_calls evs = [].
Proof.
  intros Hf1 Hf2 Hacc Hne Hl1 Hl2 Hcount. cbv zeta.
  assert (Ht : truthy (JStr url) = true) by (destruct url; [congruence|reflexivity]).
  assert (Hone : records_for url (w_pages (snd (create_notion_entry e1 details1 source1 date1 w)))
                 = 1%nat).
  { destruct (create_notion_entry_cases e1 details1 source1 date1 w)
      as [(_ & Hq & ->) | (pre & n & Hpre & Hn & [(_ & ->) | (Hc & _)])];
      cbn [snd w_pages].
    - rewrite Hl1, Hf1, existsb_records in Hq. injection Hq as Hq.
      apply negb_true_iff, Nat.eqb_neq in Hq. lia.
    - rewrite records_for_app. unfold records_for at 2. cbn [List.filter].
      rewrite (build_properties_has_url _ _ _ url Hne Hl1). cbn [length].
      rewrite Hl1, Hf1, existsb_records in Hpre.
      destruct Hpre as [[Hp _] | [(_ & Hq & _) | (_ & Hq & _)]].
      + congruence.
      + injection Hq as Hq. apply negb_false_iff, Nat.eqb_eq in Hq. lia.
      + discriminate.
    - rewrite Hl1, Hf1 in Hpre.
      destruct Hpre as [[Hp _] | [(_ & _ & ->) | (_ & Hq & _)]]; [congruence| |discriminate].
      rewrite length_app, Nat.add_1_r in Hn. subst n. congruence. }
  set (w1 := snd (create_notion_entry e1 details1 source1 date1 w)) in *.
  destruct (create_notion_entry_cases e2 details2 source2 date2 w1)
    as [(_ & _ & ->) | (pre & n & Hpre & _ & _)]; cbn [fst snd w_pages w_trace].
  - split; [exact Hone|]. split; [reflexivity|]. eexists. split; reflexivity.
  - exfalso. rewrite Hl2, Hf2, existsb_records, Hone in Hpre. cbn in Hpre.
    cbn [truthy] in Ht.
    destruct Hpre as [[Hp _] | [(_ & Hq & _) | (_ & Hq & _)]]; congruence.
Qed.

(** A database and two reads of details for the same apply-link. *)
Lemma create_twice_one_record_witness :
  let details : gmap string json :=
    {[ "link_to_apply" := JStr "https://jobs.example.com/1" ]} in
  let run1 := create_notion_entry example_env details "src" JNull empty_world in
  let run2 := create_notion_entry example_env details "src" JNull (snd run1) in
  records_for "https://jobs.example.com/1" (w_pages (snd run2)) = 1%nat /\
  fst run2 = Ok false /\
  exists evs, w_trace (snd run2) = w_trace (snd run1) ++ evs /\ create_calls evs = [].
Proof.
  apply (create_twice_one_record example_env example_env _ _ "src" "src" JNull JNull
           "https://jobs.example.com/1" empty_world).
  - intros n pages url. reflexivity.
  - intros n pages url. reflexivity.
  - reflexivity.
  - discriminate.
  - reflexivity.
  - reflexivity.
  - cbn. lia.
Defined.

(** C3 as stated fails.  First, a database that refuses the first write
    and accepts the second (the request fails once; [create_notion_entry]
    catches the exception and returns [False]): the second call finds no
    record, issues a create call and returns "created".  Second, a
    database that holds two records for the URL beforehand and accepts
    every write: both calls return "not created", and the records for the
    URL are two.  Third, an empty apply link: it is never looked up, and
    both calls create a page. *)
Lemma create_twice_second_creates :
  let url := "https://jobs.example.com/1" in
  let details : gmap string json := {[ "link_to_apply" := JStr url ]} in
  let flaky := Env (slack_history example_env) (http_get example_env)
                   (claude_create example_env) (notion_query example_env)
                   (fun n _ => (3 <=? n)%nat)
                   (py_float example_env) (py_utc_date example_env)
                   (json_loads example_env)
                   (sort_with_nan example_env) (sort_with_nan_perm example_env) in
  let run1 := create_notion_entry flaky details "src" JNull empty_world in
  let run2 := create_notion_entry flaky details "src" JNull (snd run1) in
  let page : properties := {[ "Link to Apply" := PUrl (JStr url) ]} in
  let twice := World None [page; page] [] in
  let run3 := create_notion_entry example_env details "src" JNull twice in
  let run4 := create_notion_entry example_env details "src" JNull (snd run3) in
  let unlinked : gmap string json := {[ "link_to_apply" := JStr "" ]} in
  let run5 := create_notion_entry example_env unlinked "src" JNull empty_world in
  let run6 := create_notion_entry example_env unlinked "src" JNull (snd run5) in
  (faithful_query flaky /\
   fst run1 = Ok false /\
   fst run2 = Ok true /\
   length (create_calls (events_of (create_notion_entry flaky details "src" JNull)
                                   (snd run1))) = 1%nat) /\
  (faithful_query example_env /\
   records_for url (w_pages twice) = 2%nat /\
   fst run3 = Ok false /\
   fst run4 = Ok false /\
   records_for url (w_pages (snd run4)) = 2%nat) /\
  (fst run5 = Ok true /\
   fst run6 = Ok true /\
   length (w_pages (snd run6)) = 2%nat).
Proof.
  cbv zeta. split; [|split]; [split; [intros n pages u; reflexivity|]..|];
    vm_compute; repeat split; reflexivity.
Qed.

(** ** What the code inside a cycle does to the world *)

Section Steps.
Context (P : event -> bool).

Lemma steps_ret {A} (a : A) : steps_with P (ret a).
Proof. intros w. split; [reflexivity|]. exists []. rewrite app_nil_r. split; reflexivity. Qed.

Lemma steps_raise {A} (x : exn) : steps_with P (@raise A x).
Proof. intros w. split; [reflexivity|]. exists []. rewrite app_nil_r. split; reflexivity. Qed.

Lemma steps_bind {A B} (c : M A) (k : A -> M B) :
  steps_with P c -> (forall a, steps_with P (k a)) -> steps_with P (bind c k).
Proof.
  intros Hc Hk w. unfold bind. destruct (Hc w) as [Hf (evs & Ht & Hp)].
  destruct (c w) as [[a|x] w1]; cbn [snd] in *.
  - destruct (Hk a w1) as [Hf2 (evs2 & Ht2 & Hp2)].
    split; [congruence|]. exists (evs ++ evs2).
    rewrite Ht2, Ht, <- app_assoc, forallb_app, Hp, Hp2. split; reflexivity.
  - split; [exact Hf|]. exists evs. split; assumption.
Qed.

Lemma steps_emit ev : P ev = true -> steps_with P (emit ev).
Proof.
  intros Hev w. split; [reflexivity|]. exists [ev]. cbn. rewrite Hev. split; reflexivity.
Qed.

Lemma steps_clock : steps_with P clock.
Proof. intros w. split; [reflexivity|]. exists []. rewrite app_nil_r. split; reflexivity. Qed.

Lemma steps_get_pages : steps_with P get_pages.
Proof. intros w. split; [reflexivity|]. exists []. rewrite app_nil_r. split; reflexivity. Qed.

Lemma steps_add_page p : steps_with P (add_page p).
Proof. intros w. split; [reflexivity|]. exists []. cbn. rewrite app_nil_r. split; reflexivity. Qed.

Lemma steps_for_each {A} (body : A -> M unit) l :
  (forall a, steps_with P (body a)) -> steps_with P (for_each body l).
Proof.
  intros Hb. induction l as [|a l IH]; cbn [for_each]; [apply steps_ret|].
  apply steps_bind; [apply Hb|intros _; exact IH].
Qed.

End Steps.

Lemma steps_weaken (P Q : event -> bool) {A} (c : M A) :
  (forall ev, P ev = true -> Q ev = true) -> steps_with P c -> steps_with Q c.
Proof.
  intros HPQ Hc w. destruct (Hc w) as [Hf (evs & Ht & Hp)].
  split; [exact Hf|]. exists evs. split; [exact Ht|].
  rewrite forallb_forall in *. intros ev Hin. apply HPQ, Hp, Hin.
Qed.

(** Breaks a goal [steps_with P c] down along the structure of [c]. *)
Ltac steps :=
  repeat first
    [ apply steps_ret
    | apply steps_raise
    | apply steps_clock
    | apply steps_get_pages
    | apply steps_add_page
    | apply steps_emit; reflexivity
    | apply steps_bind; [|intros ?]
    | match goal with
      | |- steps_with _ (if ?b then _ else _) => destruct b
      | |- steps_with _ (match ?x with _ => _ end) => destruct x
      end ].

Lemma steps_fetch_page_content e url : steps_with is_inner (fetch_page_content e url).
Proof. unfold fetch_page_content, log. steps. Qed.

Lemma steps_extract_job_urls_from_page content source :
  steps_with is_inner (extract_job_urls_from_page content source).
Proof. unfold extract_job_urls_from_page, log. steps. Qed.

Lemma steps_extract_job_details e content url source ctx :
  steps_with is_inner (extract_job_details e content url source ctx).
Proof. unfold extract_job_details, log. steps. Qed.

Lemma steps_is_duplicate e link : steps_with is_inner (is_duplicate e link).
Proof. unfold is_duplicate, log. steps. Qed.

Lemma steps_create_notion_entry e details source date :
  steps_with is_inner (create_notion_entry e details source date).
Proof.
  unfold create_notion_entry, log.
  apply steps_bind; [destruct (truthy _); [apply steps_is_duplicate|apply steps_ret]|].
  intros dup. steps.
Qed.

Lemma steps_process_job_url e text ts source li lc ld sd job_url :
  steps_with is_inner (process_job_url e text ts source li lc ld sd job_url).
Proof.
  unfold process_job_url, log, post_slack_reaction.
  apply steps_bind; [steps|intros _].
  apply steps_bind; [apply steps_fetch_page_content|intros content].
  apply steps_bind; [apply steps_extract_job_details|intros details].
  destruct (truthy details); [|steps].
  destruct details; try apply steps_raise.
  apply steps_bind; [apply steps_create_notion_entry|intros success]. steps.
Qed.

Lemma steps_process_message e text ts urls :
  steps_with is_inner (process_message e text ts urls).
Proof.
  unfold process_message, log.
  apply steps_bind; [steps|intros _].
  destruct (categorize urls) as [li jobs].
  apply steps_bind.
  { destruct (truthy_ostr li); [|apply steps_ret].
    apply steps_bind; [steps|intros _].
    apply steps_bind; [apply steps_fetch_page_content|intros c; apply steps_ret]. }
  intros lc. apply steps_bind.
  { destruct jobs; [|apply steps_ret].
    destruct (truthy_ostr li); [|apply steps_ret].
    apply steps_bind; [steps|intros _].
    apply steps_bind; [apply steps_extract_job_urls_from_page|intros emb].
    destruct emb; apply steps_ret. }
  intros job_urls. apply steps_bind.
  { destruct (truthy_ostr li); [|apply steps_ret].
    destruct (decode_linkedin_activity_date _); [apply steps_ret|apply steps_raise]. }
  intros ld. apply steps_bind.
  { destruct (py_utc_date e ts); [apply steps_ret|apply steps_raise]. }
  intros sd. apply steps_for_each. intros job_url. apply steps_process_job_url.
Qed.

Lemma steps_for_messages e messages : forall latest_ts,
  steps_with is_inner (for_messages e messages latest_ts).
Proof.
  induction messages as [|msg rest IH]; intros latest_ts; cbn [for_messages].
  - apply steps_ret.
  - destruct (extract_urls _); [apply IH|].
    apply steps_bind; [apply steps_process_message|intros _; apply IH].
Qed.

(** When the loop over the messages completes, it ends with the timestamp
    of the last message that had URLs. *)
Lemma for_messages_latest e messages : forall latest_ts w ts' w',
  for_messages e messages latest_ts w = (Ok ts', w') ->
  ts' = latest_with_urls messages latest_ts.
Proof.
  unfold latest_with_urls.
  induction messages as [|msg rest IH]; intros latest_ts w ts' w' H;
    cbn [for_messages fold_left] in *.
  - unfold ret in H. congruence.
  - destruct (extract_urls _); [eapply IH, H|].
    unfold bind in H. destruct (process_message _ _ _ _ w) as [[[]|x] w1]; [|discriminate].
    eapply IH, H.
Qed.

(** ** The sort of the batch *)

Module SortFacts.

Lemma float_le_trans a b c :
  float_le a b = true -> float_le b c = true -> float_le a c = true.
Proof.
  destruct a as [x|[]|], b as [y|[]|], c as [z|[]|]; cbn [float_le];
    try discriminate; try reflexivity.
  intros H1 H2. apply Qle_bool_iff in H1, H2. apply Qle_bool_iff.
  eapply Qle_trans; eassumption.
Qed.

Lemma float_le_refl a : is_nan a = false -> float_le a a = true.
Proof.
  destruct a as [x|[]|]; cbn [float_le is_nan]; try reflexivity; try discriminate.
  intros _. apply Qle_bool_iff, Qle_refl.
Qed.

(** Floats other than nan are totally ordered. *)
Lemma float_le_total a b :
  is_nan a = false -> is_nan b = false -> float_lt b a = false -> float_le a b = true.
Proof.
  unfold float_lt.
  destruct a as [x|[]|], b as [y|[]|]; cbn [float_le is_nan negb andb];
    try discriminate; try reflexivity.
  intros _ _ H. destruct (Qle_bool x y) eqn:E; [reflexivity|].
  rewrite andb_true_r in H. exfalso.
  assert (Hxy : ~ (x <= y)%Q) by (intros Hle; apply Qle_bool_iff in Hle; congruence).
  apply Qnot_le_lt, Qlt_le_weak, Qle_bool_iff in Hxy. congruence.
Qed.

Lemma float_lt_le a b : float_lt a b = true -> float_le a b = true.
Proof. unfold float_lt. intros H. apply andb_prop in H as [H _]. exact H. Qed.

Lemma insert_by_key_perm x l : Permutation (insert_by_key x l) (x :: l).
Proof.
  induction l as [|y l IH]; cbn [insert_by_key]; [reflexivity|].
  destruct (float_lt (fst y) (fst x)); [|reflexivity].
  rewrite IH. apply perm_swap.
Qed.

(** The sorted batch holds the messages of the batch. *)
Lemma sort_by_key_perm l : Permutation (sort_by_key l) l.
Proof.
  induction l as [|x l IH]; cbn [sort_by_key fold_right]; [reflexivity|].
  rewrite insert_by_key_perm. apply perm_skip, IH.
Qed.

Lemma insert_by_key_hd x l y :
  HdRel key_le y l -> key_le y x -> HdRel key_le y (insert_by_key x l).
Proof.
  intros Hl Hx. destruct l as [|z l]; cbn [insert_by_key]; [constructor; exact Hx|].
  destruct (float_lt (fst z) (fst x)); constructor; [|exact Hx].
  inversion Hl; assumption.
Qed.

Lemma insert_by_key_sorted x l :
  is_nan (fst x) = false -> Forall (fun y => is_nan (fst y) = false) l ->
  Sorted key_le l -> Sorted key_le (insert_by_key x l).
Proof.
  intros Hx Hl Hs. induction Hs as [|y l Hs IH Hhd]; cbn [insert_by_key];
    [repeat constructor|].
  inversion Hl as [|? ? Hy Hl']; subst.
  destruct (float_lt (fst y) (fst x)) eqn:E.
  - constructor; [apply IH, Hl'|]. apply insert_by_key_hd; [exact Hhd|].
    apply float_lt_le, E.
  - repeat constructor; [assumption|assumption|].
    apply float_le_total; assumption.
Qed.

(** The sorted batch ascends by key when no key is nan. *)
Lemma sort_by_key_sorted l :
  Forall (fun y => is_nan (fst y) = false) l -> Sorted key_le (sort_by_key l).
Proof.
  induction 1 as [|x l Hx Hl IH]; cbn [sort_by_key fold_right]; [constructor|].
  apply insert_by_key_sorted; [exact Hx| |exact IH].
  fold (sort_by_key l). rewrite Forall_forall in *. intros y Hy. apply Hl.
  rewrite <- (sort_by_key_perm l). exact Hy.
Qed.

Lemma insert_by_key_filter k x l :
  List.filter (has_key k) (insert_by_key x l) =
  List.filter (has_key k) (x :: l).
Proof.
  induction l as [|y l IH]; cbn [insert_by_key]; [reflexivity|].
  destruct (float_lt (fst y) (fst x)) eqn:E; [|reflexivity].
  cbn [List.filter] in *. rewrite IH.
  destruct (has_key k x) eqn:Ex; [|reflexivity].
  destruct (has_key k y) eqn:Ey; [|reflexivity].
  exfalso. unfold has_key, float_eq in *.
  apply andb_prop in Ex as [Ex1 Ex2]. apply andb_prop in Ey as [Ey1 Ey2].
  unfold float_lt in E. apply andb_prop in E as [_ E].
  rewrite (float_le_trans _ _ _ Ex1 Ey2) in E. discriminate.
Qed.

(** The sort is stable: messages of equal key keep their order. *)
Lemma sort_by_key_stable k l :
  List.filter (has_key k) (sort_by_key l) = List.filter (has_key k) l.
Proof.
  induction l as [|x l IH]; cbn [sort_by_key fold_right]; [reflexivity|].
  rewrite insert_by_key_filter. cbn [List.filter]. fold (sort_by_key l).
  rewrite IH. reflexivity.
Qed.

End SortFacts.

Example fence_stripping :
  Re.sub FENCE_CLOSE_RE ""
    (Re.sub FENCE_OPEN_RE "" ("```json" +:+ NL +:+ "{}" +:+ NL +:+ "```")) = "{}".
Proof. vm_compute. reflexivity. Qed.

Example extract_job_urls_from_page_ex :
  fst (extract_job_urls_from_page
         "see https://boards.greenhouse.io/acme/jobs/1. or https://x.com/a, https://jobs.lever.co/b/2; https://boards.greenhouse.io/acme/jobs/1 https://www.linkedin.com/posts/p"
         "https://www.linkedin.com/posts/p" empty_world)
  = Ok ["https://boards.greenhouse.io/acme/jobs/1"; "https://jobs.lever.co/b/2"].
Proof. vm_compute. reflexivity. Qed.

(** ** [poll_and_process] *)



(** The checkpoint a completed cycle persists: the timestamp of the last
    message of the sorted batch from which URLs were extracted, or the
    cursor the cycle started from when there is no such message. *)
Lemma poll_and_process_checkpoint e w messages sorted w' :
  slack_history e (stored_cursor w) = SlackReply true messages ->
  messages <> [] ->
  sort_messages e messages = Ok sorted ->
  poll_and_process e w = (Ok tt, w') ->
  w_file w' = Some (latest_with_urls sorted (stored_cursor w)).
Proof.
  intros Hs Hne Hsort. unfold poll_and_process, get_last_processed_ts. run_m.
  rewrite Hs. cbn [negb]. destruct messages as [|m ms]; [congruence|].
  rewrite Hsort.
  destruct (for_messages e sorted (stored_cursor w) _) as [[ts'|x] w1] eqn:Hfor;
    [|discriminate].
  apply for_messages_latest in Hfor. subst ts'.
  cbn [fst snd w_file w_pages w_trace]. intros [= <-]. reflexivity.
Qed.

(** C1 on a batch whose only message has no URL: the cycle completes and
    persists the cursor it started from, not the timestamp of the message
    it examined. *)
Theorem poll_checkpoint_stays_behind :
  let msg := Message "1700000200.000100" (Some "standup moved to 3pm") in
  let e := with_slack example_env (SlackReply true [msg]) in
  let w := World (Some "1700000100.000200") [] [] in
  sort_messages e [msg] = Ok [msg] /\
  extract_urls "standup moved to 3pm" = [] /\
  fst (poll_and_process e w) = Ok tt /\
  w_file (snd (poll_and_process e w)) = Some "1700000100.000200" /\
  w_file (snd (poll_and_process e w)) <> Some (msg_ts msg).
Proof. cbv zeta. repeat split; try (vm_compute; reflexivity). vm_compute. discriminate. Qed.

(** A message with a LinkedIn URL whose activity identifier has 22 digits:
    the exception of the decoder leaves the cycle, after the page of the
    post was fetched and before the checkpoint is written. *)
Example poll_raises_on_long_activity_id :
  let msg := Message "1700000200.000100"
               (Some "<https://www.linkedin.com/feed/update/urn:li:activity:1062849512059437056000>") in
  let e := with_slack example_env (SlackReply true [msg]) in
  let w := World (Some "1700000100.000200") [] [] in
  fst (poll_and_process e w) = Raise DateRangeError /\
  w_file (snd (poll_and_process e w)) = Some "1700000100.000200" /\
  count is_page_fetch (w_trace (snd (poll_and_process e w))) = 1%nat /\
  count is_file_write (w_trace (snd (poll_and_process e w))) = 0%nat.
Proof. cbv zeta. repeat split; vm_compute; reflexivity. Qed.

(** ** The scheduler loop *)

Lemma inner_is_cycle_work ev : is_inner ev = true -> is_cycle_work ev = true.
Proof. unfold is_inner, is_cycle_work. destruct ev as [| | | | | | |[] []|]; cbn; congruence. Qed.

(** A cycle logs its start once and never sleeps. *)
Lemma poll_and_process_trace e w :
  exists rest,
    w_trace (snd (poll_and_process e w)) =
      w_trace w ++ ELog INFO (LPolling (stored_cursor w)) :: rest /\
    forallb is_cycle_work rest = true.
Proof.
  unfold poll_and_process, get_last_processed_ts. run_m.
  destruct (slack_history e (stored_cursor w)) as [x|ok messages];
    cbn [fst snd w_file w_pages w_trace].
  - eexists. rewrite <- !app_assoc. split; reflexivity.
  - destruct ok; cbn [negb fst snd w_file w_pages w_trace].
    2:{ eexists. rewrite <- !app_assoc. split; reflexivity. }
    destruct messages as [|m ms]; cbn [fst snd w_file w_pages w_trace].
    { eexists. rewrite <- !app_assoc. split; reflexivity. }
    destruct (sort_messages e (m :: ms)) as [sorted|x];
      cbn [fst snd w_file w_pages w_trace].
    2:{ eexists. rewrite <- !app_assoc. split; reflexivity. }
    match goal with
    | |- context [for_messages e sorted ?ts ?w0] =>
        destruct (steps_weaken _ _ _ inner_is_cycle_work
                    (steps_for_messages e sorted ts) w0) as [_ (evs & Ht & Hp)];
        destruct (for_messages e sorted ts w0) as [[ts'|x] w1]
    end; cbn [fst snd w_file w_pages w_trace] in *; rewrite Ht, <- !app_assoc.
    + eexists. split; [reflexivity|]. cbn [app forallb].
      rewrite forallb_app, Hp. reflexivity.
    + eexists. split; [reflexivity|]. cbn [app forallb]. exact Hp.
Qed.

Lemma count_app P l1 l2 : count P (l1 ++ l2) = (count P l1 + count P l2)%nat.
Proof. unfold count. rewrite List.filter_app, length_app. reflexivity. Qed.

Lemma count_none P Q l :
  (forall ev, Q ev = true -> P ev = false) -> forallb Q l = true -> count P l = 0%nat.
Proof.
  intros HQ Hl. unfold count. induction l as [|ev l IH]; [reflexivity|].
  cbn [forallb] in Hl. apply andb_prop in Hl as [Hev Hl]. cbn [List.filter].
  rewrite (HQ ev Hev). apply IH, Hl.
Qed.

(** One turn of the loop: whatever the cycle does, the turn completes; a
    raised exception is logged; then come the log line and the sleep. *)
Lemma scheduler_turn_spec e w :
  fst (scheduler_turn e w) = Ok tt /\
  w_file (snd (scheduler_turn e w)) = w_file (snd (poll_and_process e w)) /\
  w_trace (snd (scheduler_turn e w)) =
    w_trace (snd (poll_and_process e w))
    ++ match fst (poll_and_process e w) with
       | Ok _ => []
       | Raise x => [ELog ERROR (LPollError x)]
       end
    ++ [ELog INFO (LSleeping INTERVAL_SECONDS); ESleep INTERVAL_SECONDS].
Proof.
  unfold scheduler_turn. run_m.
  destruct (poll_and_process e w) as [[[]|x] w1];
    cbn [fst snd w_file w_pages w_trace]; rewrite <- ?app_assoc; repeat split.
Qed.

Lemma scheduler_turn_counts e w :
  exists evs,
    w_trace (snd (scheduler_turn e w)) = w_trace w ++ evs /\
    count is_poll_start evs = 1%nat /\ count is_sleep evs = 1%nat /\
    (forall s, In (ESleep s) evs -> s = INTERVAL_SECONDS).
Proof.
  destruct (scheduler_turn_spec e w) as (_ & _ & Ht).
  destruct (poll_and_process_trace e w) as (rest & Hp & Hrest).
  rewrite Hp in Ht. rewrite Ht, <- !app_assoc. eexists. split; [reflexivity|].
  assert (Hn1 : count is_poll_start rest = 0%nat).
  { eapply count_none; [|exact Hrest]. unfold is_cycle_work. intros ev H.
    apply negb_true_iff, orb_false_iff in H as [H _]. exact H. }
  assert (Hn2 : count is_sleep rest = 0%nat).
  { eapply count_none; [|exact Hrest]. unfold is_cycle_work. intros ev H.
    apply negb_true_iff, orb_false_iff in H as [_ H]. exact H. }
  change (ELog INFO (LPolling (stored_cursor w)) :: ?l)
    with ([ELog INFO (LPolling (stored_cursor w))] ++ l).
  rewrite <- app_comm_cons. cbn [app].
  split; [|split].
  - change (ELog INFO (LPolling (stored_cursor w)) :: ?l)
      with ([ELog INFO (LPolling (stored_cursor w))] ++ l).
    rewrite !count_app, Hn1. destruct (fst (poll_and_process e w)); reflexivity.
  - change (ELog INFO (LPolling (stored_cursor w)) :: ?l)
      with ([ELog INFO (LPolling (stored_cursor w))] ++ l).
    rewrite !count_app, Hn2. destruct (fst (poll_and_process e w)); reflexivity.
  - intros s Hin. cbn [In] in Hin. destruct Hin as [Hin|Hin]; [discriminate|].
    apply in_app_or in Hin as [Hin|Hin].
    + exfalso. rewrite forallb_forall in Hrest. apply Hrest in Hin. discriminate.
    + apply in_app_or in Hin as [Hin|Hin].
      * destruct (fst (poll_and_process e w)); cbn [In] in Hin;
          [contradiction|destruct Hin as [Hin|[]]; discriminate].
      * cbn [In] in Hin. destruct Hin as [Hin|[Hin|[]]]; [discriminate|].
        injection Hin as <-. reflexivity.
Qed.

Lemma scheduler_loop_spec envs turns : forall k w,
  fst (scheduler_loop envs k turns w) = Ok tt /\
  exists evs,
    w_trace (snd (scheduler_loop envs k turns w)) = w_trace w ++ evs /\
    count is_poll_start evs = turns /\ count is_sleep evs = turns /\
    (forall s, In (ESleep s) evs -> s = INTERVAL_SECONDS).
Proof.
  induction turns as [|turns IH]; intros k w; cbn [scheduler_loop].
  - split; [reflexivity|]. exists []. rewrite app_nil_r. repeat split. intros s [].
  - unfold bind.
    destruct (scheduler_turn_spec (envs k) w) as (Hok & _ & _).
    destruct (scheduler_turn_counts (envs k) w) as (evs1 & Ht1 & Hp1 & Hs1 & Hi1).
    destruct (scheduler_turn (envs k) w) as [[[]|x] w1]; cbn [fst snd] in *;
      [|discriminate].
    destruct (IH (S k) w1) as (Hok2 & evs2 & Ht2 & Hp2 & Hs2 & Hi2).
    split; [exact Hok2|]. exists (evs1 ++ evs2).
    rewrite Ht2, Ht1, <- app_assoc, !count_app, Hp1, Hs1, Hp2, Hs2.
    repeat split. intros s Hin. apply in_app_or in Hin as [Hin|Hin]; auto.
Qed.

(** C8.  However many turns of the loop are observed and whatever the
    cycles do, no exception leaves the loop: after [turns] turns exactly
    [turns] cycles have started and [turns] sleeps of 30 seconds were
    taken.  A cycle that raises is followed by the error log line, the
    sleep, and so by the next cycle. *)
Theorem scheduler_never_exits (envs : nat -> env) (turns : nat) (w : world) :
  fst (scheduler_main envs turns w) = Ok tt /\
  (exists evs,
     w_trace (snd (scheduler_main envs turns w)) = w_trace w ++ evs /\
     count is_poll_start evs = turns /\ count is_sleep evs = turns /\
     (forall s, In (ESleep s) evs -> s = 30)) /\
  (forall e w0 x,
     fst (poll_and_process e w0) = Raise x ->
     fst (scheduler_turn e w0) = Ok tt /\
     w_trace (snd (scheduler_turn e w0)) =
       w_trace (snd (poll_and_process e w0))
       ++ [ELog ERROR (LPollError x); ELog INFO (LSleeping 30); ESleep 30]).
Proof.
  split; [|split].
  - unfold scheduler_main. run_m. apply scheduler_loop_spec.
  - unfold scheduler_main. run_m.
    match goal with
    | |- context [scheduler_loop envs 0 turns ?w0] =>
        destruct (scheduler_loop_spec envs turns 0%nat w0) as (_ & evs & Ht & Hp & Hs & Hi)
    end.
    cbn [w_trace] in Ht. rewrite Ht, <- app_assoc. eexists. split; [reflexivity|].
    cbn [app]. unfold count in *. cbn [List.filter is_poll_start is_sleep].
    repeat split; try assumption.
    intros s [Hin|Hin]; [discriminate|]. apply Hi, Hin.
  - intros e w0 x Hx. destruct (scheduler_turn_spec e w0) as (Hok & _ & Ht).
    split; [exact Hok|]. rewrite Ht, Hx. reflexivity.
Qed.

(** ** Determinism of a cycle *)

Section InStep.
Context (e1 e2 : env) (Hpy : same_python e1 e2).

Let Hfloat : forall ts, py_float e1 ts = py_float e2 ts.
Proof. apply Hpy. Qed.
Let Hdate : forall ts, py_utc_date e1 ts = py_utc_date e2 ts.
Proof. apply Hpy. Qed.
Let Hloads : forall text, json_loads e1 text = json_loads e2 text.
Proof. apply Hpy. Qed.
Let Hsort : forall batch, sort_with_nan e1 batch = sort_with_nan e2 batch.
Proof. apply Hpy. Qed.

Lemma in_step_ret {A} (a : A) : in_step e1 e2 (ret a) (ret a).
Proof.
  intros w1. exists []. split; [cbn; rewrite app_nil_r; reflexivity|].
  intros w2 tail Hcur Hag. cbn. rewrite app_nil_r. auto.
Qed.

Lemma in_step_raise {A} (x : exn) : in_step e1 e2 (@raise A x) (raise x).
Proof.
  intros w1. exists []. split; [cbn; rewrite app_nil_r; reflexivity|].
  intros w2 tail Hcur Hag. cbn. rewrite app_nil_r. auto.
Qed.

Lemma in_step_bind {A B} (c1 c2 : M A) (k1 k2 : A -> M B) :
  in_step e1 e2 c1 c2 -> (forall a, in_step e1 e2 (k1 a) (k2 a)) ->
  in_step e1 e2 (bind c1 k1) (bind c2 k2).
Proof.
  intros Hc Hk w1. destruct (Hc w1) as (evs & Ht & H). unfold bind.
  destruct (c1 w1) as [[a|x] w1'] eqn:E1; cbn [fst snd] in *.
  - destruct (Hk a w1') as (evsk & Htk & Hk').
    exists (evs ++ evsk). split; [rewrite Htk, Ht, app_assoc; reflexivity|].
    intros w2 tail Hcur Hag. rewrite <- app_assoc in Hag.
    destruct (H w2 (evsk ++ tail) Hcur Hag) as (Hf & Ht2 & Hcur' & Hag').
    destruct (c2 w2) as [[a2|x2] w2']; cbn [fst snd] in *; [|discriminate].
    injection Hf as <-.
    destruct (Hk' w2' tail Hcur' Hag') as (Hf' & Ht2' & Hcur'' & Hag'').
    repeat split; try assumption. rewrite Ht2', Ht2, app_assoc. reflexivity.
  - exists evs. split; [exact Ht|]. intros w2 tail Hcur Hag.
    destruct (H w2 tail Hcur Hag) as (Hf & Ht2 & Hcur' & Hag').
    destruct (c2 w2) as [[a2|x2] w2']; cbn [fst snd] in *; [discriminate|].
    repeat split; try assumption. injection Hf as ->. reflexivity.
Qed.

(** One more event in both traces. *)
Lemma agree_at_next f1 f2 w1 w2 ev tail :
  is_create_call ev = false ->
  agree_at e1 e2 w1 w2 (ev :: tail) ->
  agree_at e1 e2 (World f1 (w_pages w1) (w_trace w1 ++ [ev]))
                 (World f2 (w_pages w2) (w_trace w2 ++ [ev])) tail.
Proof.
  unfold agree_at. cbn [same_answers w_trace w_pages]. intros Hev [_ Hag].
  rewrite !length_app, !Nat.add_1_r.
  destruct ev; try discriminate; exact Hag.
Qed.

Lemma in_step_emit ev : is_create_call ev = false -> in_step e1 e2 (emit ev) (emit ev).
Proof.
  intros Hev w1. exists [ev]. split; [reflexivity|].
  intros w2 tail Hcur Hag. cbn [emit fst snd w_trace].
  repeat split; [exact Hcur|]. apply agree_at_next; assumption.
Qed.

Lemma in_step_log lvl msg : in_step e1 e2 (log lvl msg) (log lvl msg).
Proof. apply in_step_emit. reflexivity. Qed.

Lemma in_step_get_last_processed_ts :
  in_step e1 e2 get_last_processed_ts get_last_processed_ts.
Proof.
  intros w1. exists []. split; [cbn; rewrite app_nil_r; reflexivity|].
  intros w2 tail Hcur Hag. cbn. rewrite app_nil_r, Hcur. auto.
Qed.

Lemma in_step_save_last_processed_ts ts :
  in_step e1 e2 (save_last_processed_ts ts) (save_last_processed_ts ts).
Proof.
  intros w1. exists [EFileWrite ts]. split; [reflexivity|].
  intros w2 tail Hcur Hag. cbn [save_last_processed_ts fst snd w_trace].
  repeat split. apply agree_at_next; [reflexivity|exact Hag].
Qed.

(** Moves past the event at the head of the events still to come. *)
Ltac next_event H :=
  match type of H with
  | agree_at _ _ ?a ?b (_ :: _) =>
      apply (agree_at_next (w_file a) (w_file b)) in H;
      [cbn [w_file w_pages w_trace] in H|reflexivity]
  end.

(** The end of a walk through one function: the second run has received
    the answers of the first. *)
Ltac in_step_end Hcur Hag :=
  cbn [fst snd w_trace w_file w_pages app]; rewrite <- ?app_assoc;
  repeat split; [exact Hcur|];
  cbn [app] in Hag; repeat next_event Hag; rewrite <- ?app_assoc in Hag; exact Hag.

Lemma fetch_page_content_in_step url :
  in_step e1 e2 (fetch_page_content e1 url) (fetch_page_content e2 url).
Proof.
  intros w1. unfold fetch_page_content. run_m.
  destruct (http_get e1 (length (w_trace w1)) url) as [|status text] eqn:E;
    [|destruct (raise_for_status status) eqn:Er].
  1,2: exists [EHttpGet url; ELog WARNING (LFetchFailed url)].
  3: exists [EHttpGet url].
  all: split; [cbn [fst snd w_trace]; rewrite <- ?app_assoc; reflexivity|].
  all: intros w2 tail Hcur Hag; pose proof Hag as [Heq _];
    cbn [answered_alike] in Heq; rewrite <- Heq, E, ?Er.
  all: in_step_end Hcur Hag.
Qed.

Lemma extract_job_details_in_step content url source ctx :
  in_step e1 e2 (extract_job_details e1 content url source ctx)
                (extract_job_details e2 content url source ctx).
Proof.
  unfold extract_job_details.
  destruct (negb (Str.nonempty content) && negb (truthy_ostr ctx));
    [apply in_step_ret|].
  intros w1. run_m. set (prompt := build_prompt content url ctx).
  destruct (claude_create e1 (length (w_trace w1)) prompt) as [reply|] eqn:E;
    [destruct (json_loads e1 _) as [v|] eqn:Ej|].
  1: exists [EClaude prompt].
  2,3: exists [EClaude prompt; ELog ERROR LClaudeFailed].
  all: split; [cbn [fst snd w_trace]; rewrite <- ?app_assoc; reflexivity|].
  all: intros w2 tail Hcur Hag; pose proof Hag as [Heq _];
    cbn [answered_alike] in Heq; rewrite <- Heq, E, <- ?Hloads, ?Ej.
  all: in_step_end Hcur Hag.
Qed.

Lemma is_duplicate_in_step link :
  in_step e1 e2 (is_duplicate e1 link) (is_duplicate e2 link).
Proof.
  intros w1. unfold is_duplicate. run_m.
  destruct (notion_query e1 (length (w_trace w1)) (w_pages w1) link) as [[|]|] eqn:E.
  1: exists [ENotionQuery link; ELog INFO (LDuplicate link)].
  2: exists [ENotionQuery link].
  3: exists [ENotionQuery link; ELog WARNING LDedupFailed].
  all: split; [cbn [fst snd w_trace]; rewrite <- ?app_assoc; reflexivity|].
  all: intros w2 tail Hcur Hag; pose proof Hag as [Heq _];
    cbn [answered_alike] in Heq; rewrite <- Heq, E.
  all: in_step_end Hcur Hag.
Qed.

Lemma create_notion_entry_in_step details source date :
  in_step e1 e2 (create_notion_entry e1 details source date)
                (create_notion_entry e2 details source date).
Proof.
  unfold create_notion_entry.
  apply in_step_bind;
    [destruct (truthy _); [apply is_duplicate_in_step|apply in_step_ret]|].
  intros [|]; [apply in_step_ret|].
  set (props := build_properties details source date).
  intros w1. run_m.
  destruct (notion_create e1 (length (w_trace w1)) props) eqn:E.
  1: exists [ENotionCreate props;
             ELog INFO (LAdded (dict_get details "company_name")
                               (dict_get details "open_role"))].
  2: exists [ENotionCreate props; ELog ERROR LNotionFailed].
  all: split; [cbn [fst snd w_trace]; rewrite <- ?app_assoc; reflexivity|].
  all: intros w2 tail Hcur Hag; pose proof Hag as [Heq _];
    cbn [answered_alike] in Heq; rewrite <- Heq, E.
  all: cbn [fst snd w_trace w_file w_pages app]; rewrite <- ?app_assoc;
    repeat split; [exact Hcur|].
  all: unfold agree_at in *; cbn [app same_answers pages_after] in Hag;
    rewrite <- Heq, E in Hag; destruct Hag as (_ & _ & Hag);
    cbn [w_trace w_pages]; rewrite !length_app; cbn [length];
    rewrite !Nat.add_1_r, !Nat.add_succ_r, !Nat.add_0_r; exact Hag.
Qed.

(** Walks two runs of the same code in step. *)
Ltac in_step_walk :=
  repeat first
    [ apply in_step_ret
    | apply in_step_raise
    | apply in_step_log
    | apply in_step_emit; reflexivity
    | apply fetch_page_content_in_step
    | apply extract_job_details_in_step
    | apply create_notion_entry_in_step
    | apply in_step_bind; [|intros ?]
    | match goal with
      | |- in_step _ _ (if ?b then _ else _) (if ?b then _ else _) => destruct b
      | |- in_step _ _ (match ?x with _ => _ end) (match ?x with _ => _ end) =>
          destruct x
      end ].

Lemma process_job_url_in_step text ts source li lc ld sd job_url :
  in_step e1 e2 (process_job_url e1 text ts source li lc ld sd job_url)
                (process_job_url e2 text ts source li lc ld sd job_url).
Proof. unfold process_job_url, post_slack_reaction. in_step_walk. Qed.

Lemma for_each_in_step {A} (b1 b2 : A -> M unit) l :
  (forall a, in_step e1 e2 (b1 a) (b2 a)) ->
  in_step e1 e2 (for_each b1 l) (for_each b2 l).
Proof.
  intros Hb. induction l as [|a l IH]; cbn [for_each]; [apply in_step_ret|].
  apply in_step_bind; [apply Hb|intros _; apply IH].
Qed.

Lemma process_message_in_step text ts urls :
  in_step e1 e2 (process_message e1 text ts urls) (process_message e2 text ts urls).
Proof.
  unfold process_message, extract_job_urls_from_page.
  destruct (categorize urls) as [li jobs]. rewrite Hdate.
  in_step_walk; apply for_each_in_step; intros job_url;
    apply process_job_url_in_step.
Qed.

Lemma for_messages_in_step messages : forall latest_ts,
  in_step e1 e2 (for_messages e1 messages latest_ts)
                (for_messages e2 messages latest_ts).
Proof.
  induction messages as [|msg rest IH]; intros latest_ts; cbn [for_messages].
  - apply in_step_ret.
  - destruct (extract_urls _); [apply IH|].
    apply in_step_bind; [apply process_message_in_step|intros _; apply IH].
Qed.

Lemma message_keys_same messages : message_keys e1 messages = message_keys e2 messages.
Proof.
  induction messages as [|m rest IH]; cbn [message_keys]; [reflexivity|].
  rewrite Hfloat, IH. reflexivity.
Qed.

Lemma sort_messages_same messages : sort_messages e1 messages = sort_messages e2 messages.
Proof. unfold sort_messages. rewrite message_keys_same, Hsort. reflexivity. Qed.

(** What follows the answer of Slack. *)
Lemma after_slack_in_step last_ts reply :
  in_step e1 e2
    (match reply with
     | SlackFails x => raise x
     | SlackReply ok messages =>
         if negb ok then log ERROR LSlackError
         else
           match messages with
           | [] => log INFO LNoNewMessages
           | _ :: _ =>
               match sort_messages e1 messages with
               | Raise x => raise x
               | Ok sorted =>
                   let* latest_ts := for_messages e1 sorted last_ts in
                   save_last_processed_ts latest_ts ;;;
                   log INFO (LDone (length messages) latest_ts)
               end
           end
     end)
    (match reply with
     | SlackFails x => raise x
     | SlackReply ok messages =>
         if negb ok then log ERROR LSlackError
         else
           match messages with
           | [] => log INFO LNoNewMessages
           | _ :: _ =>
               match sort_messages e2 messages with
               | Raise x => raise x
               | Ok sorted =>
                   let* latest_ts := for_messages e2 sorted last_ts in
                   save_last_processed_ts latest_ts ;;;
                   log INFO (LDone (length messages) latest_ts)
               end
           end
     end).
Proof.
  destruct reply as [x|ok messages]; [apply in_step_raise|].
  destruct (negb ok); [apply in_step_log|].
  destruct messages as [|m ms]; [apply in_step_log|].
  rewrite sort_messages_same.
  destruct (sort_messages e2 (m :: ms)) as [sorted|x]; [|apply in_step_raise].
  apply in_step_bind; [apply for_messages_in_step|intros latest_ts].
  apply in_step_bind; [apply in_step_save_last_processed_ts|intros _].
  apply in_step_log.
Qed.

Lemma poll_and_process_in_step :
  in_step e1 e2 (poll_and_process e1) (poll_and_process e2).
Proof.
  intros w1.
  set (ev := ESlackHistory SLACK_CHANNEL_ID (stored_cursor w1)).
  set (w1' := World (w_file w1) (w_pages w1)
                    ((w_trace w1 ++ [ELog INFO (LPolling (stored_cursor w1))]) ++ [ev])).
  destruct (after_slack_in_step (stored_cursor w1)
              (slack_history e1 (stored_cursor w1)) w1') as (evs & Ht & H).
  exists (ELog INFO (LPolling (stored_cursor w1)) :: ev :: evs). split.
  { unfold poll_and_process, get_last_processed_ts. run_m. fold ev. fold w1'.
    rewrite Ht. subst w1'. cbn [w_trace]. rewrite <- !app_assoc. reflexivity. }
  intros w2 tail Hcur Hag.
  assert (Heq : slack_history e1 (stored_cursor w1) = slack_history e2 (stored_cursor w1)).
  { destruct Hag as (_ & Heq & _). exact Heq. }
  cbn [app] in Hag. do 2 next_event Hag.
  set (w2' := World (w_file w2) (w_pages w2)
                    ((w_trace w2 ++ [ELog INFO (LPolling (stored_cursor w1))]) ++ [ev])).
  destruct (H w2' tail Hcur Hag) as (Hf & Ht2 & Hcur' & Hag').
  unfold poll_and_process, get_last_processed_ts. run_m.
  rewrite <- Hcur, <- Heq. fold ev. fold w1'. fold w2'.
  repeat split; try assumption.
  rewrite Ht2. subst w2'. cbn [w_trace]. rewrite <- !app_assoc. reflexivity.
Qed.

End InStep.

Lemma events_of_run {A} (c : M A) w evs :
  w_trace (snd (c w)) = w_trace w ++ evs -> events_of c w = evs.
Proof. unfold events_of. intros ->. apply drop_app_length. Qed.

(** Two runs that meet outsides with the same Python primitives. *)
Lemma poll_and_process_runs_alike (e1 e2 : env) (w1 w2 : world) :
  same_python e1 e2 ->
  stored_cursor w1 = stored_cursor w2 ->
  agree_at e1 e2 w1 w2 (events_of (poll_and_process e1) w1) ->
  fst (poll_and_process e1 w1) = fst (poll_and_process e2 w2) /\
  events_of (poll_and_process e2) w2 = events_of (poll_and_process e1) w1 /\
  stored_cursor (snd (poll_and_process e1 w1)) =
    stored_cursor (snd (poll_and_process e2 w2)).
Proof.
  intros Hpy Hcur Hag.
  destruct (poll_and_process_in_step e1 e2 Hpy w1) as (evs & Ht & H).
  rewrite (events_of_run _ _ _ Ht) in *.
  destruct (H w2 [] Hcur) as (Hf & Ht2 & Hcur' & _).
  { rewrite app_nil_r. exact Hag. }
  rewrite (events_of_run _ _ _ Ht2). auto.
Qed.

(** A cycle opens with the log line of the poll and the request to Slack,
    both with the cursor it loaded. *)
Lemma poll_and_process_opening e w :
  exists rest,
    events_of (poll_and_process e) w =
    ELog INFO (LPolling (stored_cursor w))
    :: ESlackHistory SLACK_CHANNEL_ID (stored_cursor w) :: rest.
Proof.
  assert (Hpy : same_python e e) by (repeat split).
  set (w' := World (w_file w) (w_pages w)
                   ((w_trace w ++ [ELog INFO (LPolling (stored_cursor w))])
                    ++ [ESlackHistory SLACK_CHANNEL_ID (stored_cursor w)])).
  destruct (after_slack_in_step e e Hpy (stored_cursor w)
              (slack_history e (stored_cursor w)) w') as (evs & Ht & _).
  exists evs. apply events_of_run.
  unfold poll_and_process, get_last_processed_ts. run_m. fold w'.
  rewrite Ht. subst w'. cbn [w_trace]. rewrite <- !app_assoc. reflexivity.
Qed.

(** C10.  Two runs of a cycle, at different times, over databases that may
    differ and against outsides that may differ, end alike as soon as they
    start from the same checkpoint value and every request the first run
    makes (to Slack, for a page, to the LLM, to the database to query or to
    create) gets the same response in the second run.  Then the second run
    issues the same events in the same order, so the same create calls
    with the same properties; its outcome is the same; and the same
    checkpoint is persisted.  Neither run is empty: each opens with the
    poll from the common cursor.  The first run meets [e1], at events
    numbered from the length of its trace; the second meets any other
    answers from Slack, the pages, the LLM and Notion, with Python as it
    is. *)
Theorem poll_and_process_deterministic
        (e1 : env) (slack : string -> slack_response)
        (http : nat -> string -> http_response)
        (claude : nat -> string -> option string)
        (query : nat -> list properties -> json -> option bool)
        (create : nat -> properties -> bool) (w1 w2 : world) :
  let e2 := with_outside e1 slack http claude query create in
  stored_cursor w1 = stored_cursor w2 ->
  same_answers e1 e2 (length (w_trace w1)) (length (w_trace w2))
               (w_pages w1) (w_pages w2) (events_of (poll_and_process e1) w1) ->
  fst (poll_and_process e1 w1) = fst (poll_and_process e2 w2) /\
  events_of (poll_and_process e2) w2 = events_of (poll_and_process e1) w1 /\
  create_calls (events_of (poll_and_process e2) w2) =
    create_calls (events_of (poll_and_process e1) w1) /\
  stored_cursor (snd (poll_and_process e1 w1)) =
    stored_cursor (snd (poll_and_process e2 w2)) /\
  exists rest,
    events_of (poll_and_process e2) w2 =
    ELog INFO (LPolling (stored_cursor w1))
    :: ESlackHistory SLACK_CHANNEL_ID (stored_cursor w1) :: rest.
Proof.
  intros e2 Hcur Hag.
  destruct (poll_and_process_runs_alike e1 e2 w1 w2) as (Hf & Hev & Hc);
    [repeat split| exact Hcur | exact Hag |].
  rewrite Hev. repeat split; try assumption.
  apply poll_and_process_opening.
Qed.

(** Two runs that differ in everything the claim leaves open.  The first
    starts without a checkpoint file, on an empty database and an empty
    trace; the second from a file that holds the same cursor with a line
    feed after it, a database with a page, and a trace of two events.  The
    outsides answer at different moments: the page, the LLM and the create
    call are answered at events 4, 5 and 7 in the first run and at events
    6, 7 and 9 in the second, and at no other.  The first database answers
    the query from its pages, the second only at event 8.  Both runs issue
    the same create call and persist the timestamp of the message. *)
Lemma poll_and_process_deterministic_witness :
  let msg := Message "1700000200.000100"
               (Some "apply at <https://jobs.lever.co/acme/1|Acme>") in
  let details : gmap string json :=
    {[ "company_name" := JStr "Acme"; "open_role" := JStr "Engineer" ]} in
  let e1 := Env (fun _ => SlackReply true [msg])
                (fun n _ => if (n =? 4)%nat
                            then HttpResponse 200 "Acme is hiring an engineer"
                            else HttpFails)
                (fun n _ => if (n =? 5)%nat then Some "{}" else None)
                (notion_query example_env)
                (fun n _ => (n =? 7)%nat)
                (py_float example_env) (py_utc_date example_env)
                (fun _ => Some (JObj details))
                (sort_with_nan example_env) (sort_with_nan_perm example_env) in
  let e2 := with_outside e1
                (fun _ => SlackReply true [msg])
                (fun n _ => if (n =? 6)%nat
                            then HttpResponse 200 "Acme is hiring an engineer"
                            else HttpFails)
                (fun n _ => if (n =? 7)%nat then Some "{}" else None)
                (fun n _ _ => Some (negb (n =? 8)%nat))
                (fun n _ => (n =? 9)%nat) in
  let w1 := empty_world in
  let w2 := World (Some (String "0" (Str.one Str.nl)))
                  [{[ "Company Name" := PTitle (JStr "Initech") ]}]
                  [ELog INFO LStarted; ESleep INTERVAL_SECONDS] in
  (fst (poll_and_process e1 w1) = fst (poll_and_process e2 w2) /\
   events_of (poll_and_process e2) w2 = events_of (poll_and_process e1) w1 /\
   create_calls (events_of (poll_and_process e2) w2) =
     create_calls (events_of (poll_and_process e1) w1) /\
   stored_cursor (snd (poll_and_process e1 w1)) =
     stored_cursor (snd (poll_and_process e2 w2)) /\
   exists rest,
     events_of (poll_and_process e2) w2 =
     ELog INFO (LPolling (stored_cursor w1))
     :: ESlackHistory SLACK_CHANNEL_ID (stored_cursor w1) :: rest) /\
  fst (poll_and_process e1 w1) = Ok tt /\
  length (create_calls (events_of (poll_and_process e1) w1)) = 1%nat /\
  length (w_pages (snd (poll_and_process e1 w1))) = 1%nat /\
  length (w_pages (snd (poll_and_process e2 w2))) = 2%nat /\
  stored_cursor (snd (poll_and_process e2 w2)) = "1700000200.000100".
Proof.
  intros msg details e1 e2 w1 w2.
  split; [|vm_compute; repeat split; reflexivity].
  apply (poll_and_process_deterministic e1 _ _ _ _ _ w1 w2).
  - reflexivity.
  - vm_compute. repeat split; reflexivity.
Defined.

(* ================================================================== *)
(** * Further properties of the code *)

(** ** The checkpoint store *)

Module StripFacts.
Import Str StrFacts.

Lemma rev_onto_app s : forall acc, rev_onto s acc = rev_onto s "" +:+ acc.
Proof.
  induction s as [|c s IH]; intros acc; cbn [rev_onto]; [reflexivity|].
  rewrite IH, (IH (String c "")), app_assoc. reflexivity.
Qed.

Lemma rev_cons c s : rev (String c s) = rev s +:+ one c.
Proof. unfold rev. cbn [rev_onto]. apply rev_onto_app. Qed.

Lemma rev_app a b : rev (a +:+ b) = rev b +:+ rev a.
Proof.
  induction a as [|c a IH].
  - rewrite app_nil_l. change (rev "") with "". rewrite app_nil_r. reflexivity.
  - rewrite app_cons, !rev_cons, IH, app_assoc. reflexivity.
Qed.

Lemma rev_involutive s : rev (rev s) = s.
Proof.
  induction s as [|c s IH]; [reflexivity|].
  rewrite rev_cons, rev_app, IH. reflexivity.
Qed.

Lemma drop_while_head_free p s : head_free p s = true -> drop_while p s = s.
Proof.
  destruct s as [|c s]; [reflexivity|]. cbn [head_free drop_while].
  intros H. apply negb_true_iff in H. rewrite H. reflexivity.
Qed.

Lemma drop_while_is_head_free p s : head_free p (drop_while p s) = true.
Proof.
  induction s as [|c s IH]; [reflexivity|]. cbn [drop_while].
  destruct (p c) eqn:E; [exact IH|]. cbn [head_free]. rewrite E. reflexivity.
Qed.

(** [strip] leaves a string alone exactly when it has no whitespace at
    either end. *)
Lemma strip_trimmed s : trimmed s = true -> strip s = s.
Proof.
  unfold trimmed, strip, rstrip. intros H. apply andb_prop in H as [H1 H2].
  rewrite (drop_while_head_free _ _ H1), (drop_while_head_free _ _ H2).
  apply rev_involutive.
Qed.

Lemma head_free_app p a b :
  head_free p a = true -> a <> "" -> head_free p (a +:+ b) = true.
Proof. destruct a as [|c a]; [congruence|]. intros H _. exact H. Qed.

Lemma drop_while_suffix p s : exists pre, s = pre +:+ drop_while p s.
Proof. exists (take_while p s). symmetry. apply take_while_drop_while. Qed.

Lemma strip_is_trimmed s : trimmed (strip s) = true.
Proof.
  unfold trimmed, strip, rstrip.
  set (t := drop_while isspace s).
  rewrite rev_involutive, drop_while_is_head_free, andb_true_r.
  destruct (drop_while_suffix isspace (rev t)) as [pre E].
  assert (Ht : t = rev (drop_while isspace (rev t)) +:+ rev pre).
  { rewrite <- rev_app, <- E, rev_involutive. reflexivity. }
  destruct (rev (drop_while isspace (rev t))) as [|c r] eqn:Er; [reflexivity|].
  cbn [head_free]. rewrite app_cons in Ht.
  pose proof (drop_while_is_head_free isspace s) as Hh. fold t in Hh.
  rewrite Ht in Hh. exact Hh.
Qed.

Lemma all_rev p s : all p (rev s) = all p s.
Proof.
  induction s as [|c s IH]; [reflexivity|].
  rewrite rev_cons, all_app, IH. cbn [all one]. rewrite andb_true_r. apply andb_comm.
Qed.

Lemma strip_around a x b :
  all isspace a = true -> all isspace b = true ->
  x <> "" -> trimmed x = true -> strip (a +:+ x +:+ b) = x.
Proof.
  intros Ha Hb Hne Hx. unfold trimmed in Hx. apply andb_prop in Hx as [Hhead Hlast].
  unfold strip, rstrip.
  assert (H1 : drop_while isspace (a +:+ x +:+ b) = x +:+ b).
  { apply take_while_app; [exact Ha|].
    destruct x as [|c x]; [congruence|]. rewrite app_cons.
    cbn [head_free] in Hhead. apply negb_true_iff, Hhead. }
  rewrite H1, rev_app.
  assert (H2 : drop_while isspace (rev b +:+ rev x) = rev x).
  { apply take_while_app; [rewrite all_rev; exact Hb|].
    destruct (rev x) as [|c r]; [exact I|].
    cbn [head_free] in Hlast. apply negb_true_iff, Hlast. }
  rewrite H2. apply rev_involutive.
Qed.

Lemma drop_while_all p s : all p s = true -> drop_while p s = "".
Proof.
  induction s as [|c s IH]; [reflexivity|]. cbn [all drop_while].
  intros H. apply andb_prop in H as [Hc H]. rewrite Hc. apply IH, H.
Qed.

Lemma strip_all_space s : all isspace s = true -> strip s = "".
Proof. intros H. unfold strip, rstrip. rewrite (drop_while_all _ _ H). reflexivity. Qed.

(** A string is its stripped core between two runs of blanks. *)
Lemma strip_split s :
  exists a b, s = a +:+ strip s +:+ b /\ all isspace a = true /\ all isspace b = true.
Proof.
  unfold strip, rstrip. set (t := drop_while isspace s).
  exists (take_while isspace s), (rev (take_while isspace (rev t))).
  split; [|split; [apply all_take_while|rewrite all_rev; apply all_take_while]].
  rewrite <- rev_app, take_while_drop_while, rev_involutive.
  symmetry. apply take_while_drop_while.
Qed.

(** *** Reading the file in text mode *)

Lemma universal_newlines_from_head f s :
  starts_with (one nl) s = false ->
  universal_newlines_from f s = universal_newlines_from false s.
Proof.
  destruct s as [|c t]; [reflexivity|]. rewrite ReFacts.starts_with_one.
  intros Hc. cbn [universal_newlines_from].
  rewrite (Ascii.eqb_sym c nl), Hc. reflexivity.
Qed.

Lemma universal_newlines_from_app a : forall f b,
  universal_newlines_from f (a +:+ b) =
  universal_newlines_from f a +:+ universal_newlines_from (cr_state f a) b.
Proof.
  induction a as [|c a IH]; intros f b; [reflexivity|].
  rewrite app_cons. cbn [universal_newlines_from cr_state].
  destruct (Ascii.eqb c cr); [rewrite IH, app_cons; reflexivity|].
  destruct (Ascii.eqb c nl && f); rewrite IH, ?app_cons; reflexivity.
Qed.

Lemma cr_state_last f a c : cr_state f (a +:+ one c) = Ascii.eqb c cr.
Proof.
  revert f. induction a as [|x a IH]; intros f; [reflexivity|].
  rewrite app_cons. cbn [cr_state]. apply IH.
Qed.

Lemma isspace_cr c : Ascii.eqb c cr = true -> isspace c = true.
Proof. intros H. apply Ascii.eqb_eq in H as ->. reflexivity. Qed.

Lemma isspace_nl c : Ascii.eqb c nl = true -> isspace c = true.
Proof. intros H. apply Ascii.eqb_eq in H as ->. reflexivity. Qed.

Lemma not_space_plain c :
  isspace c = false -> Ascii.eqb c cr = false /\ Ascii.eqb c nl = false.
Proof.
  intros H. split.
  - destruct (Ascii.eqb c cr) eqn:E; [|reflexivity]. rewrite (isspace_cr c E) in H. discriminate.
  - destruct (Ascii.eqb c nl) eqn:E; [|reflexivity]. rewrite (isspace_nl c E) in H. discriminate.
Qed.

Lemma universal_newlines_from_space s : forall f,
  all isspace s = true -> all isspace (universal_newlines_from f s) = true.
Proof.
  induction s as [|c s IH]; intros f H; [reflexivity|].
  cbn [all] in H. apply andb_prop in H as [Hc H]. cbn [universal_newlines_from].
  destruct (Ascii.eqb c cr); [cbn [all]; rewrite (IH true H); reflexivity|].
  destruct (Ascii.eqb c nl && f); [apply IH, H|].
  cbn [all]. rewrite Hc. apply IH, H.
Qed.

(** A string without a carriage return is read as it is stored. *)
Lemma universal_newlines_plain s :
  contains (one cr) s = false -> universal_newlines s = s.
Proof.
  intros H. unfold universal_newlines.
  assert (Hall : all (fun x => negb (Ascii.eqb x cr)) s = true)
    by (rewrite all_not_contains, H; reflexivity).
  clear H. induction s as [|c s IH]; [reflexivity|].
  cbn [all] in Hall. apply andb_prop in Hall as [Hc Hall].
  apply negb_true_iff in Hc. cbn [universal_newlines_from].
  rewrite Hc, andb_false_r, (IH Hall). reflexivity.
Qed.

(** Reading keeps a core without blanks at its ends free of blanks at its
    ends. *)
Lemma universal_newlines_trimmed core :
  core <> "" -> trimmed core = true ->
  universal_newlines core <> "" /\ trimmed (universal_newlines core) = true /\
  cr_state false core = false /\ starts_with (one nl) core = false.
Proof.
  intros Hne Hcore. unfold trimmed in Hcore. apply andb_prop in Hcore as [Hhead Hlast].
  destruct core as [|h t]; [congruence|]. cbn [head_free] in Hhead.
  apply negb_true_iff in Hhead. destruct (not_space_plain h Hhead) as [Hcr Hnl].
  assert (Hfirst : universal_newlines (String h t)
                   = String h (universal_newlines_from false t)).
  { unfold universal_newlines. cbn [universal_newlines_from].
    rewrite Hcr, andb_false_r. reflexivity. }
  destruct (rev (String h t)) as [|c r] eqn:Er.
  { apply (f_equal rev) in Er. rewrite rev_involutive in Er. discriminate. }
  cbn [head_free] in Hlast. apply negb_true_iff in Hlast.
  destruct (not_space_plain c Hlast) as [Hccr Hcnl].
  assert (Hsplit : String h t = rev r +:+ one c).
  { rewrite <- (rev_involutive (String h t)), Er, rev_cons. reflexivity. }
  split; [rewrite Hfirst; discriminate|]. split; [|split].
  - unfold trimmed. rewrite Hfirst at 1. cbn [head_free]. rewrite Hhead. cbn [negb andb].
    unfold universal_newlines. rewrite Hsplit, universal_newlines_from_app.
    unfold one. cbn [universal_newlines_from]. rewrite Hccr, Hcnl. cbn [andb].
    rewrite rev_app. change (rev (String c "")) with (String c "").
    rewrite app_cons. cbn [head_free]. rewrite Hlast. reflexivity.
  - rewrite Hsplit. rewrite cr_state_last. exact Hccr.
  - rewrite ReFacts.starts_with_one, Ascii.eqb_sym. exact Hnl.
Qed.

(** Reading and stripping a file gives what reading and stripping its
    stripped content gives. *)
Lemma strip_universal_newlines s :
  strip (universal_newlines (strip s)) = strip (universal_newlines s).
Proof.
  destruct (strip_split s) as (a & b & Hs & Ha & Hb).
  pose proof (strip_is_trimmed s) as Htr.
  set (core := strip s) in *.
  destruct core as [|h t] eqn:Ecore.
  - rewrite Hs. change (strip (universal_newlines "")) with "".
    symmetry. apply strip_all_space. apply universal_newlines_from_space.
    rewrite app_nil_l, all_app, Ha, Hb. reflexivity.
  - rewrite <- Ecore in *.
    assert (Hne : core <> "") by (rewrite Ecore; discriminate).
    destruct (universal_newlines_trimmed core Hne Htr) as (Hne' & Htr' & Hst & Hhd).
    rewrite (strip_trimmed _ Htr'). rewrite Hs at 1. unfold universal_newlines at 2.
    rewrite universal_newlines_from_app.
    rewrite (universal_newlines_from_head (cr_state false a) (core +:+ b)).
    2:{ rewrite Ecore, app_cons. rewrite Ecore in Hhd. exact Hhd. }
    rewrite universal_newlines_from_app, Hst.
    symmetry. apply strip_around; try assumption;
      apply universal_newlines_from_space; assumption.
Qed.

End StripFacts.

(** X1.  Saving a cursor and loading it again gives the cursor back when it
    has no whitespace at either end and holds no carriage return, as Slack
    timestamps do: reading turns a carriage return into a line feed, and
    stripping removes whitespace at the ends. *)
Theorem checkpoint_round_trip (ts : string) (w : world) :
  trimmed ts = true ->
  Str.contains (Str.one Str.cr) ts = false ->
  fst (get_last_processed_ts (snd (save_last_processed_ts ts w))) = Ok ts.
Proof.
  intros H Hcr. unfold get_last_processed_ts, save_last_processed_ts, stored_cursor.
  cbn [fst snd w_file].
  rewrite (StripFacts.universal_newlines_plain ts Hcr), (StripFacts.strip_trimmed ts H).
  reflexivity.
Qed.

Lemma checkpoint_round_trip_witness :
  fst (get_last_processed_ts
         (snd (save_last_processed_ts "1700000200.000100" empty_world)))
  = Ok "1700000200.000100".
Proof. apply checkpoint_round_trip; reflexivity. Defined.

(** X2.  Whatever the file holds, the cursor that is loaded has no
    whitespace at either end, and loading does not depend on whitespace
    around the stored value: a file edited by hand, with a trailing
    newline, loads as the same cursor. *)
Theorem loaded_cursor_is_trimmed (content : string) (pages : list properties)
        (trace : list event) :
  trimmed (stored_cursor (World (Some content) pages trace)) = true /\
  stored_cursor (World (Some (Str.strip content)) pages trace)
    = stored_cursor (World (Some content) pages trace).
Proof.
  unfold stored_cursor. cbn [w_file]. split.
  - apply StripFacts.strip_is_trimmed.
  - apply StripFacts.strip_universal_newlines.
Qed.

(** ** [extract_urls] *)

Module UrlFacts.
Import Str StrFacts ExtractFacts.

Lemma contains_suffix u a b : contains u b = true -> contains u (a +:+ b) = true.
Proof.
  intros H. apply contains_iff in H as (x & y & ->).
  rewrite <- app_assoc. apply contains_app.
Qed.

Lemma contains_prefix u a b : contains u a = true -> contains u (a +:+ b) = true.
Proof.
  intros H. apply contains_iff in H as (x & y & ->).
  rewrite !app_assoc. apply contains_app.
Qed.

Lemma contains_trans a b c :
  contains a b = true -> contains b c = true -> contains a c = true.
Proof.
  intros Hab Hbc. apply contains_iff in Hbc as (x & y & ->).
  apply contains_suffix, contains_prefix, Hab.
Qed.

Lemma contains_self u : contains u u = true.
Proof.
  rewrite <- (app_nil_r u) at 2. change (u +:+ "") with ("" +:+ u +:+ "") at 1.
  apply contains_app.
Qed.

Lemma bracket_link_at_shape text u after :
  bracket_link_at text u after ->
  url_shaped u /\ contains u text = true /\ exists pre, text = pre +:+ after.
Proof.
  intros H. destruct H as [sch body after Hs Hne Hb|sch body label after Hs Hne Hb Hl].
  - split; [exists sch, body; auto|]. split; [apply contains_app|].
    exists ("<" +:+ (sch +:+ body) +:+ ">"). rewrite !app_assoc. reflexivity.
  - split; [exists sch, body; auto|]. split; [apply contains_app|].
    exists ("<" +:+ (sch +:+ body) +:+ "|" +:+ label +:+ ">").
    rewrite !app_assoc. reflexivity.
Qed.

Lemma bracket_links_shape text l :
  bracket_links text l ->
  Forall (fun u => url_shaped u /\ contains u text = true) l.
Proof.
  induction 1 as [|text u after us Hat _ IH|c text us Hno _ IH]; [constructor| |].
  - destruct (bracket_link_at_shape _ _ _ Hat) as (Hs & Hc & pre & ->).
    constructor; [split; assumption|].
    eapply Forall_impl; [exact IH|]. intros x [Hx Hcx]. split; [exact Hx|].
    apply contains_suffix, Hcx.
  - eapply Forall_impl; [exact IH|]. intros x [Hx Hcx]. split; [exact Hx|].
    change (String c text) with (one c +:+ text). apply contains_suffix, Hcx.
Qed.

Lemma bare_links_shape text l :
  bare_links text l ->
  Forall (fun u => url_shaped u /\ contains u text = true) l.
Proof.
  induction 1 as [|text u after us Hat _ IH|c text us Hno _ IH]; [constructor| |].
  - destruct Hat as [sch body after Hs Hne Hb Hstop].
    constructor.
    + split; [exists sch, body; auto|]. apply contains_prefix, contains_self.
    + eapply Forall_impl; [exact IH|]. intros x [Hx Hcx]. split; [exact Hx|].
      apply contains_suffix, Hcx.
  - eapply Forall_impl; [exact IH|]. intros x [Hx Hcx]. split; [exact Hx|].
    change (String c text) with (one c +:+ text). apply contains_suffix, Hcx.
Qed.

Lemma url_shaped_has_http u : url_shaped u -> contains "http" u = true.
Proof.
  intros (sch & body & [-> | ->] & _ & ->).
  - change ("http://" +:+ body) with ("" +:+ "http" +:+ ("://" +:+ body)).
    apply contains_app.
  - change ("https://" +:+ body) with ("" +:+ "http" +:+ ("s://" +:+ body)).
    apply contains_app.
Qed.

Lemma url_shaped_nonempty u : url_shaped u -> u <> "".
Proof. intros (sch & body & [-> | ->] & _ & ->); discriminate. Qed.

End UrlFacts.

Lemma extract_urls_shape (text : string) :
  Forall (fun u => url_shaped u /\ Str.contains u text = true) (extract_urls text).
Proof.
  unfold extract_urls.
  destruct (Re.findall_group SLACK_URL_RE text) as [|u us] eqn:E.
  - apply UrlFacts.bare_links_shape, ExtractFacts.bare_links_findall.
  - rewrite <- E. apply UrlFacts.bracket_links_shape, ExtractFacts.bracket_links_findall.
Qed.

(** X3.  Every URL the extractor returns is a piece of the message text,
    begins with http:// or https:// and goes on for at least one more
    character: the extractor makes up no URL and returns no bare scheme. *)
Theorem extract_urls_from_text (text : string) :
  Forall (fun u => url_shaped u /\ Str.contains u text = true) (extract_urls text).
Proof. exact (extract_urls_shape text). Qed.

(** X4.  A message whose text does not contain the letters http yields no
    URL at all. *)
Theorem extract_urls_needs_scheme (text : string) :
  Str.contains "http" text = false -> extract_urls text = [].
Proof.
  intros Hno. pose proof (extract_urls_shape text) as H.
  destruct (extract_urls text) as [|u us]; [reflexivity|].
  inversion H as [|? ? [Hs Hc] _]; subst.
  pose proof (UrlFacts.contains_trans _ _ _ (UrlFacts.url_shaped_has_http u Hs) Hc).
  congruence.
Qed.

Lemma extract_urls_needs_scheme_witness :
  extract_urls "standup moved to 3pm, see ftp://files/agenda" = [].
Proof. apply extract_urls_needs_scheme. reflexivity. Defined.

(** ** [decode_linkedin_activity_date] *)

Module DateFacts.
Import Calendar CalendarFacts.

(** A date of the calendar that is not before the epoch and not after
    9999-12-31 has a year of four digits. *)
Lemma year_bounds d :
  valid d -> 0 <= to_days d <= 2932896 -> 1970 <= year d <= 9999.
Proof.
  unfold valid. rewrite validb_spec. destruct d as [y m a]. cbn [year month day].
  intros [Hm Hd] Hz. unfold to_days in Hz. cbn [year month day] in Hz.
  pose proof (day_of_year_bounds y m a Hm Hd) as B.
  pose proof (days_before_year_succ y) as S.
  assert (E1 : days_before_year 1970 = 719162) by reflexivity.
  assert (E2 : days_before_year 10000 = 3652059) by reflexivity.
  split.
  - destruct (Z_lt_le_dec y 1970) as [Hlt|]; [|assumption].
    pose proof (days_before_year_mono (y + 1) 1970 ltac:(lia)). lia.
  - destruct (Z_lt_le_dec 9999 y) as [Hlt|]; [|assumption].
    pose proof (days_before_year_mono 10000 y ltac:(lia)). lia.
Qed.

Lemma code_digit n : Z.of_nat (Str.code (digit n) - 48) = n mod 10.
Proof.
  unfold digit, Str.code.
  pose proof (Z.mod_pos_bound n 10 ltac:(lia)) as Hb.
  rewrite nat_ascii_embedding by lia. lia.
Qed.

Lemma int_of_pad2 n : 0 <= n <= 99 -> int_of_digits (pad2 n) = n.
Proof.
  intros H. unfold int_of_digits, pad2. cbn [int_of_digits_from].
  rewrite !code_digit. Z.div_mod_to_equations; lia.
Qed.

Lemma int_of_pad4 n : 0 <= n <= 9999 -> int_of_digits (pad4 n) = n.
Proof.
  intros H. unfold int_of_digits, pad4, pad2. cbn [int_of_digits_from].
  rewrite !code_digit. Z.div_mod_to_equations; lia.
Qed.

Lemma int_of_digits_from_nonneg s : forall acc, 0 <= acc -> 0 <= int_of_digits_from acc s.
Proof.
  induction s as [|c s IH]; intros acc H; cbn [int_of_digits_from]; [exact H|].
  apply IH. lia.
Qed.

Lemma valid_month_day d :
  valid d -> 1 <= month d <= 12 /\ 1 <= day d <= 31.
Proof.
  unfold valid. rewrite validb_spec. destruct d as [y m a]. cbn [year month day].
  intros [Hm Hd]. split; [exact Hm|].
  unfold days_in_month in Hd.
  month_cases m; cbn -[is_leap] in Hd; destruct (is_leap y); cbn in Hd; lia.
Qed.

End DateFacts.

(** X5.  A date string the decoder returns is well formed: it is the
    ten-character YYYY-MM-DD form of a date of the calendar between
    1970-01-01 and 9999-12-31, and reading its three fields back with
    [int] gives the year, the month and the day of that date. *)
Theorem decode_linkedin_activity_date_format (url s : string) :
  decode_linkedin_activity_date url = Ok (Some s) ->
  exists d,
    Calendar.valid d /\ 1970 <= Calendar.year d <= 9999 /\
    s = Calendar.strftime_ymd d /\
    String.length s = 10%nat /\
    int_of_digits (slice 0 4 s) = Calendar.year d /\
    slice 4 5 s = "-" /\
    int_of_digits (slice 5 7 s) = Calendar.month d /\
    slice 7 8 s = "-" /\
    int_of_digits (slice 8 10 s) = Calendar.day d.
Proof.
  unfold decode_linkedin_activity_date, py_int.
  destruct (Re.search ACTIVITY_RE url) as [m|]; [|discriminate].
  destruct (String.length _ <=? INT_MAX_STR_DIGITS)%nat; [|discriminate].
  cbv zeta. unfold datetime_fromtimestamp_ms.
  set (ms := Z.shiftr (int_of_digits (default "" (Re.m_group m))) 22).
  assert (Hms : 0 <= ms).
  { unfold ms. apply Z.shiftr_nonneg, DateFacts.int_of_digits_from_nonneg. lia. }
  destruct (ms <? MAX_TIMESTAMP_MS) eqn:E; [|discriminate].
  apply Z.ltb_lt in E. unfold MAX_TIMESTAMP_MS in E. intros [= <-].
  set (z := ms / 86400000).
  assert (Hz : 0 <= z <= 2932896) by (unfold z; Z.div_mod_to_equations; lia).
  destruct (CalendarFacts.of_days_correct z) as [Hv Hd].
  exists (Calendar.of_days z).
  pose proof (DateFacts.year_bounds _ Hv ltac:(rewrite Hd; exact Hz)) as Hy.
  destruct (DateFacts.valid_month_day _ Hv) as [Hm Hday].
  split; [exact Hv|]. split; [exact Hy|]. split; [reflexivity|].
  split; [reflexivity|].
  split; [apply DateFacts.int_of_pad4; lia|]. split; [reflexivity|].
  split; [apply DateFacts.int_of_pad2; lia|]. split; [reflexivity|].
  apply DateFacts.int_of_pad2; lia.
Qed.

Lemma decode_linkedin_activity_date_format_witness :
  exists d,
    Calendar.valid d /\ 1970 <= Calendar.year d <= 9999 /\
    "2023-01-16" = Calendar.strftime_ymd d /\
    String.length "2023-01-16" = 10%nat /\
    int_of_digits (slice 0 4 "2023-01-16") = Calendar.year d /\
    slice 4 5 "2023-01-16" = "-" /\
    int_of_digits (slice 5 7 "2023-01-16") = Calendar.month d /\
    slice 7 8 "2023-01-16" = "-" /\
    int_of_digits (slice 8 10 "2023-01-16") = Calendar.day d.
Proof.
  apply (decode_linkedin_activity_date_format
           "https://www.linkedin.com/posts/jane_hiring-activity-7020656157437648896-AbCd").
  vm_compute. reflexivity.
Defined.

(** ** [extract_job_urls_from_page] *)

Module SniffFacts.
Import Str StrFacts StripFacts.

Lemma sniff_inv_init source_url : sniff_inv source_url ([], ∅).
Proof.
  repeat split; cbn; try constructor; try contradiction. set_solver.
Qed.

Lemma job_url_step_inv source_url st url :
  sniff_inv source_url st -> sniff_inv source_url (job_url_step source_url st url).
Proof.
  destruct st as [job_urls seen]. intros H0. pose proof H0 as (Hseen & Hnd & Hall).
  unfold job_url_step.
  set (u := rstrip (fun c => Ascii.eqb c ".") url).
  destruct (String.eqb_spec u source_url) as [|Hne]; [exact H0|].
  destruct (existsb _ JOB_BOARD_PATTERNS) eqn:Hpat; [|exact H0].
  case_bool_decide as Hin; [exact H0|].
  unfold sniff_inv. cbn [fst snd] in *. split; [|split].
  - intros x. rewrite elem_of_union, elem_of_singleton, Hseen, in_app_iff. cbn [In].
    intuition congruence.
  - apply NoDup_app. split; [exact Hnd|]. split; [|repeat constructor; set_solver].
    intros x Hx Hx'. apply list_elem_of_In in Hx. apply Hseen in Hx.
    apply list_elem_of_singleton in Hx'. subst x. contradiction.
  - apply Forall_app. split; [exact Hall|]. constructor; [|constructor].
    split; [exact Hne|]. split; [exact Hpat|].
    unfold u, rstrip. rewrite rev_involutive. apply drop_while_is_head_free.
Qed.

Lemma fold_job_url_step_inv source_url raw_urls : forall st,
  sniff_inv source_url st ->
  sniff_inv source_url (fold_left (job_url_step source_url) raw_urls st).
Proof.
  induction raw_urls as [|url rest IH]; intros st H; cbn [fold_left]; [exact H|].
  apply IH, job_url_step_inv, H.
Qed.

End SniffFacts.

Lemma extract_job_urls_from_page_run (page_content source_url : string) (w : world) :
  exists job_urls,
    fst (extract_job_urls_from_page page_content source_url w) = Ok job_urls /\
    NoDup job_urls /\
    Forall (sniffed source_url) job_urls.
Proof.
  unfold extract_job_urls_from_page. run_m. eexists. split; [reflexivity|].
  destruct (SniffFacts.fold_job_url_step_inv source_url
              (Re.findall RAW_URL_RE page_content) ([], ∅)
              (SniffFacts.sniff_inv_init source_url)) as (_ & Hnd & Hall).
  split; assumption.
Qed.

(** X6.  The sniffer never raises, and its result holds no URL twice, never
    the source URL itself, and only URLs that contain one of the job board
    patterns and do not end with a period. *)
Theorem extract_job_urls_from_page_sound (page_content source_url : string) (w : world) :
  exists job_urls,
    fst (extract_job_urls_from_page page_content source_url w) = Ok job_urls /\
    NoDup job_urls /\
    Forall (sniffed source_url) job_urls.
Proof. exact (extract_job_urls_from_page_run page_content source_url w). Qed.

(** ** [create_notion_entry] *)

Module NotionFacts.

Lemma json_eq_str_true v s : json_eq_str v s = true -> v = JStr s.
Proof.
  destruct v; cbn [json_eq_str]; try discriminate.
  intros H. apply String.eqb_eq in H. congruence.
Qed.

Lemma truthy_py_or a b : truthy b = true -> truthy (py_or a b) = true.
Proof. intros Hb. unfold py_or. destruct (truthy a) eqn:E; assumption. Qed.

Lemma add_text_properties_typed mappings : forall props,
  Forall (fun pv => In (fst pv) ["Open Role"; "Location"; "Compensation Range"; "Source"])
         mappings ->
  map_Forall well_typed props ->
  map_Forall well_typed (add_text_properties mappings props).
Proof.
  unfold add_text_properties.
  induction mappings as [|[k v] mappings IH]; intros props Hk Hp; [exact Hp|].
  inversion Hk as [|? ? Hk1 Hk2]; subst. cbn [fold_left fst snd] in *.
  apply IH; [exact Hk2|].
  destruct (truthy v) eqn:E; [|exact Hp].
  apply map_Forall_insert_2; [|exact Hp]. split; assumption.
Qed.

Lemma build_properties_typed details source job_listed_date :
  map_Forall well_typed (build_properties details source job_listed_date).
Proof.
  unfold build_properties. cbv zeta.
  set (base := add_text_properties _ _).
  assert (Hbase : map_Forall well_typed base).
  { apply add_text_properties_typed.
    - repeat constructor; cbn; tauto.
    - apply map_Forall_singleton. split; [reflexivity|].
      apply truthy_py_or. reflexivity. }
  set (with_link := if truthy (dict_get details "link_to_apply") then _ else base).
  assert (Hlink : map_Forall well_typed with_link).
  { unfold with_link. destruct (truthy _) eqn:E; [|exact Hbase].
    apply map_Forall_insert_2; [split; [reflexivity|exact E]|exact Hbase]. }
  set (jt := dict_get_default details "job_type" (JStr "Full-time")).
  set (with_type := if json_eq_str jt "Full-time" || json_eq_str jt "Part-time"
                    then _ else with_link).
  assert (Htype : map_Forall well_typed with_type).
  { unfold with_type. destruct (json_eq_str jt "Full-time") eqn:E1; cbn [orb].
    - apply map_Forall_insert_2; [|exact Hlink]. split; [reflexivity|]. left.
      apply json_eq_str_true, E1.
    - destruct (json_eq_str jt "Part-time") eqn:E2; [|exact Hlink].
      apply map_Forall_insert_2; [|exact Hlink]. split; [reflexivity|]. right.
      apply json_eq_str_true, E2. }
  destruct (truthy job_listed_date) eqn:E; [|exact Htype].
  apply map_Forall_insert_2; [split; [reflexivity|exact E]|exact Htype].
Qed.

Lemma build_properties_title details source job_listed_date :
  build_properties details source job_listed_date !! "Company Name" =
  Some (PTitle (py_or (dict_get details "company_name") (JStr "Unknown"))).
Proof.
  unfold build_properties. cbv zeta.
  set (base := add_text_properties _ _).
  assert (Hbase : base !! "Company Name"
                  = Some (PTitle (py_or (dict_get details "company_name") (JStr "Unknown")))).
  { unfold base. rewrite add_text_properties_other.
    - apply lookup_singleton_eq.
    - repeat constructor; discriminate. }
  set (jt := dict_get_default details "job_type" (JStr "Full-time")).
  destruct (json_eq_str jt "Full-time" || json_eq_str jt "Part-time");
    destruct (truthy job_listed_date);
    destruct (truthy (dict_get details "link_to_apply"));
    rewrite ?(lookup_insert_ne _ "Job Listed Date" "Company Name") by discriminate;
    rewrite ?(lookup_insert_ne _ "Job Type" "Company Name") by discriminate;
    rewrite ?(lookup_insert_ne _ "Link to Apply" "Company Name") by discriminate;
    exact Hbase.
Qed.

(** One call of [create_notion_entry], seen from outside: the call never
    raises; it issues a create call unless the existence query answered
    that a record exists; it returns [True] exactly when it adds a page,
    which is then the property dictionary of the create call. *)
Lemma create_notion_entry_run e details source job_listed_date w :
  let c := create_notion_entry e details source job_listed_date in
  let props := build_properties details source job_listed_date in
  let link := dict_get details "link_to_apply" in
  let dup := truthy link
             && bool_decide (notion_query e (length (w_trace w)) (w_pages w) link
                             = Some true) in
  exists evs added created,
    run_adds c w evs added /\
    fst (c w) = Ok created /\
    create_calls evs = (if dup then [] else [props]) /\
    added = (if created then [props] else []) /\
    (created = true -> dup = false) /\
    forallb is_inner evs = true /\
    count is_success_reaction evs = 0%nat.
Proof.
  cbv zeta. unfold run_adds.
  destruct (create_notion_entry_cases e details source job_listed_date w)
    as [(Ht & Hq & E) | (pre & n & Hpre & _ & [(_ & E) | (_ & E)])];
    rewrite !E; cbn [fst snd w_file w_pages w_trace].
  - rewrite Ht, Hq. cbn [andb]. rewrite bool_decide_eq_true_2 by reflexivity.
    exists [ENotionQuery (dict_get details "link_to_apply");
            ELog INFO (LDuplicate (dict_get details "link_to_apply"))], [], false.
    repeat split; try reflexivity; try discriminate.
    symmetry. apply app_nil_r.
  - assert (Hquiet : forallb is_inner pre = true /\ count is_success_reaction pre = 0%nat).
    { destruct Hpre as [[_ ->] | [(_ & _ & ->) | (_ & _ & ->)]]; split; reflexivity. }
    assert (Hcalls : create_calls pre = []).
    { destruct Hpre as [[_ ->] | [(_ & _ & ->) | (_ & _ & ->)]]; reflexivity. }
    assert (Hdup : truthy (dict_get details "link_to_apply")
                   && bool_decide (notion_query e (length (w_trace w)) (w_pages w)
                                     (dict_get details "link_to_apply") = Some true)
                   = false).
    { destruct Hpre as [[-> _] | [(_ & -> & _) | (_ & -> & _)]];
        [reflexivity|apply andb_false_r|apply andb_false_r]. }
    rewrite Hdup. eexists _, [_], true.
    split; [repeat split; reflexivity|]. split; [reflexivity|].
    split; [rewrite create_calls_app, Hcalls; reflexivity|].
    split; [reflexivity|]. split; [reflexivity|].
    destruct Hquiet as [Hq1 Hq2].
    rewrite forallb_app, count_app, Hq1, Hq2. split; reflexivity.
  - assert (Hquiet : forallb is_inner pre = true /\ count is_success_reaction pre = 0%nat).
    { destruct Hpre as [[_ ->] | [(_ & _ & ->) | (_ & _ & ->)]]; split; reflexivity. }
    assert (Hcalls : create_calls pre = []).
    { destruct Hpre as [[_ ->] | [(_ & _ & ->) | (_ & _ & ->)]]; reflexivity. }
    assert (Hdup : truthy (dict_get details "link_to_apply")
                   && bool_decide (notion_query e (length (w_trace w)) (w_pages w)
                                     (dict_get details "link_to_apply") = Some true)
                   = false).
    { destruct Hpre as [[-> _] | [(_ & -> & _) | (_ & -> & _)]];
        [reflexivity|apply andb_false_r|apply andb_false_r]. }
    rewrite Hdup. eexists _, [], false.
    split; [repeat split; try reflexivity; symmetry; apply app_nil_r|].
    split; [reflexivity|].
    split; [rewrite create_calls_app, Hcalls; reflexivity|].
    split; [reflexivity|]. split; [discriminate|].
    destruct Hquiet as [Hq1 Hq2].
    rewrite forallb_app, count_app, Hq1, Hq2. split; reflexivity.
Qed.

End NotionFacts.

(** ** A frame for the code inside a cycle *)

Section Keeps.
Context (R : list event -> list properties -> Prop).
Context (R_nil : R [] []).
Context (R_app : forall e1 a1 e2 a2, R e1 a1 -> R e2 a2 -> R (e1 ++ e2) (a1 ++ a2)).

Lemma run_adds_nil {A} (c : M A) w : snd (c w) = w -> run_adds c w [] [].
Proof. intros E. unfold run_adds. rewrite E, !app_nil_r. repeat split. Qed.

Lemma keeps_ret {A} (a : A) (Q : A -> Prop) : Q a -> keeps R (ret a) Q.
Proof.
  intros Ha w. exists [], []. split; [apply run_adds_nil; reflexivity|].
  split; [exact R_nil|]. intros a' [= <-]. exact Ha.
Qed.

Lemma keeps_raise {A} (x : exn) (Q : A -> Prop) : keeps R (raise x) Q.
Proof.
  intros w. exists [], []. split; [apply run_adds_nil; reflexivity|].
  split; [exact R_nil|]. intros a' [=].
Qed.

Lemma keeps_pure {A} (f : world -> A) (Q : A -> Prop) :
  (forall w, Q (f w)) -> keeps R (fun w => (Ok (f w), w)) Q.
Proof.
  intros HQ w. exists [], []. split; [apply run_adds_nil; reflexivity|].
  split; [exact R_nil|]. intros a' [= <-]. apply HQ.
Qed.

Lemma keeps_emit ev : R [ev] [] -> keeps R (emit ev) (fun _ => True).
Proof.
  intros Hev w. exists [ev], []. unfold run_adds, emit. cbn [fst snd w_file w_pages w_trace].
  rewrite app_nil_r. repeat split. exact Hev.
Qed.

Lemma keeps_post {A} (c : M A) (Q Q' : A -> Prop) :
  (forall a, Q a -> Q' a) -> keeps R c Q -> keeps R c Q'.
Proof.
  intros HQ Hc w. destruct (Hc w) as (evs & added & Hrun & HR & Hq).
  exists evs, added. split; [exact Hrun|]. split; [exact HR|]. intros a Ha. apply HQ, Hq, Ha.
Qed.

Lemma keeps_bind {A B} (c : M A) (k : A -> M B) (Q1 : A -> Prop) (Q2 : B -> Prop) :
  keeps R c Q1 -> (forall a, Q1 a -> keeps R (k a) Q2) -> keeps R (bind c k) Q2.
Proof.
  intros Hc Hk w. unfold bind.
  destruct (Hc w) as (evs & added & (Hf & Ht & Hp) & HR & Hq).
  unfold run_adds. cbv beta.
  destruct (c w) as [[a|x] w1]; cbn [fst snd] in *.
  - destruct (Hk a (Hq a eq_refl) w1) as (evs2 & added2 & (Hf2 & Ht2 & Hp2) & HR2 & Hq2).
    exists (evs ++ evs2), (added ++ added2). split; [|split].
    + rewrite Hf2, Ht2, Hp2, Hf, Ht, Hp, <- !app_assoc. repeat split.
    + apply R_app; assumption.
    + exact Hq2.
  - exists evs, added. split; [repeat split; assumption|]. split; [exact HR|].
    intros b [=].
Qed.

Lemma keeps_for_each {A} (body : A -> M unit) (P : A -> Prop) l :
  (forall a, P a -> keeps R (body a) (fun _ => True)) ->
  Forall P l -> keeps R (for_each body l) (fun _ => True).
Proof.
  intros Hb Hl. induction Hl as [|a l Ha _ IH]; cbn [for_each].
  - apply keeps_ret. exact I.
  - eapply keeps_bind; [apply Hb, Ha|]. intros _ _. exact IH.
Qed.

End Keeps.

Lemma run_adds_unique {A} (c : M A) w evs1 added1 evs2 added2 :
  run_adds c w evs1 added1 -> run_adds c w evs2 added2 ->
  evs1 = evs2 /\ added1 = added2.
Proof.
  intros (_ & Ht1 & Hp1) (_ & Ht2 & Hp2). rewrite Ht1 in Ht2. rewrite Hp1 in Hp2.
  split; eapply app_inv_head; eassumption.
Qed.

(** ** The invariant of a cycle *)

Module CycleFacts.

Lemma cycle_inv_nil : cycle_inv [] [].
Proof. repeat split; try constructor. Qed.

Lemma cycle_inv_app e1 a1 e2 a2 :
  cycle_inv e1 a1 -> cycle_inv e2 a2 -> cycle_inv (e1 ++ e2) (a1 ++ a2).
Proof.
  intros (Hi1 & Hc1 & Hp1 & Hs1) (Hi2 & Hc2 & Hp2 & Hs2). unfold cycle_inv.
  rewrite forallb_app, Hi1, Hi2, count_app, Hc1, Hc2, length_app, create_calls_app.
  repeat split; [apply Forall_app; split; assumption|apply sublist_app; assumption].
Qed.

(** An event that is neither a create call nor a success reaction. *)
Lemma cycle_inv_event ev :
  is_inner ev = true -> is_success_reaction ev = false -> is_create_call ev = false ->
  cycle_inv [ev] [].
Proof.
  intros Hi Hs Hc. unfold cycle_inv, count. cbn [forallb List.filter].
  rewrite Hi, Hs. repeat split.
  - destruct ev; try discriminate; constructor.
  - destruct ev; try discriminate; constructor.
Qed.

End CycleFacts.

(** Breaks a goal [keeps cycle_inv c Q], with [Q] trivial, down along the
    structure of [c]. *)
Ltac keeps_cycle :=
  repeat first
    [ apply (keeps_ret _ CycleFacts.cycle_inv_nil _ (fun _ => True)); exact I
    | apply (keeps_raise _ CycleFacts.cycle_inv_nil)
    | apply (keeps_pure _ CycleFacts.cycle_inv_nil
                        (fun w => length (w_trace w)) (fun _ => True));
        intros; exact I
    | apply keeps_emit; apply CycleFacts.cycle_inv_event; reflexivity
    | eapply (keeps_bind _ CycleFacts.cycle_inv_app);
        [|intros ? _]
    | match goal with
      | |- keeps _ (if ?b then _ else _) _ => destruct b
      | |- keeps _ (match ?x with _ => _ end) _ => destruct x
      end ].

Module CycleSteps.
Import CycleFacts.

Lemma keeps_fetch_page_content e url :
  keeps cycle_inv (fetch_page_content e url)
        (fun content => (String.length content <= FETCH_LIMIT)%nat).
Proof.
  unfold fetch_page_content, log.
  eapply (keeps_bind _ cycle_inv_app); [keeps_cycle|intros n _].
  eapply (keeps_bind _ cycle_inv_app); [keeps_cycle|intros _ _].
  destruct (http_get e n url) as [|status text].
  - eapply (keeps_bind _ cycle_inv_app); [keeps_cycle|intros _ _]. apply (keeps_ret _ cycle_inv_nil). cbn. lia.
  - destruct (raise_for_status status).
    + eapply (keeps_bind _ cycle_inv_app); [keeps_cycle|intros _ _]. apply (keeps_ret _ cycle_inv_nil). cbn. lia.
    + apply (keeps_ret _ cycle_inv_nil). apply length_take_le.
Qed.

Lemma sniffed_nonempty source u : sniffed source u -> u <> "".
Proof. intros (_ & H & _) ->. discriminate H. Qed.

Lemma keeps_extract_job_urls_from_page content source :
  keeps cycle_inv (extract_job_urls_from_page content source)
        (fun job_urls => Forall (fun u => u <> "") job_urls).
Proof.
  intros w.
  destruct (extract_job_urls_from_page_run content source w) as (urls & Hok & _ & Hall).
  revert Hok. unfold extract_job_urls_from_page, log.
  set (job_urls := fst (fold_left _ _ _)). intros Hok.
  assert (K : keeps cycle_inv
                (emit (ELog INFO (LFoundJobUrls job_urls)) ;;; ret job_urls)
                (fun l => l = job_urls)).
  { eapply (keeps_bind _ cycle_inv_app); [keeps_cycle|intros _ _]. apply (keeps_ret _ cycle_inv_nil). reflexivity. }
  destruct (K w) as (evs & added & Hrun & HR & Hq).
  exists evs, added. split; [exact Hrun|]. split; [exact HR|].
  intros a Ha. rewrite Hok in Ha. injection Ha as <-.
  eapply Forall_impl; [exact Hall|]. intros u. apply sniffed_nonempty.
Qed.

Lemma keeps_extract_job_details e content url source ctx :
  keeps cycle_inv (extract_job_details e content url source ctx) (fun _ => True).
Proof. unfold extract_job_details, log. keeps_cycle. Qed.

Lemma build_properties_source details source job_listed_date :
  source <> "" ->
  build_properties details source job_listed_date !! "Source"
  = Some (PRichText (JStr source)).
Proof.
  intros Hne. unfold build_properties. cbv zeta.
  set (base := add_text_properties _ _).
  assert (Hbase : base !! "Source" = Some (PRichText (JStr source))).
  { unfold base, add_text_properties. cbn [fold_left fst snd truthy].
    destruct source; [congruence|]. cbn [Str.nonempty]. apply lookup_insert_eq. }
  set (jt := dict_get_default details "job_type" (JStr "Full-time")).
  destruct (json_eq_str jt "Full-time" || json_eq_str jt "Part-time");
    destruct (truthy job_listed_date);
    destruct (truthy (dict_get details "link_to_apply"));
    rewrite ?(lookup_insert_ne _ "Job Listed Date" "Source") by discriminate;
    rewrite ?(lookup_insert_ne _ "Job Type" "Source") by discriminate;
    rewrite ?(lookup_insert_ne _ "Link to Apply" "Source") by discriminate;
    exact Hbase.
Qed.

(** A dictionary with an apply link and a source gives a page as a cycle
    creates it. *)
Lemma build_properties_ok details source job_listed_date :
  truthy (dict_get details "link_to_apply") = true -> source <> "" ->
  page_ok (build_properties details source job_listed_date).
Proof.
  intros Hl Hs. split; [apply NotionFacts.build_properties_typed|].
  split; [eexists; apply NotionFacts.build_properties_title|].
  split; [eexists; rewrite build_properties_link, Hl; reflexivity|].
  eexists. apply build_properties_source, Hs.
Qed.

(** The create call of a job URL together with the reaction that follows
    it. *)
Lemma keeps_create_and_react e details source job_listed_date ts :
  page_ok (build_properties details source job_listed_date) ->
  keeps cycle_inv
    (let* success := create_notion_entry e details source job_listed_date in
     if success
     then post_slack_reaction SLACK_CHANNEL_ID ts "white_check_mark"
     else ret tt)
    (fun _ => True).
Proof.
  intros Hok w.
  destruct (NotionFacts.create_notion_entry_run e details source job_listed_date w)
    as (evs & added & created & (Hf & Ht & Hp) & Hr & Hcalls & Hadded & Hdup & Hin & Hcount).
  unfold bind, run_adds, post_slack_reaction, emit, ret. cbv beta.
  destruct (create_notion_entry e details source job_listed_date w) as [r w1].
  cbn [fst snd] in *. subst r. destruct created; cbn [fst snd w_file w_pages w_trace].
  - rewrite (Hdup eq_refl) in Hcalls.
    exists (evs ++ [ESlackReaction SLACK_CHANNEL_ID ts "white_check_mark"]), added.
    rewrite Hf, Ht, Hp, <- app_assoc. split; [repeat split|]. split; [|auto].
    unfold cycle_inv. rewrite forallb_app, Hin, count_app, Hcount, create_calls_app, Hcalls.
    subst added. cbn [create_calls app].
    split; [reflexivity|]. split; [reflexivity|].
    split; [constructor; [exact Hok|constructor]|reflexivity].
  - exists evs, added. split; [repeat split; assumption|]. split; [|auto].
    unfold cycle_inv. rewrite Hin, Hcount, Hcalls. subst added.
    split; [reflexivity|]. split; [reflexivity|]. split; [|apply sublist_nil_l].
    destruct (_ && _); constructor; [exact Hok|constructor].
Qed.

Lemma keeps_process_job_url e text ts source li lc ld sd job_url :
  job_url <> "" -> source <> "" ->
  keeps cycle_inv (process_job_url e text ts source li lc ld sd job_url) (fun _ => True).
Proof.
  intros Hj Hs. unfold process_job_url, log.
  eapply (keeps_bind _ cycle_inv_app); [keeps_cycle|intros _ _].
  eapply (keeps_bind _ cycle_inv_app); [apply keeps_fetch_page_content|intros content _].
  eapply (keeps_bind _ cycle_inv_app); [apply keeps_extract_job_details|intros details _].
  destruct (truthy details); [|unfold post_slack_reaction; keeps_cycle].
  destruct details as [| | | | |d]; try apply (keeps_raise _ cycle_inv_nil).
  apply keeps_create_and_react. apply build_properties_ok; [|exact Hs].
  unfold dict_get. rewrite lookup_delete_ne by discriminate.
  destruct (truthy (match d !! "link_to_apply" with Some v => v | None => JNull end)) eqn:E.
  - exact E.
  - rewrite lookup_insert_eq. destruct job_url; [congruence|reflexivity].
Qed.

Lemma categorize_split urls :
  categorize urls =
  (last (List.filter is_linkedin_post urls),
   List.filter (fun u => negb (is_linkedin_post u)) urls).
Proof.
  unfold categorize. rewrite categorize_from.
  destruct (last (List.filter is_linkedin_post urls)); reflexivity.
Qed.

Lemma categorize_nonempty urls :
  Forall (fun u => u <> "") urls ->
  (forall u, fst (categorize urls) = Some u -> u <> "") /\
  Forall (fun u => u <> "") (snd (categorize urls)) /\
  (urls <> [] -> fst (categorize urls) = None -> snd (categorize urls) <> []).
Proof.
  intros Hall. rewrite categorize_split. cbn [fst snd].
  rewrite Forall_forall in Hall. split; [|split].
  - intros u Hu. apply last_Some_elem_of, list_elem_of_In, filter_In in Hu as [Hu _].
    apply Hall, list_elem_of_In, Hu.
  - apply Forall_forall. intros u Hu. apply list_elem_of_In, filter_In in Hu as [Hu _].
    apply Hall, list_elem_of_In, Hu.
  - intros Hne Hnone. apply last_None in Hnone.
    destruct urls as [|u urls]; [congruence|]. cbn [List.filter] in *.
    destruct (is_linkedin_post u); [discriminate|]. discriminate.
Qed.

Lemma keeps_process_message e text ts urls :
  urls <> [] -> Forall (fun u => u <> "") urls ->
  keeps cycle_inv (process_message e text ts urls) (fun _ => True).
Proof.
  intros Hne Hall. unfold process_message, log.
  eapply (keeps_bind _ cycle_inv_app); [keeps_cycle|intros _ _].
  destruct (categorize_nonempty urls Hall) as (Hli & Hjobs & Hsome).
  destruct (categorize urls) as [li jobs]. cbn [fst snd] in *.
  eapply (keeps_bind _ cycle_inv_app _ _ (fun _ => True)).
  { destruct (truthy_ostr li); [|keeps_cycle].
    eapply (keeps_bind _ cycle_inv_app); [keeps_cycle|intros _ _].
    eapply (keeps_bind _ cycle_inv_app); [apply keeps_fetch_page_content|intros c _]. keeps_cycle. }
  intros lc _.
  assert (Hsrc : (if truthy_ostr li then default "" li else hd "" urls) <> "").
  { destruct li as [u|]; cbn [truthy_ostr default from_option id].
    - destruct (Str.nonempty u) eqn:E.
      + apply Hli. reflexivity.
      + destruct urls as [|x xs]; [congruence|]. inversion Hall; assumption.
    - destruct urls as [|x xs]; [congruence|]. inversion Hall; assumption. }
  eapply (keeps_bind _ cycle_inv_app _ _ (fun job_urls => Forall (fun u => u <> "") job_urls)).
  { destruct jobs as [|j jobs]; [|apply (keeps_ret _ cycle_inv_nil); exact Hjobs].
    destruct (truthy_ostr li) eqn:Et; [|apply (keeps_ret _ cycle_inv_nil); constructor].
    eapply (keeps_bind _ cycle_inv_app); [keeps_cycle|intros _ _].
    eapply (keeps_bind _ cycle_inv_app); [apply keeps_extract_job_urls_from_page|intros emb Hemb].
    destruct emb as [|x xs]; apply (keeps_ret _ cycle_inv_nil); [|exact Hemb].
    repeat constructor. destruct li as [u|]; [|discriminate].
    cbn [default from_option id]. apply Hli. reflexivity. }
  intros job_urls Hju.
  eapply (keeps_bind _ cycle_inv_app _ _ (fun _ => True)).
  { destruct (truthy_ostr li); [|keeps_cycle].
    destruct (decode_linkedin_activity_date _); keeps_cycle. }
  intros ld _.
  eapply (keeps_bind _ cycle_inv_app _ _ (fun _ => True)).
  { destruct (py_utc_date e ts); keeps_cycle. }
  intros sd _.
  eapply (keeps_for_each _ cycle_inv_nil cycle_inv_app); [|exact Hju].
  intros job_url Hj. apply keeps_process_job_url; [exact Hj|exact Hsrc].
Qed.

Lemma keeps_for_messages e messages : forall latest_ts,
  keeps cycle_inv (for_messages e messages latest_ts) (fun _ => True).
Proof.
  induction messages as [|msg rest IH]; intros latest_ts; cbn [for_messages].
  - keeps_cycle.
  - pose proof (extract_urls_shape (default "" (msg_text msg))) as Hshape.
    destruct (extract_urls _) as [|u us] eqn:E; [apply IH|].
    eapply (keeps_bind _ cycle_inv_app); [|intros _ _; apply IH].
    apply keeps_process_message; [discriminate|].
    eapply Forall_impl; [exact Hshape|]. intros x [Hx _].
    apply UrlFacts.url_shaped_nonempty, Hx.
Qed.

End CycleSteps.

(** ** [create_notion_entry] and [is_duplicate] *)

(** X7.  [create_notion_entry] never raises and never touches the
    checkpoint file.  It returns [True] exactly when it added one page to
    the database, and that page is the dictionary of its only create call.
    The create call is left out in one case only: the apply link is truthy
    and the duplicate query answered with a result; a missing link or a
    failed query still creates.  The dictionary sent is well typed (every
    property under its own name, no empty text, URL or date, a job type of
    the two names only) and always has a non-empty title. *)
Theorem create_notion_entry_outcome e details source job_listed_date w :
  let props := build_properties details source job_listed_date in
  let link := dict_get details "link_to_apply" in
  let r := create_notion_entry e details source job_listed_date w in
  exists created evs,
    fst r = Ok created /\
    w_file (snd r) = w_file w /\
    w_trace (snd r) = w_trace w ++ evs /\
    w_pages (snd r) = w_pages w ++ (if created then [props] else []) /\
    (created = true -> create_calls evs = [props]) /\
    (create_calls evs = [] <->
       truthy link = true /\
       notion_query e (length (w_trace w)) (w_pages w) link = Some true) /\
    (create_calls evs = [] \/ create_calls evs = [props]) /\
    map_Forall well_typed props /\
    exists title, props !! "Company Name" = Some (PTitle title) /\ truthy title = true.
Proof.
  intros props link r.
  destruct (NotionFacts.create_notion_entry_run e details source job_listed_date w)
    as (evs & added & created & (Hf & Ht & Hp) & Hr & Hcalls & Hadded & Hdup & _).
  fold props link in Hcalls, Hadded, Hdup. fold r in Hf, Ht, Hp, Hr.
  exists created, evs. subst added.
  split; [exact Hr|]. split; [exact Hf|]. split; [exact Ht|]. split; [exact Hp|].
  split; [intros Hc; rewrite (Hdup Hc) in Hcalls; exact Hcalls|].
  split; [|split; [|split]].
  - rewrite Hcalls. destruct (truthy link); cbn [andb].
    + case_bool_decide as Hq.
      * split; [intros _; split; [reflexivity|exact Hq]|reflexivity].
      * split; [discriminate|]. intros [_ Hq']. contradiction.
    + split; [discriminate|]. intros [? _]. discriminate.
  - rewrite Hcalls. destruct (_ && _); [left|right]; reflexivity.
  - apply NotionFacts.build_properties_typed.
  - eexists. split; [apply NotionFacts.build_properties_title|].
    apply NotionFacts.truthy_py_or. reflexivity.
Qed.

(** ** A polling cycle and the database *)

Module DatabaseFacts.

Lemma db_inv_nil : db_inv [] [].
Proof. split; [constructor|]. split; [constructor|reflexivity]. Qed.

Lemma db_inv_app e1 a1 e2 a2 :
  db_inv e1 a1 -> db_inv e2 a2 -> db_inv (e1 ++ e2) (a1 ++ a2).
Proof.
  intros (Hs1 & Hp1 & Hc1) (Hs2 & Hp2 & Hc2). unfold db_inv.
  rewrite create_calls_app, count_app, length_app, Hc1, Hc2.
  split; [apply sublist_app; assumption|]. split; [|reflexivity].
  apply Forall_app. split; assumption.
Qed.

Lemma db_inv_cycle evs added : cycle_inv evs added -> db_inv evs added.
Proof. intros (_ & Hc & Hp & Hs). split; [exact Hs|]. split; [exact Hp|exact Hc]. Qed.

(** Events other than create calls and success reactions. *)
Lemma db_inv_other evs :
  create_calls evs = [] -> count is_success_reaction evs = 0%nat -> db_inv evs [].
Proof. intros Hc Hn. unfold db_inv. rewrite Hc, Hn. split; [constructor|]. split; [constructor|reflexivity]. Qed.

Lemma poll_and_process_adds e w :
  exists evs added,
    w_trace (snd (poll_and_process e w)) = w_trace w ++ evs /\
    w_pages (snd (poll_and_process e w)) = w_pages w ++ added /\
    db_inv evs added.
Proof.
  unfold poll_and_process, get_last_processed_ts. run_m.
  set (c := stored_cursor w).
  destruct (slack_history e c) as [x|ok messages];
    cbn [fst snd w_file w_pages w_trace].
  - exists [ELog INFO (LPolling c); ESlackHistory SLACK_CHANNEL_ID c], [].
    rewrite <- !app_assoc, app_nil_r. split; [reflexivity|].
    split; [reflexivity|]. apply db_inv_other; reflexivity.
  - destruct ok; cbn [negb fst snd w_file w_pages w_trace].
    2:{ exists [ELog INFO (LPolling c); ESlackHistory SLACK_CHANNEL_ID c;
                ELog ERROR LSlackError], [].
        rewrite <- !app_assoc, app_nil_r. split; [reflexivity|].
        split; [reflexivity|]. apply db_inv_other; reflexivity. }
    destruct messages as [|m ms]; cbn [fst snd w_file w_pages w_trace].
    { exists [ELog INFO (LPolling c); ESlackHistory SLACK_CHANNEL_ID c;
              ELog INFO LNoNewMessages], [].
      rewrite <- !app_assoc, app_nil_r. split; [reflexivity|].
      split; [reflexivity|]. apply db_inv_other; reflexivity. }
    destruct (sort_messages e (m :: ms)) as [sorted|x];
      cbn [fst snd w_file w_pages w_trace].
    2:{ exists [ELog INFO (LPolling c); ESlackHistory SLACK_CHANNEL_ID c], [].
        rewrite <- !app_assoc, app_nil_r. split; [reflexivity|].
        split; [reflexivity|]. apply db_inv_other; reflexivity. }
    set (w1 := World _ _ _).
    destruct (CycleSteps.keeps_for_messages e sorted c w1)
      as (evs & added & (_ & Ht & Hp) & Hinv & _).
    apply db_inv_cycle in Hinv.
    destruct (for_messages e sorted c w1) as [[ts|x] w2];
      cbn [fst snd w_file w_pages w_trace] in *; rewrite Ht, Hp; subst w1;
      cbn [w_file w_pages w_trace].
    + exists ([ELog INFO (LPolling c); ESlackHistory SLACK_CHANNEL_ID c] ++ evs ++
               [EFileWrite ts; ELog INFO (LDone (length (m :: ms)) ts)]), added.
      split; [rewrite <- !app_assoc; reflexivity|]. split; [reflexivity|].
      apply (db_inv_app _ [] _ added); [apply db_inv_other; reflexivity|].
      rewrite <- (app_nil_r added).
      apply db_inv_app; [exact Hinv|apply db_inv_other; reflexivity].
    + exists ([ELog INFO (LPolling c); ESlackHistory SLACK_CHANNEL_ID c] ++ evs), added.
      split; [rewrite <- !app_assoc; reflexivity|]. split; [reflexivity|].
      apply (db_inv_app _ [] _ added); [apply db_inv_other; reflexivity|exact Hinv].
Qed.

Lemma scheduler_turn_adds e w :
  exists evs added,
    fst (scheduler_turn e w) = Ok tt /\
    w_trace (snd (scheduler_turn e w)) = w_trace w ++ evs /\
    w_pages (snd (scheduler_turn e w)) = w_pages w ++ added /\
    db_inv evs added.
Proof.
  destruct (poll_and_process_adds e w) as (evs & added & Ht & Hp & Hinv).
  unfold scheduler_turn. run_m.
  destruct (poll_and_process e w) as [[[]|x] w1];
    cbn [fst snd w_file w_pages w_trace] in *; rewrite Ht, Hp.
  - exists (evs ++ [ELog INFO (LSleeping INTERVAL_SECONDS); ESleep INTERVAL_SECONDS]), added.
    split; [reflexivity|]. split; [rewrite <- !app_assoc; reflexivity|].
    split; [reflexivity|]. rewrite <- (app_nil_r added).
    apply db_inv_app; [exact Hinv|apply db_inv_other; reflexivity].
  - exists (evs ++ [ELog ERROR (LPollError x); ELog INFO (LSleeping INTERVAL_SECONDS);
                    ESleep INTERVAL_SECONDS]), added.
    split; [reflexivity|]. split; [rewrite <- !app_assoc; reflexivity|].
    split; [reflexivity|]. rewrite <- (app_nil_r added).
    apply db_inv_app; [exact Hinv|apply db_inv_other; reflexivity].
Qed.

End DatabaseFacts.

(** X8.  Whatever the outside answers, and whether the cycle completes,
    returns early or raises, a polling cycle only appends to the database.
    Every page it adds is the dictionary of one of its create calls, in the
    order of the calls; every dictionary it sends is well typed and has a
    title, an apply link and a source; and the cycle posts exactly one
    success reaction per page added. *)
Theorem poll_and_process_database e w :
  exists evs added,
    w_trace (snd (poll_and_process e w)) = w_trace w ++ evs /\
    w_pages (snd (poll_and_process e w)) = w_pages w ++ added /\
    sublist added (create_calls evs) /\
    Forall page_ok (create_calls evs) /\
    count is_success_reaction evs = length added.
Proof.
  destruct (DatabaseFacts.poll_and_process_adds e w) as (evs & added & Ht & Hp & Hinv).
  exists evs, added. split; [exact Ht|]. split; [exact Hp|]. exact Hinv.
Qed.

(** X9.  However many turns the scheduler takes and whatever happens in
    them, the database only grows: no page is removed or rewritten.  Every
    page added is the dictionary of a create call, well typed, with a
    title, an apply link and a source, and the success reactions posted are
    as many as the pages added. *)
Theorem scheduler_database (envs : nat -> env) (turns : nat) : forall k w,
  exists evs added,
    fst (scheduler_loop envs k turns w) = Ok tt /\
    w_trace (snd (scheduler_loop envs k turns w)) = w_trace w ++ evs /\
    w_pages (snd (scheduler_loop envs k turns w)) = w_pages w ++ added /\
    sublist added (create_calls evs) /\
    Forall page_ok (create_calls evs) /\
    count is_success_reaction evs = length added.
Proof.
  induction turns as [|turns IH]; intros k w; cbn [scheduler_loop].
  - exists [], []. rewrite !app_nil_r. split; [reflexivity|].
    split; [reflexivity|]. split; [reflexivity|]. apply DatabaseFacts.db_inv_nil.
  - unfold bind.
    destruct (DatabaseFacts.scheduler_turn_adds (envs k) w)
      as (evs1 & added1 & Hok & Ht1 & Hp1 & Hinv1).
    destruct (scheduler_turn (envs k) w) as [[[]|x] w1]; cbn [fst snd] in *;
      [|discriminate].
    destruct (IH (S k) w1) as (evs2 & added2 & Hok2 & Ht2 & Hp2 & Hinv2).
    exists (evs1 ++ evs2), (added1 ++ added2).
    rewrite Ht2, Hp2, Ht1, Hp1, <- !app_assoc.
    split; [exact Hok2|]. split; [reflexivity|]. split; [reflexivity|].
    apply DatabaseFacts.db_inv_app; assumption.
Qed.


(** ** The sort of the batch *)

Module BatchFacts.

Lemma message_keys_snd e messages : forall keyed,
  message_keys e messages = Some keyed ->
  map snd keyed = messages /\
  Forall (fun km => py_float e (msg_ts (snd km)) = Some (fst km)) keyed.
Proof.
  induction messages as [|m rest IH]; intros keyed; cbn [message_keys].
  - intros [= <-]. split; [reflexivity|constructor].
  - destruct (py_float e (msg_ts m)) as [k|] eqn:Ek; [|discriminate].
    destruct (message_keys e rest) as [keyed'|]; [|discriminate].
    intros [= <-]. destruct (IH keyed' eq_refl) as [Hm Hk].
    cbn [map snd]. rewrite Hm. split; [reflexivity|].
    constructor; [exact Ek|exact Hk].
Qed.

Lemma message_keys_none e messages :
  message_keys e messages = None ->
  Exists (fun m => py_float e (msg_ts m) = None) messages.
Proof.
  induction messages as [|m rest IH]; cbn [message_keys]; [discriminate|].
  destruct (py_float e (msg_ts m)) as [k|] eqn:Ek; [|intros _; left; exact Ek].
  destruct (message_keys e rest); [discriminate|]. intros _. right. apply IH. reflexivity.
Qed.

Lemma filter_keyed e k keyed :
  Forall (fun km => py_float e (msg_ts (snd km)) = Some (fst km)) keyed ->
  List.filter (ts_is e k) (map snd keyed) = map snd (List.filter (has_key k) keyed).
Proof.
  induction 1 as [|[q m] keyed Hq _ IH]; [reflexivity|].
  cbn [map List.filter snd fst] in *. unfold ts_is at 1, has_key at 1.
  rewrite Hq. cbn [fst]. destruct (float_eq q k); cbn [map snd]; rewrite IH; reflexivity.
Qed.

Lemma sorted_keyed e keyed :
  Forall (fun km => py_float e (msg_ts (snd km)) = Some (fst km)) keyed ->
  Sorted key_le keyed -> Sorted (ts_le e) (map snd keyed).
Proof.
  intros Hk Hs. induction Hs as [|[q m] keyed Hs IH Hhd]; [constructor|].
  inversion Hk as [|? ? Hq Hk']; subst. cbn [map snd]. constructor; [apply IH, Hk'|].
  destruct Hhd as [|[q' m'] keyed' Hle]; [constructor|].
  inversion Hk' as [|? ? Hq' _]; subst. cbn [map snd fst] in *. constructor.
  unfold ts_le. rewrite Hq, Hq'. exact Hle.
Qed.

Lemma latest_with_urls_in messages : forall latest_ts,
  latest_with_urls messages latest_ts = latest_ts \/
  In (latest_with_urls messages latest_ts) (map msg_ts messages).
Proof.
  unfold latest_with_urls.
  induction messages as [|m rest IH]; intros latest_ts; cbn [fold_left map];
    [left; reflexivity|].
  destruct (extract_urls _).
  - destruct (IH latest_ts) as [H|H]; [left; exact H|right; right; exact H].
  - destruct (IH (msg_ts m)) as [H|H]; right; [left; symmetry; exact H|right; exact H].
Qed.

(** Some key is nan exactly when the timestamp of some message is. *)
Lemma keyed_nan e keyed :
  Forall (fun km => py_float e (msg_ts (snd km)) = Some (fst km)) keyed ->
  existsb (fun km => is_nan (fst km)) keyed = true ->
  Forall (ts_ordered e) (map snd keyed) -> False.
Proof.
  induction 1 as [|[q m] keyed Hq _ IH]; cbn [existsb map snd fst]; [discriminate|].
  intros Hex Hord. inversion Hord as [|? ? Hm Hord']; subst.
  apply orb_prop in Hex as [Hnan|Hex]; [|exact (IH Hex Hord')].
  destruct q; try discriminate. cbn [fst snd] in Hq. exact (Hm Hq).
Qed.

Lemma keyed_ordered (keyed : list (pyfloat * message)) :
  existsb (fun km => is_nan (fst km)) keyed = false ->
  Forall (fun km => is_nan (fst km) = false) keyed.
Proof.
  induction keyed as [|km keyed IH]; cbn [existsb]; [constructor|].
  intros H. apply orb_false_elim in H as [H1 H2]. constructor; [exact H1|apply IH, H2].
Qed.

Lemma sort_messages_cases e messages :
  match sort_messages e messages with
  | Ok sorted =>
      Forall (fun m => py_float e (msg_ts m) <> None) messages /\
      Permutation sorted messages /\
      (Forall (ts_ordered e) messages ->
       Sorted (ts_le e) sorted /\
       forall k, List.filter (ts_is e k) sorted = List.filter (ts_is e k) messages)
  | Raise x =>
      x = ValueError /\ Exists (fun m => py_float e (msg_ts m) = None) messages
  end.
Proof.
  unfold sort_messages. destruct (message_keys e messages) as [keyed|] eqn:E.
  - destruct (message_keys_snd e messages keyed E) as [Hm Hk].
    assert (Hsome : Forall (fun m => py_float e (msg_ts m) <> None) messages).
    { rewrite <- Hm. apply Forall_forall. intros m Hin.
      apply list_elem_of_In, in_map_iff in Hin as ([q m'] & <- & Hin).
      rewrite Forall_forall in Hk.
      rewrite (Hk (q, m') (proj2 (list_elem_of_In _ _) Hin)). discriminate. }
    destruct (existsb (fun km => is_nan (fst km)) keyed) eqn:Enan.
    { split; [exact Hsome|]. split; [apply sort_with_nan_perm|].
      intros Hord. exfalso. rewrite <- Hm in Hord.
      exact (keyed_nan e keyed Hk Enan Hord). }
    assert (Hk' : Forall (fun km => py_float e (msg_ts (snd km)) = Some (fst km))
                         (sort_by_key keyed)).
    { rewrite Forall_forall in *. intros km Hin. apply Hk.
      rewrite <- (SortFacts.sort_by_key_perm keyed). exact Hin. }
    split; [exact Hsome|]. split; [|intros _; split].
    + rewrite <- Hm. apply Permutation_map, SortFacts.sort_by_key_perm.
    + apply sorted_keyed; [exact Hk'|].
      apply SortFacts.sort_by_key_sorted, keyed_ordered, Enan.
    + intros k. rewrite <- Hm.
      rewrite !filter_keyed by assumption.
      rewrite SortFacts.sort_by_key_stable. reflexivity.
  - split; [reflexivity|]. apply message_keys_none, E.
Qed.

End BatchFacts.

(** X10.  The sort that precedes the loop, on the floats the timestamps
    denote.  It raises [ValueError] exactly when [float] raises for some
    timestamp of the batch.  Otherwise the sorted batch holds the same
    messages; and when no timestamp denotes nan, it ascends by timestamp
    and keeps messages of equal timestamp in the order Slack sent them.
    With a nan among the timestamps nothing is said of the order. *)
Theorem sort_messages_spec e messages :
  match sort_messages e messages with
  | Ok sorted =>
      Forall (fun m => py_float e (msg_ts m) <> None) messages /\
      Permutation sorted messages /\
      (Forall (ts_ordered e) messages ->
       Sorted (ts_le e) sorted /\
       forall k, List.filter (ts_is e k) sorted = List.filter (ts_is e k) messages)
  | Raise x =>
      x = ValueError /\ Exists (fun m => py_float e (msg_ts m) = None) messages
  end.
Proof. exact (BatchFacts.sort_messages_cases e messages). Qed.

Lemma sort_messages_spec_witness :
  let e := Env (slack_history example_env) (http_get example_env)
               (claude_create example_env) (notion_query example_env)
               (notion_create example_env)
               (fun ts => Some (FNum (inject_Z (int_of_digits ts))))
               (py_utc_date example_env) (json_loads example_env)
               (sort_with_nan example_env) (sort_with_nan_perm example_env) in
  let batch := [Message "3" (Some "c"); Message "1" (Some "a");
                Message "3" (Some "d"); Message "2" None] in
  let sorted := [Message "1" (Some "a"); Message "2" None;
                 Message "3" (Some "c"); Message "3" (Some "d")] in
  sort_messages e batch = Ok sorted /\
  Sorted (ts_le e) sorted /\
  List.filter (ts_is e (FNum 3)) sorted = List.filter (ts_is e (FNum 3)) batch.
Proof.
  intros e batch sorted.
  assert (Hrun : sort_messages e batch = Ok sorted) by (vm_compute; reflexivity).
  pose proof (sort_messages_spec e batch) as H. rewrite Hrun in H.
  destruct H as (_ & _ & H).
  destruct H as [Hsorted Hstable]; [repeat constructor; discriminate|].
  split; [exact Hrun|]. split; [exact Hsorted|apply Hstable].
Defined.

(** With a nan among the keys the batch comes back as [list.sort] leaves
    it; here in the order Slack sent it, which does not ascend. *)
Example sort_messages_with_nan :
  let e := Env (slack_history example_env) (http_get example_env)
               (claude_create example_env) (notion_query example_env)
               (notion_create example_env)
               (fun ts => if String.eqb ts "nan" then Some FNan
                          else Some (FNum (inject_Z (int_of_digits ts))))
               (py_utc_date example_env) (json_loads example_env)
               (fun batch => batch) (fun batch => Permutation_refl batch) in
  sort_messages e [Message "3" None; Message "nan" None; Message "1" None] =
  Ok [Message "3" None; Message "nan" None; Message "1" None].
Proof. vm_compute. reflexivity. Qed.

(** ** A polling cycle and the checkpoint file *)

(** X11.  A polling cycle writes the checkpoint file at most once, and
    only as its last step but one: either the cycle leaves the file as it
    was and no write is among its events (so for every cycle that raises or
    returns early), or the cycle completed on a non-empty batch, wrote the
    file once, and the cursor it wrote is the cursor it started from or the
    timestamp of a message of the batch. *)
Theorem poll_and_process_file e w :
  exists evs,
    w_trace (snd (poll_and_process e w)) = w_trace w ++ evs /\
    ((w_file (snd (poll_and_process e w)) = w_file w /\
      List.filter is_file_write evs = []) \/
     (exists ts m ms done,
        fst (poll_and_process e w) = Ok tt /\
        slack_history e (stored_cursor w) = SlackReply true (m :: ms) /\
        w_file (snd (poll_and_process e w)) = Some ts /\
        List.filter is_file_write evs = [EFileWrite ts] /\
        (ts = stored_cursor w \/ In ts (map msg_ts (m :: ms))) /\
        exists before, evs = before ++ [EFileWrite ts; ELog INFO done])).
Proof.
  unfold poll_and_process, get_last_processed_ts. run_m.
  set (c := stored_cursor w).
  destruct (slack_history e c) as [x|ok messages] eqn:Hs;
    cbn [fst snd w_file w_pages w_trace].
  { exists [ELog INFO (LPolling c); ESlackHistory SLACK_CHANNEL_ID c].
    rewrite <- !app_assoc. split; [reflexivity|]. left. split; reflexivity. }
  destruct ok; cbn [negb fst snd w_file w_pages w_trace].
  2:{ exists [ELog INFO (LPolling c); ESlackHistory SLACK_CHANNEL_ID c;
              ELog ERROR LSlackError].
      rewrite <- !app_assoc. split; [reflexivity|]. left. split; reflexivity. }
  destruct messages as [|m ms]; cbn [fst snd w_file w_pages w_trace].
  { exists [ELog INFO (LPolling c); ESlackHistory SLACK_CHANNEL_ID c;
            ELog INFO LNoNewMessages].
    rewrite <- !app_assoc. split; [reflexivity|]. left. split; reflexivity. }
  pose proof (BatchFacts.sort_messages_cases e (m :: ms)) as Hsort.
  destruct (sort_messages e (m :: ms)) as [sorted|x];
    cbn [fst snd w_file w_pages w_trace].
  2:{ exists [ELog INFO (LPolling c); ESlackHistory SLACK_CHANNEL_ID c].
      rewrite <- !app_assoc. split; [reflexivity|]. left. split; reflexivity. }
  destruct Hsort as (_ & Hperm & _).
  set (w1 := World _ _ _).
  destruct (steps_for_messages e sorted c w1) as [Hf (evs & Ht & Hin)].
  assert (Hnw : List.filter is_file_write evs = []).
  { clear -Hin. induction evs as [|ev evs IH]; [reflexivity|].
    cbn [forallb List.filter] in *. apply andb_prop in Hin as [Hev Hin].
    rewrite (IH Hin). unfold is_inner in Hev.
    destruct (is_file_write ev); [|reflexivity].
    rewrite orb_true_r in Hev. discriminate. }
  destruct (for_messages e sorted c w1) as [[ts|x] w2] eqn:Hfor;
    cbn [fst snd w_file w_pages w_trace] in *; rewrite Ht; subst w1;
    cbn [w_file w_pages w_trace] in *.
  - apply for_messages_latest in Hfor. 
    exists ([ELog INFO (LPolling c); ESlackHistory SLACK_CHANNEL_ID c] ++ evs ++
             [EFileWrite ts; ELog INFO (LDone (length (m :: ms)) ts)]).
    split; [rewrite <- !app_assoc; reflexivity|]. right.
    exists ts, m, ms, (LDone (length (m :: ms)) ts).
    split; [reflexivity|]. split; [reflexivity|]. split; [reflexivity|].
    split; [|split].
    + rewrite !List.filter_app, Hnw. reflexivity.
    + destruct (BatchFacts.latest_with_urls_in sorted c) as [H|H];
        rewrite <- Hfor in H; [left; exact H|right].
      apply in_map_iff in H as (m' & Hm' & Hin').
      apply in_map_iff. exists m'. split; [exact Hm'|].
      apply list_elem_of_In. rewrite <- Hperm. apply list_elem_of_In, Hin'.
    + eexists. rewrite app_assoc. reflexivity.
  - exists ([ELog INFO (LPolling c); ESlackHistory SLACK_CHANNEL_ID c] ++ evs).
    split; [rewrite <- !app_assoc; reflexivity|]. left.
    split; [exact Hf|]. rewrite List.filter_app, Hnw. reflexivity.
Qed.


(** ** A malformed timestamp in the batch *)

Lemma message_keys_fails e messages :
  Exists (fun m => py_float e (msg_ts m) = None) messages ->
  message_keys e messages = None.
Proof.
  induction 1 as [m rest Hm|m rest _ IH]; cbn [message_keys].
  - rewrite Hm. reflexivity.
  - rewrite IH. destruct (py_float e (msg_ts m)); reflexivity.
Qed.

(** X12.  One message whose timestamp denotes no number stops the whole
    batch: the sort raises [ValueError] before any message is looked at,
    so the cycle raises after its history request without a page fetch, an
    LLM call, a database call or a reaction, also for the well-formed
    messages of the batch.  The checkpoint file is as before, so the next
    cycle asks for the same batch again. *)
Theorem poll_raises_on_bad_timestamp e w messages :
  slack_history e (stored_cursor w) = SlackReply true messages ->
  Exists (fun m => py_float e (msg_ts m) = None) messages ->
  poll_and_process e w =
  (Raise ValueError,
   World (w_file w) (w_pages w)
         (w_trace w ++ [ELog INFO (LPolling (stored_cursor w));
                        ESlackHistory SLACK_CHANNEL_ID (stored_cursor w)])).
Proof.
  intros Hs Hbad. unfold poll_and_process, get_last_processed_ts. run_m.
  rewrite Hs. cbn [negb].
  destruct messages as [|m ms]; [inversion Hbad|].
  unfold sort_messages. rewrite (message_keys_fails e (m :: ms) Hbad).
  cbn [fst snd w_file w_pages w_trace]. rewrite <- !app_assoc. reflexivity.
Qed.

Lemma poll_raises_on_bad_timestamp_witness :
  let batch := [Message "1700000300.000100" (Some "<https://jobs.lever.co/acme/1>");
                Message "soon" (Some "<https://jobs.lever.co/acme/2>")] in
  let e := Env (fun _ => SlackReply true batch)
               (http_get example_env) (claude_create example_env)
               (notion_query example_env) (notion_create example_env)
               (fun ts => if String.eqb ts "soon" then None
                          else Some (FNum 1700000300))
               (py_utc_date example_env) (json_loads example_env)
               (sort_with_nan example_env) (sort_with_nan_perm example_env) in
  poll_and_process e empty_world =
  (Raise ValueError,
   World None [] [ELog INFO (LPolling "0"); ESlackHistory SLACK_CHANNEL_ID "0"]).
Proof.
  intros batch e.
  apply (poll_raises_on_bad_timestamp e empty_world batch); [reflexivity|].
  right. left. reflexivity.
Defined.


(** ** The size of a prompt *)

Module PromptFacts.

Lemma content_sections_length page_content ctx :
  (String.length page_content <= FETCH_LIMIT)%nat ->
  (String.length (content_sections page_content ctx) <= Z.to_nat 23106)%nat.
Proof.
  intros Hpage. unfold content_sections. rewrite StrFacts.length_app.
  assert (Hctx : (String.length
                    match ctx with
                    | Some post =>
                        if Str.nonempty post
                        then "LinkedIn Post Content (use this for company name if not found in job page):"
                             +:+ NL +:+ Str.take POST_LIMIT post +:+ NL +:+ NL +:+ "---"
                             +:+ NL +:+ NL
                        else ""
                    | None => ""
                    end <= Z.to_nat 8083)%nat).
  { destruct ctx as [post|]; [|cbn; lia].
    destruct (Str.nonempty post); [|cbn; lia].
    rewrite !StrFacts.length_app.
    pose proof (length_take_le POST_LIMIT post) as Ht.
    change (String.length NL) with 1%nat. change (String.length "---") with 3%nat.
    change (String.length "LinkedIn Post Content (use this for company name if not found in job page):")
      with 75%nat.
    unfold POST_LIMIT in *. lia. }
  assert (Hp : (String.length
                  (if Str.nonempty page_content
                   then "Job Page HTML Content:" +:+ NL +:+ page_content
                   else "") <= Z.to_nat 15023)%nat).
  { destruct (Str.nonempty page_content); [|cbn; lia].
    rewrite !StrFacts.length_app.
    change (String.length NL) with 1%nat.
    change (String.length "Job Page HTML Content:") with 22%nat.
    unfold FETCH_LIMIT in *. lia. }
  lia.
Qed.

Lemma build_prompt_length page_content url ctx :
  (String.length page_content <= FETCH_LIMIT)%nat ->
  (String.length (build_prompt page_content url ctx) <= prompt_limit url)%nat.
Proof.
  intros Hpage. pose proof (content_sections_length page_content ctx Hpage) as Hc.
  unfold build_prompt, prompt_limit. rewrite !StrFacts.length_app.
  change (String.length NL) with 1%nat.
  change (String.length "URL of the posting: ") with 20%nat. lia.
Qed.

(** A bind whose continuation may rely on what the first step returns. *)
Lemma steps_bind_value (P : event -> bool) {A B} (c : M A) (k : A -> M B) (Q : A -> Prop) :
  steps_with P c -> (forall w a, fst (c w) = Ok a -> Q a) ->
  (forall a, Q a -> steps_with P (k a)) -> steps_with P (bind c k).
Proof.
  intros Hc Hq Hk w. unfold bind. destruct (Hc w) as [Hf (evs & Ht & Hp)].
  specialize (Hq w).
  destruct (c w) as [[a|x] w1]; cbn [fst snd] in *.
  - destruct (Hk a (Hq a eq_refl) w1) as [Hf2 (evs2 & Ht2 & Hp2)].
    split; [congruence|]. exists (evs ++ evs2).
    rewrite Ht2, Ht, <- app_assoc, forallb_app, Hp, Hp2. split; reflexivity.
  - split; [exact Hf|]. exists evs. split; assumption.
Qed.

Lemma fetch_page_content_length e url w content :
  fst (fetch_page_content e url w) = Ok content ->
  (String.length content <= FETCH_LIMIT)%nat.
Proof.
  destruct (CycleSteps.keeps_fetch_page_content e url w) as (_ & _ & _ & _ & Hq).
  apply Hq.
Qed.

Lemma steps_extract_job_details_prompt e page_content url source ctx :
  (String.length page_content <= FETCH_LIMIT)%nat ->
  steps_with (prompt_within (prompt_limit url))
             (extract_job_details e page_content url source ctx).
Proof.
  intros Hpage. unfold extract_job_details, log.
  destruct (_ && _); [apply steps_ret|].
  apply steps_bind; [apply steps_clock|intros n].
  apply steps_bind; [|intros _; steps].
  apply steps_emit. cbn [prompt_within]. apply Nat.leb_le, build_prompt_length, Hpage.
Qed.

End PromptFacts.

(** X13.  However long the fetched page, the message text and the LinkedIn
    post are, a prompt sent to the LLM for a job URL is never longer than
    the fixed head, the URL and 23,128 characters more: the page enters
    with at most 15,000 characters and the context with at most 8,000.
    The step leaves the checkpoint file alone. *)
Theorem process_job_url_prompt_bound e text ts source li lc ld sd job_url :
  steps_with (prompt_within (prompt_limit job_url))
             (process_job_url e text ts source li lc ld sd job_url).
Proof.
  unfold process_job_url, log, post_slack_reaction.
  apply steps_bind; [steps|intros _].
  eapply PromptFacts.steps_bind_value;
    [unfold fetch_page_content, log; steps
    |apply PromptFacts.fetch_page_content_length|].
  intros content Hlen. cbv beta.
  apply steps_bind; [apply PromptFacts.steps_extract_job_details_prompt, Hlen|].
  intros details. unfold create_notion_entry, is_duplicate, log. steps.
Qed.


(** ** A reply of the LLM that is not an object *)

Module ReplyFacts.
Import Str StrFacts StripFacts.

Lemma app_one_nonempty a c : nonempty (a +:+ one c) = true.
Proof. destruct a; reflexivity. Qed.

Lemma drop_while_keeps_last p a c :
  p c = false -> nonempty (drop_while p (a +:+ one c)) = true.
Proof.
  intros Hc. induction a as [|x a IH].
  - rewrite app_nil_l. unfold one. cbn [drop_while]. rewrite Hc. reflexivity.
  - rewrite app_cons. cbn [drop_while]. destruct (p x); [exact IH|reflexivity].
Qed.

Lemma rev_nonempty s : nonempty s = true -> nonempty (rev s) = true.
Proof. destruct s as [|c s]; [discriminate|]. intros _. rewrite rev_cons. apply app_one_nonempty. Qed.

(** Stripping a string that starts with a character other than a blank
    leaves something. *)
Lemma strip_nonempty c s : isspace c = false -> nonempty (strip (String c s)) = true.
Proof.
  intros Hc. unfold strip, rstrip. cbn [drop_while]. rewrite Hc.
  apply rev_nonempty. rewrite rev_cons. apply drop_while_keeps_last, Hc.
Qed.

End ReplyFacts.

(** X14.  The message text being non-empty, the LLM is asked about every
    job URL.  When its reply, cleaned of code fences, parses as JSON that is
    truthy but not an object (a non-empty list, a number, a string), the
    step for the job URL raises [AttributeError] at [details.get]: no
    create call is made, no page is added and no reaction is posted, and
    nothing in the cycle catches the exception. *)
Theorem process_job_url_rejects_non_object
        e text ts source li lc ld sd job_url w reply v :
  Str.nonempty text = true ->
  (forall n prompt, claude_create e n prompt = Some reply) ->
  json_loads e (Re.sub FENCE_CLOSE_RE "" (Re.sub FENCE_OPEN_RE "" (Str.strip reply)))
    = Some v ->
  truthy v = true ->
  (forall d, v <> JObj d) ->
  let r := process_job_url e text ts source li lc ld sd job_url w in
  fst r = Raise AttributeError /\
  w_file (snd r) = w_file w /\
  w_pages (snd r) = w_pages w /\
  exists evs,
    w_trace (snd r) = w_trace w ++ evs /\
    count is_llm_call evs = 1%nat /\
    create_calls evs = [] /\
    count is_reaction evs = 0%nat.
Proof.
  intros Htext Hllm Hjson Htruthy Hobj.
  unfold process_job_url, extract_job_details. rewrite Htext.
  set (post_ctx := if bool_decide (Some job_url = li) then None else lc).
  assert (Hctx : Str.nonempty
                   (Str.strip (("Slack message text: " +:+ text +:+ NL +:+ NL)
                               +:+ default "" post_ctx)) = true).
  { change ("Slack message text: " +:+ text +:+ NL +:+ NL)
      with (String "S" ("lack message text: " +:+ text +:+ NL +:+ NL)).
    rewrite StrFacts.app_cons. apply ReplyFacts.strip_nonempty. reflexivity. }
  rewrite Hctx. cbn [truthy_ostr]. rewrite Hctx.
  unfold fetch_page_content. run_m.
  destruct (http_get e _ job_url) as [|status body];
    [|destruct (raise_for_status status)];
    cbn [fst snd w_file w_pages w_trace negb andb];
    rewrite ?andb_false_r, Hllm, Hjson; cbn [fst snd w_file w_pages w_trace];
    rewrite Htruthy;
    (destruct v as [| | | | |d]; [| | | | |exfalso; exact (Hobj d eq_refl)]);
    cbn [fst snd w_file w_pages w_trace]; rewrite <- ?app_assoc;
    (split; [reflexivity|]); (split; [reflexivity|]); (split; [reflexivity|]);
    eexists; (split; [reflexivity|]); repeat split.
Qed.

Lemma process_job_url_rejects_non_object_witness :
  let e := Env (slack_history example_env) (http_get example_env)
               (fun _ _ => Some "[1]")
               (notion_query example_env) (notion_create example_env)
               (py_float example_env) (py_utc_date example_env)
               (fun _ => Some (JArr [JNum 1]))
               (sort_with_nan example_env) (sort_with_nan_perm example_env) in
  let r := process_job_url e "apply here: <https://jobs.lever.co/acme/1>"
             "1700000200.000100" "https://jobs.lever.co/acme/1" None None None
             "2023-11-14" "https://jobs.lever.co/acme/1" empty_world in
  fst r = Raise AttributeError /\
  w_file (snd r) = None /\
  w_pages (snd r) = [] /\
  exists evs,
    w_trace (snd r) = [] ++ evs /\
    count is_llm_call evs = 1%nat /\
    create_calls evs = [] /\
    count is_reaction evs = 0%nat.
Proof.
  intros e.
  apply (process_job_url_rejects_non_object e
           "apply here: <https://jobs.lever.co/acme/1>"
           "1700000200.000100" "https://jobs.lever.co/acme/1" None None None
           "2023-11-14" "https://jobs.lever.co/acme/1" empty_world
           "[1]" (JArr [JNum 1])).
  - reflexivity.
  - intros n prompt. reflexivity.
  - reflexivity.
  - reflexivity.
  - intros d. discriminate.
Defined.


(** ** The source of a page *)

Module SourceFacts.
Import CycleFacts.

Section Calls.
Context (P : properties -> Prop).

Lemma calls_inv_nil : calls_inv P [] [].
Proof. constructor. Qed.

Lemma calls_inv_app e1 a1 e2 a2 :
  calls_inv P e1 a1 -> calls_inv P e2 a2 -> calls_inv P (e1 ++ e2) (a1 ++ a2).
Proof.
  unfold calls_inv. intros H1 H2. rewrite create_calls_app.
  apply Forall_app. split; assumption.
Qed.

Lemma calls_inv_event ev : is_not_create ev = true -> calls_inv P [ev] [].
Proof. destruct ev; try discriminate; constructor. Qed.

Lemma no_create_calls evs : forallb is_not_create evs = true -> create_calls evs = [].
Proof.
  induction evs as [|ev evs IH]; [reflexivity|]. cbn [forallb].
  intros H. apply andb_prop in H as [Hev H].
  change (create_calls (ev :: evs)) with (create_calls ([ev] ++ evs)).
  rewrite create_calls_app, (IH H). destruct ev; try discriminate; reflexivity.
Qed.

(** A step of the cycle that issues no create call. *)
Lemma keeps_no_create {A} (c : M A) (Q : A -> Prop) :
  keeps cycle_inv c Q -> steps_with is_not_create c -> keeps (calls_inv P) c Q.
Proof.
  intros Hk Hs w. destruct (Hk w) as (evs & added & Hrun & _ & Hq).
  destruct (Hs w) as [_ (evs' & Ht' & Hno)].
  exists evs, added. split; [exact Hrun|]. split; [|exact Hq].
  destruct Hrun as (_ & Ht & _). rewrite Ht in Ht'. apply app_inv_head in Ht'. subst evs'.
  unfold calls_inv. rewrite (no_create_calls evs Hno). constructor.
Qed.

End Calls.

Ltac keeps_calls P :=
  repeat first
    [ apply (keeps_ret _ (calls_inv_nil P) _ (fun _ => True)); exact I
    | apply (keeps_raise _ (calls_inv_nil P))
    | apply keeps_emit; apply calls_inv_event; reflexivity
    | eapply (keeps_bind _ (calls_inv_app P)); [|intros ? _]
    | match goal with
      | |- keeps _ (if ?b then _ else _) _ => destruct b
      | |- keeps _ (match ?x with _ => _ end) _ => destruct x
      end ].

Lemma calls_fetch P e url :
  keeps (calls_inv P) (fetch_page_content e url) (fun _ => True).
Proof.
  apply keeps_no_create.
  - eapply keeps_post; [|apply CycleSteps.keeps_fetch_page_content]. auto.
  - unfold fetch_page_content, log. steps.
Qed.

Lemma calls_sniff P content source :
  keeps (calls_inv P) (extract_job_urls_from_page content source) (fun _ => True).
Proof.
  apply keeps_no_create.
  - eapply keeps_post; [|apply CycleSteps.keeps_extract_job_urls_from_page]. auto.
  - unfold extract_job_urls_from_page, log. steps.
Qed.

Lemma calls_details P e content url source ctx :
  keeps (calls_inv P) (extract_job_details e content url source ctx) (fun _ => True).
Proof.
  apply keeps_no_create.
  - apply CycleSteps.keeps_extract_job_details.
  - unfold extract_job_details, log. steps.
Qed.

Lemma calls_create_and_react e details source job_listed_date ts :
  source <> "" ->
  keeps (calls_inv (has_source source))
    (let* success := create_notion_entry e details source job_listed_date in
     if success
     then post_slack_reaction SLACK_CHANNEL_ID ts "white_check_mark"
     else ret tt)
    (fun _ => True).
Proof.
  intros Hne w.
  destruct (NotionFacts.create_notion_entry_run e details source job_listed_date w)
    as (evs & added & created & (Hf & Ht & Hp) & Hr & Hcalls & _).
  assert (Hinv : calls_inv (has_source source) evs added).
  { unfold calls_inv. rewrite Hcalls. destruct (_ && _); constructor; [|constructor].
    apply CycleSteps.build_properties_source, Hne. }
  unfold bind, run_adds, post_slack_reaction, emit, ret. cbv beta.
  destruct (create_notion_entry e details source job_listed_date w) as [r w1].
  cbn [fst snd] in *. subst r. destruct created; cbn [fst snd w_file w_pages w_trace].
  - exists (evs ++ [ESlackReaction SLACK_CHANNEL_ID ts "white_check_mark"]), (added ++ []).
    rewrite Hf, Ht, Hp, <- app_assoc, app_nil_r. split; [repeat split|]. split; [|auto].
    rewrite <- (app_nil_r added).
    apply calls_inv_app; [exact Hinv|apply calls_inv_event; reflexivity].
  - exists evs, added. split; [repeat split; assumption|]. split; [exact Hinv|auto].
Qed.

Lemma calls_process_job_url e text ts source li lc ld sd job_url :
  source <> "" ->
  keeps (calls_inv (has_source source))
        (process_job_url e text ts source li lc ld sd job_url) (fun _ => True).
Proof.
  intros Hs. unfold process_job_url, log.
  eapply (keeps_bind _ (calls_inv_app _)); [keeps_calls (has_source source)|intros _ _].
  eapply (keeps_bind _ (calls_inv_app _)); [apply calls_fetch|intros content _].
  eapply (keeps_bind _ (calls_inv_app _)); [apply calls_details|intros details _].
  destruct (truthy details);
    [|unfold post_slack_reaction; keeps_calls (has_source source)].
  destruct details as [| | | | |d]; try apply (keeps_raise _ (calls_inv_nil _)).
  apply calls_create_and_react, Hs.
Qed.

Lemma source_url_of_nonempty urls :
  urls <> [] -> Forall (fun u => u <> "") urls -> source_url_of urls <> "".
Proof.
  intros Hne Hall. unfold source_url_of. cbv zeta.
  destruct (fst (categorize urls)) as [u|]; cbn [truthy_ostr default from_option id].
  - destruct u; cbn [Str.nonempty]; [|discriminate].
    destruct urls as [|x xs]; [congruence|]. inversion Hall; assumption.
  - destruct urls as [|x xs]; [congruence|]. inversion Hall; assumption.
Qed.

Lemma calls_process_message e text ts urls :
  urls <> [] -> Forall (fun u => u <> "") urls ->
  keeps (calls_inv (has_source (source_url_of urls)))
        (process_message e text ts urls) (fun _ => True).
Proof.
  intros Hne Hall. pose proof (source_url_of_nonempty urls Hne Hall) as Hsrc.
  revert Hsrc. unfold process_message, source_url_of, log. cbv zeta.
  set (P := has_source _).
  destruct (categorize urls) as [li jobs]. cbn [fst snd]. intros Hsrc.
  eapply (keeps_bind _ (calls_inv_app _)); [keeps_calls P|intros _ _].
  eapply (keeps_bind _ (calls_inv_app _) _ _ (fun _ => True)).
  { destruct (truthy_ostr li); [|keeps_calls P].
    eapply (keeps_bind _ (calls_inv_app _)); [keeps_calls P|intros _ _].
    eapply (keeps_bind _ (calls_inv_app _)); [apply calls_fetch|intros c _].
    keeps_calls P. }
  intros lc _.
  eapply (keeps_bind _ (calls_inv_app _) _ _ (fun _ => True)).
  { destruct jobs as [|j jobs]; [|keeps_calls P].
    destruct (truthy_ostr li); [|keeps_calls P].
    eapply (keeps_bind _ (calls_inv_app _)); [keeps_calls P|intros _ _].
    eapply (keeps_bind _ (calls_inv_app _)); [apply calls_sniff|intros emb _].
    destruct emb; keeps_calls P. }
  intros job_urls _.
  eapply (keeps_bind _ (calls_inv_app _) _ _ (fun _ => True)).
  { destruct (truthy_ostr li); [|keeps_calls P].
    destruct (decode_linkedin_activity_date _); keeps_calls P. }
  intros ld _.
  eapply (keeps_bind _ (calls_inv_app _) _ _ (fun _ => True)).
  { destruct (py_utc_date e ts); keeps_calls P. }
  intros sd _.
  eapply (keeps_for_each _ (calls_inv_nil _) (calls_inv_app _) _ (fun _ => True)).
  - intros job_url _. apply calls_process_job_url, Hsrc.
  - apply Forall_forall. auto.
Qed.

Lemma calls_inv_weaken (P Q : properties -> Prop) {A} (c : M A) (Post : A -> Prop) :
  (forall p, P p -> Q p) -> keeps (calls_inv P) c Post -> keeps (calls_inv Q) c Post.
Proof.
  intros HPQ Hk w. destruct (Hk w) as (evs & added & Hrun & Hinv & Hq).
  exists evs, added. split; [exact Hrun|]. split; [|exact Hq].
  unfold calls_inv in *. eapply Forall_impl; [exact Hinv|exact HPQ].
Qed.

Lemma calls_for_messages e batch messages : forall latest_ts,
  (forall m, In m messages -> In m batch) ->
  keeps (calls_inv (sourced batch)) (for_messages e messages latest_ts) (fun _ => True).
Proof.
  induction messages as [|msg rest IH]; intros latest_ts Hin; cbn [for_messages].
  - apply (keeps_ret _ (calls_inv_nil _)). exact I.
  - assert (Hrest : forall m, In m rest -> In m batch) by (intros m Hm; apply Hin; right; exact Hm).
    pose proof (extract_urls_shape (default "" (msg_text msg))) as Hshape.
    assert (Hsrc : forall p,
               has_source (source_url_of (extract_urls (default "" (msg_text msg)))) p ->
               sourced batch p).
    { intros p Hp. exists msg. split; [apply Hin; left; reflexivity|exact Hp]. }
    destruct (extract_urls _) as [|u us] eqn:E; [apply IH, Hrest|].
    eapply (keeps_bind _ (calls_inv_app _)); [|intros _ _; apply IH, Hrest].
    eapply calls_inv_weaken; [exact Hsrc|].
    apply calls_process_message; [discriminate|].
    eapply Forall_impl; [exact Hshape|]. intros x [Hx _].
    apply UrlFacts.url_shaped_nonempty, Hx.
Qed.

End SourceFacts.

(** X15.  Every page a cycle asks Notion to create carries as its Source
    the source URL of a message of the batch Slack returned: the last
    LinkedIn post URL among the URLs of that message, or its first URL when
    it has no LinkedIn post URL.  A cycle whose history request fails, is
    answered not ok, or brings no message creates nothing. *)
Theorem poll_and_process_sources e w :
  exists evs,
    w_trace (snd (poll_and_process e w)) = w_trace w ++ evs /\
    match slack_history e (stored_cursor w) with
    | SlackReply true messages => Forall (sourced messages) (create_calls evs)
    | _ => create_calls evs = []
    end.
Proof.
  unfold poll_and_process, get_last_processed_ts. run_m.
  set (c := stored_cursor w).
  destruct (slack_history e c) as [x|ok messages];
    cbn [fst snd w_file w_pages w_trace].
  { exists [ELog INFO (LPolling c); ESlackHistory SLACK_CHANNEL_ID c].
    rewrite <- !app_assoc. split; reflexivity. }
  destruct ok; cbn [negb fst snd w_file w_pages w_trace].
  2:{ exists [ELog INFO (LPolling c); ESlackHistory SLACK_CHANNEL_ID c;
              ELog ERROR LSlackError].
      rewrite <- !app_assoc. split; reflexivity. }
  destruct messages as [|m ms]; cbn [fst snd w_file w_pages w_trace].
  { exists [ELog INFO (LPolling c); ESlackHistory SLACK_CHANNEL_ID c;
            ELog INFO LNoNewMessages].
    rewrite <- !app_assoc. split; [reflexivity|constructor]. }
  pose proof (BatchFacts.sort_messages_cases e (m :: ms)) as Hsort.
  destruct (sort_messages e (m :: ms)) as [sorted|x];
    cbn [fst snd w_file w_pages w_trace].
  2:{ exists [ELog INFO (LPolling c); ESlackHistory SLACK_CHANNEL_ID c].
      rewrite <- !app_assoc. split; [reflexivity|constructor]. }
  destruct Hsort as (_ & Hperm & _).
  set (w1 := World _ _ _).
  assert (Hin : forall m', In m' sorted -> In m' (m :: ms)).
  { intros m' Hm'. apply list_elem_of_In. rewrite <- Hperm. apply list_elem_of_In, Hm'. }
  destruct (SourceFacts.calls_for_messages e (m :: ms) sorted c Hin w1)
    as (evs & added & (_ & Ht & _) & Hinv & _).
  unfold calls_inv in Hinv.
  destruct (for_messages e sorted c w1) as [[ts|x] w2];
    cbn [fst snd w_file w_pages w_trace] in *; rewrite Ht; subst w1;
    cbn [w_file w_pages w_trace].
  - exists ([ELog INFO (LPolling c); ESlackHistory SLACK_CHANNEL_ID c] ++ evs ++
             [EFileWrite ts; ELog INFO (LDone (length (m :: ms)) ts)]).
    split; [rewrite <- !app_assoc; reflexivity|].
    rewrite !create_calls_app. cbn [create_calls omap app]. rewrite app_nil_r. exact Hinv.
  - exists ([ELog INFO (LPolling c); ESlackHistory SLACK_CHANNEL_ID c] ++ evs).
    split; [rewrite <- !app_assoc; reflexivity|].
    rewrite !create_calls_app. cbn [create_calls omap app]. exact Hinv.
Qed.


(** ** Where the sniffed URLs come from *)

Module RawFacts.
Import Str StrFacts Re ReFacts StripFacts UrlFacts.

Lemma rmatch_raw pos s :
  rmatch RAW_URL_RE (MState pos s None) Some =
  match raw_link_at s with
  | Some (u, after) => Some (MState (pos + String.length u) after None)
  | None => None
  end.
Proof.
  unfold RAW_URL_RE, raw_link_at.
  rewrite rmatch_cat, rmatch_scheme. cbn [ms_rest ms_pos ms_grp].
  destruct (scheme_of s) as [sch|]; [|reflexivity].
  rewrite rmatch_plus_run.
  2:{ left. destruct (run_end _ _ _ _). eexists. reflexivity. }
  unfold run_end. cbn [ms_rest ms_pos ms_grp]. cbv zeta.
  destruct (nonempty _); [|reflexivity].
  rewrite length_app. do 2 f_equal. lia.
Qed.

Lemma raw_link_at_shape s u after :
  raw_link_at s = Some (u, after) ->
  s = u +:+ after /\
  exists sch body, is_scheme sch /\ body <> "" /\ u = sch +:+ body.
Proof.
  unfold raw_link_at. intros H.
  destruct (scheme_of s) as [sch|] eqn:Esch; [|discriminate].
  apply scheme_of_inv in Esch as [Hsch Esch].
  remember (drop (String.length sch) s) as s2 eqn:Hs2. clear Hs2. subst s.
  cbv zeta in H.
  pose proof (take_while_drop_while raw_url_char s2) as E2.
  destruct (nonempty (take_while raw_url_char s2)) eqn:Hne; [|discriminate].
  apply nonempty_iff in Hne. injection H as <- <-.
  split; [rewrite app_assoc, E2; reflexivity|].
  exists sch, (take_while raw_url_char s2). auto.
Qed.

Lemma match_at_raw pos s :
  match_at RAW_URL_RE pos s =
  match raw_link_at s with
  | Some (u, after) => Some (Match pos u None after)
  | None => None
  end.
Proof.
  unfold match_at. rewrite rmatch_raw.
  destruct (raw_link_at s) as [[u after]|] eqn:E; [|reflexivity].
  apply raw_link_at_shape in E as [E _]. cbn [ms_pos ms_grp ms_rest].
  do 2 f_equal.
  replace (pos + String.length u - pos)%nat with (String.length u) by lia.
  rewrite E. apply take_app_length.
Qed.

(** Every raw URL of a page is a piece of the page and has the shape of a
    URL. *)
Lemma scan_raw fuel : forall pos s,
  Forall (fun u => url_shaped u /\ contains u s = true)
         (map m_text (scan fuel RAW_URL_RE pos s)).
Proof.
  induction fuel as [|fuel IH]; intros pos s; [constructor|].
  cbn [scan]. rewrite match_at_raw.
  assert (Hskip : Forall (fun u => url_shaped u /\ contains u s = true)
                         (map m_text match s with
                                     | "" => []
                                     | String _ t => scan fuel RAW_URL_RE (S pos) t
                                     end)).
  { destruct s as [|c t]; [constructor|].
    eapply Forall_impl; [apply IH|]. intros x [Hx Hc]. split; [exact Hx|].
    change (String c t) with (one c +:+ t). apply contains_suffix, Hc. }
  destruct (raw_link_at s) as [[u after]|] eqn:E; [|exact Hskip].
  apply raw_link_at_shape in E as [-> (sch & body & Hsch & Hne & ->)].
  cbn [m_text m_after].
  assert (Hu : url_shaped (sch +:+ body) /\
               contains (sch +:+ body) ((sch +:+ body) +:+ after) = true).
  { split; [exists sch, body; auto|]. apply contains_prefix, contains_self. }
  destruct (sch +:+ body) as [|c u] eqn:Eu.
  - cbn [map m_text]. constructor; [exact Hu|]. rewrite app_nil_l in *. exact Hskip.
  - cbn [map m_text]. constructor; [exact Hu|].
    eapply Forall_impl; [apply IH|]. intros x [Hx Hc]. split; [exact Hx|].
    apply contains_suffix, Hc.
Qed.

Lemma drop_while_app_stop p a b :
  head_free p b = true -> b <> "" ->
  drop_while p (a +:+ b) = drop_while p a +:+ b.
Proof.
  intros Hb Hne. induction a as [|c a IH].
  - rewrite !app_nil_l. apply drop_while_head_free, Hb.
  - rewrite app_cons. cbn [drop_while]. destruct (p c); [exact IH|reflexivity].
Qed.

(** Removing trailing periods leaves the scheme in place and gives a
    prefix of the URL. *)
Lemma rstrip_url sch body :
  is_scheme sch ->
  exists body' dots,
    rstrip (fun c => Ascii.eqb c ".") (sch +:+ body) = sch +:+ body' /\
    sch +:+ body = (sch +:+ body') +:+ dots.
Proof.
  intros Hsch. unfold rstrip. set (p := fun c => Ascii.eqb c ".").
  rewrite rev_app, drop_while_app_stop;
    [|destruct Hsch as [-> | ->]; reflexivity|destruct Hsch as [-> | ->]; discriminate].
  rewrite rev_app, rev_involutive.
  destruct (drop_while_suffix p (rev body)) as (pre & Hpre).
  exists (rev (drop_while p (rev body))), (rev pre). split; [reflexivity|].
  rewrite app_assoc. f_equal.
  rewrite <- rev_app, <- Hpre, rev_involutive. reflexivity.
Qed.

Lemma scheme_has_no_board sch :
  is_scheme sch ->
  existsb (fun domain => contains domain sch) JOB_BOARD_PATTERNS = false.
Proof. intros [-> | ->]; vm_compute; reflexivity. Qed.

Lemma job_url_step_from page source_url st url :
  url_shaped url -> contains url page = true ->
  Forall (fun u => url_shaped u /\ contains u page = true) (fst st) ->
  Forall (fun u => url_shaped u /\ contains u page = true)
         (fst (job_url_step source_url st url)).
Proof.
  intros (sch & body & Hsch & _ & ->) Hc Hst. destruct st as [job_urls seen].
  unfold job_url_step.
  destruct (rstrip_url sch body Hsch) as (body' & dots & Hstrip & Hpre).
  rewrite Hstrip.
  destruct (String.eqb _ source_url); [exact Hst|].
  destruct (existsb _ JOB_BOARD_PATTERNS) eqn:Eb; [|exact Hst].
  destruct (bool_decide _); [exact Hst|]. cbn [fst] in *.
  apply Forall_app. split; [exact Hst|]. constructor; [|constructor]. split.
  - exists sch, body'. split; [exact Hsch|]. split; [|reflexivity].
    intros ->. rewrite app_nil_r, (scheme_has_no_board sch Hsch) in Eb. discriminate.
  - eapply contains_trans; [|exact Hc]. rewrite Hpre.
    apply contains_prefix, contains_self.
Qed.

Lemma fold_job_url_step_from page source_url raw_urls : forall st,
  Forall (fun u => url_shaped u /\ contains u page = true) raw_urls ->
  Forall (fun u => url_shaped u /\ contains u page = true) (fst st) ->
  Forall (fun u => url_shaped u /\ contains u page = true)
         (fst (fold_left (job_url_step source_url) raw_urls st)).
Proof.
  induction raw_urls as [|url rest IH]; intros st Hraw Hst; cbn [fold_left]; [exact Hst|].
  inversion Hraw as [|? ? [Hu Hc] Hrest]; subst.
  apply IH; [exact Hrest|]. apply job_url_step_from; assumption.
Qed.

Lemma extract_job_urls_from_page_urls page_content source_url w job_urls :
  fst (extract_job_urls_from_page page_content source_url w) = Ok job_urls ->
  Forall (fun u => url_shaped u /\ contains u page_content = true) job_urls.
Proof.
  unfold extract_job_urls_from_page. run_m. intros [= <-].
  apply fold_job_url_step_from; [apply scan_raw|constructor].
Qed.

End RawFacts.

(** X16.  Every URL the sniffer returns begins with http:// or https://,
    goes on for at least one more character, and is a piece of the page
    content it was given: a raw URL of the page, less its trailing
    periods. *)
Theorem extract_job_urls_from_page_from_page (page_content source_url : string) (w : world) :
  exists job_urls,
    fst (extract_job_urls_from_page page_content source_url w) = Ok job_urls /\
    Forall (fun u => url_shaped u /\ Str.contains u page_content = true) job_urls.
Proof.
  destruct (extract_job_urls_from_page_run page_content source_url w)
    as (job_urls & Hok & _).
  exists job_urls. split; [exact Hok|].
  eapply RawFacts.extract_job_urls_from_page_urls, Hok.
Qed.


(** ** The events of a cycle, kind by kind *)

Module WalkFacts.

Lemma steps_for_each_in (P : event -> bool) {A} (body : A -> M unit) (Q : A -> Prop) l :
  (forall a, Q a -> steps_with P (body a)) -> Forall Q l ->
  steps_with P (for_each body l).
Proof.
  intros Hb Hl. induction Hl as [|a l Ha _ IH]; cbn [for_each]; [apply steps_ret|].
  apply steps_bind; [apply Hb, Ha|intros _; exact IH].
Qed.

Lemma categorize_in (Q : string -> Prop) urls :
  Forall Q urls ->
  (forall u, fst (categorize urls) = Some u -> Q u) /\
  Forall Q (snd (categorize urls)).
Proof.
  intros Hall. rewrite CycleSteps.categorize_split. cbn [fst snd].
  rewrite Forall_forall in Hall. split.
  - intros u Hu. apply last_Some_elem_of, list_elem_of_In, filter_In in Hu as [Hu _].
    apply Hall, list_elem_of_In, Hu.
  - apply Forall_forall. intros u Hu. apply list_elem_of_In, filter_In in Hu as [Hu _].
    apply Hall, list_elem_of_In, Hu.
Qed.

Section Walk.
Context (P : event -> bool).
Context (P_log : forall lvl msg, P (ELog lvl msg) = true).
Context (P_claude : forall prompt, P (EClaude prompt) = true).
Context (P_query : forall link, P (ENotionQuery link) = true).
Context (P_create : forall props, P (ENotionCreate props) = true).

Ltac walk :=
  repeat first
    [ apply steps_ret
    | apply steps_raise
    | apply steps_clock
    | apply steps_get_pages
    | apply steps_add_page
    | apply steps_emit;
        first [apply P_log|apply P_claude|apply P_query|apply P_create|assumption]
    | apply steps_bind; [|intros ?]
    | match goal with
      | |- steps_with _ (if ?b then _ else _) => destruct b
      | |- steps_with _ (match ?x with _ => _ end) => destruct x
      end ].

Lemma walk_fetch e url :
  P (EHttpGet url) = true -> steps_with P (fetch_page_content e url).
Proof. intros Hu. unfold fetch_page_content, log. walk. Qed.

Lemma walk_sniff content source :
  steps_with P (extract_job_urls_from_page content source).
Proof. unfold extract_job_urls_from_page, log. walk. Qed.

Lemma walk_details e content url source ctx :
  steps_with P (extract_job_details e content url source ctx).
Proof. unfold extract_job_details, log. walk. Qed.

Lemma walk_create e details source date :
  steps_with P (create_notion_entry e details source date).
Proof. unfold create_notion_entry, is_duplicate, log. walk. Qed.

Lemma walk_process_job_url e text ts source li lc ld sd job_url :
  P (EHttpGet job_url) = true ->
  P (ESlackReaction SLACK_CHANNEL_ID ts "white_check_mark") = true ->
  P (ESlackReaction SLACK_CHANNEL_ID ts "warning") = true ->
  steps_with P (process_job_url e text ts source li lc ld sd job_url).
Proof.
  intros Hu Hok Hwarn. unfold process_job_url, log, post_slack_reaction.
  apply steps_bind; [walk|intros _].
  apply steps_bind; [apply walk_fetch, Hu|intros content].
  apply steps_bind; [apply walk_details|intros details].
  destruct (truthy details); [|walk].
  destruct details; try apply steps_raise.
  apply steps_bind; [apply walk_create|intros success]. walk.
Qed.

Lemma walk_process_message (Q : string -> Prop) e text ts urls :
  (forall u, Q u -> P (EHttpGet u) = true) ->
  (forall page source w l,
      fst (extract_job_urls_from_page page source w) = Ok l -> Forall Q l) ->
  P (ESlackReaction SLACK_CHANNEL_ID ts "white_check_mark") = true ->
  P (ESlackReaction SLACK_CHANNEL_ID ts "warning") = true ->
  Forall Q urls ->
  steps_with P (process_message e text ts urls).
Proof.
  intros HQ Hsniff Hok Hwarn Hall. unfold process_message, log.
  apply steps_bind; [walk|intros _].
  destruct (categorize_in Q urls Hall) as [Hli Hjobs].
  destruct (categorize urls) as [li jobs]. cbn [fst snd] in *.
  assert (Hpost : truthy_ostr li = true -> Q (default "" li)).
  { destruct li as [u|]; [|discriminate]. intros _. apply Hli. reflexivity. }
  apply steps_bind.
  { destruct (truthy_ostr li); [|apply steps_ret].
    apply steps_bind; [walk|intros _].
    apply steps_bind; [apply walk_fetch, HQ, Hpost; reflexivity|intros c; apply steps_ret]. }
  intros lc.
  eapply (PromptFacts.steps_bind_value P _ _ (fun job_urls => Forall Q job_urls)).
  { destruct jobs; [|apply steps_ret].
    destruct (truthy_ostr li); [|apply steps_ret].
    apply steps_bind; [walk|intros _].
    apply steps_bind; [apply walk_sniff|intros emb].
    destruct emb; apply steps_ret. }
  { intros w job_urls.
    destruct jobs as [|j jobs]; [|unfold ret; intros [= <-]; exact Hjobs].
    destruct (truthy_ostr li) eqn:Et; [|unfold ret; intros [= <-]; constructor].
    unfold bind, emit. cbn [fst snd].
    match goal with
    | |- context [extract_job_urls_from_page ?p ?s ?w1] =>
        pose proof (Hsniff p s w1) as Hs;
        destruct (extract_job_urls_from_page p s w1) as [[emb|x] w2]
    end; cbn [fst snd] in *; [|discriminate].
    specialize (Hs emb eq_refl).
    destruct emb as [|x xs]; unfold ret; intros [= <-]; [|exact Hs].
    constructor; [apply Hpost; reflexivity|constructor]. }
  intros job_urls Hju. cbv beta. apply steps_bind.
  { destruct (truthy_ostr li); [|apply steps_ret].
    destruct (decode_linkedin_activity_date _); [apply steps_ret|apply steps_raise]. }
  intros ld. apply steps_bind.
  { destruct (py_utc_date e ts); [apply steps_ret|apply steps_raise]. }
  intros sd. eapply steps_for_each_in; [|exact Hju].
  intros job_url Hj. apply walk_process_job_url; [apply HQ, Hj|exact Hok|exact Hwarn].
Qed.

End Walk.

Lemma is_http_url_shaped u : url_shaped u -> is_http_url u = true.
Proof.
  intros (sch & body & Hsch & Hne & ->). unfold is_http_url.
  destruct body as [|c body]; [congruence|].
  destruct Hsch as [-> | ->].
  - rewrite StrFacts.starts_with_app, StrFacts.length_app. cbn. reflexivity.
  - rewrite orb_comm, StrFacts.starts_with_app, StrFacts.length_app. cbn. reflexivity.
Qed.

Lemma fetches_for_messages e messages : forall latest_ts,
  steps_with fetch_http (for_messages e messages latest_ts).
Proof.
  induction messages as [|msg rest IH]; intros latest_ts; cbn [for_messages].
  - apply steps_ret.
  - pose proof (extract_urls_shape (default "" (msg_text msg))) as Hshape.
    destruct (extract_urls _) as [|u us]; [apply IH|].
    apply steps_bind; [|intros _; apply IH].
    apply (walk_process_message fetch_http) with (Q := url_shaped);
      try (intros; reflexivity).
    + intros x Hx. apply is_http_url_shaped, Hx.
    + intros page source w l Hl.
      eapply Forall_impl; [eapply RawFacts.extract_job_urls_from_page_urls, Hl|].
      intros x [Hx _]. exact Hx.
    + eapply Forall_impl; [exact Hshape|]. intros x [Hx _]. exact Hx.
Qed.

Lemma reactions_for_messages e batch messages : forall latest_ts,
  (forall m, In m messages -> In m batch) ->
  steps_with (reaction_in batch) (for_messages e messages latest_ts).
Proof.
  induction messages as [|msg rest IH]; intros latest_ts Hin; cbn [for_messages].
  - apply steps_ret.
  - assert (Hrest : forall m, In m rest -> In m batch) by (intros m Hm; apply Hin; right; exact Hm).
    assert (Hmsg : has_urls msg = true ->
                   forall ev, reaction_to (msg_ts msg) ev = true -> reaction_in batch ev = true).
    { intros Hu ev Hev. destruct ev; try reflexivity. cbn [reaction_in].
      apply existsb_exists. exists msg. split; [apply Hin; left; reflexivity|].
      rewrite Hu, Hev. reflexivity. }
    unfold has_urls in Hmsg.
    destruct (extract_urls _) as [|u us]; [apply IH, Hrest|].
    apply steps_bind; [|intros _; apply IH, Hrest].
    eapply steps_weaken; [exact (Hmsg eq_refl)|].
    apply (walk_process_message (reaction_to (msg_ts msg))) with (Q := fun _ => True);
      try (intros; reflexivity).
    + intros page source w l _. apply Forall_forall. auto.
    + cbn [reaction_to]. rewrite !String.eqb_refl. reflexivity.
    + cbn [reaction_to]. rewrite !String.eqb_refl. reflexivity.
    + apply Forall_forall. auto.
Qed.

End WalkFacts.

(** X17.  A cycle fetches pages only from URLs that begin with http:// or
    https:// and go on: the URLs extracted from the messages and the URLs
    sniffed from a LinkedIn post page are of that shape, and nothing else
    is ever fetched. *)
Theorem poll_and_process_fetches e w :
  exists evs,
    w_trace (snd (poll_and_process e w)) = w_trace w ++ evs /\
    forallb fetch_http evs = true.
Proof.
  unfold poll_and_process, get_last_processed_ts. run_m.
  set (c := stored_cursor w).
  destruct (slack_history e c) as [x|ok messages];
    cbn [fst snd w_file w_pages w_trace].
  { exists [ELog INFO (LPolling c); ESlackHistory SLACK_CHANNEL_ID c].
    rewrite <- !app_assoc. split; reflexivity. }
  destruct ok; cbn [negb fst snd w_file w_pages w_trace].
  2:{ exists [ELog INFO (LPolling c); ESlackHistory SLACK_CHANNEL_ID c;
              ELog ERROR LSlackError].
      rewrite <- !app_assoc. split; reflexivity. }
  destruct messages as [|m ms]; cbn [fst snd w_file w_pages w_trace].
  { exists [ELog INFO (LPolling c); ESlackHistory SLACK_CHANNEL_ID c;
            ELog INFO LNoNewMessages].
    rewrite <- !app_assoc. split; reflexivity. }
  destruct (sort_messages e (m :: ms)) as [sorted|x];
    cbn [fst snd w_file w_pages w_trace].
  2:{ exists [ELog INFO (LPolling c); ESlackHistory SLACK_CHANNEL_ID c].
      rewrite <- !app_assoc. split; reflexivity. }
  set (w1 := World _ _ _).
  destruct (WalkFacts.fetches_for_messages e sorted c w1) as [_ (evs & Ht & Hall)].
  destruct (for_messages e sorted c w1) as [[ts|x] w2];
    cbn [fst snd w_file w_pages w_trace] in *; rewrite Ht; subst w1;
    cbn [w_file w_pages w_trace].
  - exists ([ELog INFO (LPolling c); ESlackHistory SLACK_CHANNEL_ID c] ++ evs ++
             [EFileWrite ts; ELog INFO (LDone (length (m :: ms)) ts)]).
    split; [rewrite <- !app_assoc; reflexivity|].
    rewrite !forallb_app, Hall. reflexivity.
  - exists ([ELog INFO (LPolling c); ESlackHistory SLACK_CHANNEL_ID c] ++ evs).
    split; [rewrite <- !app_assoc; reflexivity|].
    rewrite !forallb_app, Hall. reflexivity.
Qed.

(** X18.  A cycle reacts only in the channel it reads, only with the check
    mark or the warning sign, and only to messages of the batch Slack
    returned from which it extracted at least one URL.  A cycle without a
    batch posts no reaction. *)
Theorem poll_and_process_reactions e w :
  exists evs,
    w_trace (snd (poll_and_process e w)) = w_trace w ++ evs /\
    match slack_history e (stored_cursor w) with
    | SlackReply true messages => forallb (reaction_in messages) evs = true
    | _ => count is_reaction evs = 0%nat
    end.
Proof.
  unfold poll_and_process, get_last_processed_ts. run_m.
  set (c := stored_cursor w).
  destruct (slack_history e c) as [x|ok messages];
    cbn [fst snd w_file w_pages w_trace].
  { exists [ELog INFO (LPolling c); ESlackHistory SLACK_CHANNEL_ID c].
    rewrite <- !app_assoc. split; reflexivity. }
  destruct ok; cbn [negb fst snd w_file w_pages w_trace].
  2:{ exists [ELog INFO (LPolling c); ESlackHistory SLACK_CHANNEL_ID c;
              ELog ERROR LSlackError].
      rewrite <- !app_assoc. split; reflexivity. }
  destruct messages as [|m ms]; cbn [fst snd w_file w_pages w_trace].
  { exists [ELog INFO (LPolling c); ESlackHistory SLACK_CHANNEL_ID c;
            ELog INFO LNoNewMessages].
    rewrite <- !app_assoc. split; reflexivity. }
  pose proof (BatchFacts.sort_messages_cases e (m :: ms)) as Hsort.
  destruct (sort_messages e (m :: ms)) as [sorted|x];
    cbn [fst snd w_file w_pages w_trace].
  2:{ exists [ELog INFO (LPolling c); ESlackHistory SLACK_CHANNEL_ID c].
      rewrite <- !app_assoc. split; reflexivity. }
  destruct Hsort as (_ & Hperm & _).
  set (w1 := World _ _ _).
  assert (Hin : forall m', In m' sorted -> In m' (m :: ms)).
  { intros m' Hm'. apply list_elem_of_In. rewrite <- Hperm. apply list_elem_of_In, Hm'. }
  destruct (WalkFacts.reactions_for_messages e (m :: ms) sorted c Hin w1)
    as [_ (evs & Ht & Hall)].
  destruct (for_messages e sorted c w1) as [[ts|x] w2];
    cbn [fst snd w_file w_pages w_trace] in *; rewrite Ht; subst w1;
    cbn [w_file w_pages w_trace].
  - exists ([ELog INFO (LPolling c); ESlackHistory SLACK_CHANNEL_ID c] ++ evs ++
             [EFileWrite ts; ELog INFO (LDone (length (m :: ms)) ts)]).
    split; [rewrite <- !app_assoc; reflexivity|].
    rewrite !forallb_app, Hall. reflexivity.
  - exists ([ELog INFO (LPolling c); ESlackHistory SLACK_CHANNEL_ID c] ++ evs).
    split; [rewrite <- !app_assoc; reflexivity|].
    rewrite !forallb_app, Hall. reflexivity.
Qed.


(** ** The checkpoint and the order of the batch *)

Module CheckpointFacts.

Lemma latest_with_urls_snoc l m c :
  latest_with_urls (l ++ [m]) c =
  if has_urls m then msg_ts m else latest_with_urls l c.
Proof.
  unfold latest_with_urls, has_urls. rewrite fold_left_app. cbn [fold_left].
  destruct (extract_urls _); reflexivity.
Qed.

(** The loop ends with the cursor it started from when no message has
    URLs, and with the timestamp of the last message that has URLs
    otherwise. *)
Lemma latest_with_urls_split l c :
  (Forall (fun m => has_urls m = false) l /\ latest_with_urls l c = c) \/
  (exists l1 last l2,
     l = l1 ++ last :: l2 /\ has_urls last = true /\
     Forall (fun m => has_urls m = false) l2 /\
     latest_with_urls l c = msg_ts last).
Proof.
  induction l as [|m l IH] using rev_ind; [left; split; [constructor|reflexivity]|].
  rewrite latest_with_urls_snoc. destruct (has_urls m) eqn:Em.
  - right. exists l, m, []. repeat split; [assumption|constructor].
  - destruct IH as [[Hall Hc]|(l1 & last & l2 & -> & Hlast & Hl2 & Hc)].
    + left. split; [|exact Hc]. apply Forall_app. split; [exact Hall|].
      constructor; [exact Em|constructor].
    + right. exists l1, last, (l2 ++ [m]). rewrite <- app_assoc. repeat split; try assumption.
      apply Forall_app. split; [exact Hl2|]. constructor; [exact Em|constructor].
Qed.

Lemma ts_le_trans e a b c : ts_le e a b -> ts_le e b c -> ts_le e a c.
Proof.
  unfold ts_le.
  destruct (py_float e (msg_ts a)), (py_float e (msg_ts b)), (py_float e (msg_ts c));
    try tauto. apply SortFacts.float_le_trans.
Qed.

Lemma ts_le_refl e a :
  py_float e (msg_ts a) <> None -> ts_ordered e a -> ts_le e a a.
Proof.
  unfold ts_le, ts_ordered. destruct (py_float e (msg_ts a)) as [k|]; [|congruence].
  intros _ Hk. apply SortFacts.float_le_refl. destruct k; try reflexivity. congruence.
Qed.

Lemma sorted_before e l1 x l2 :
  Sorted (ts_le e) (l1 ++ x :: l2) -> Forall (fun y => ts_le e y x) l1.
Proof.
  intros Hs. apply Sorted_StronglySorted in Hs; [|intros a b c; apply ts_le_trans].
  induction l1 as [|a l1 IH]; [constructor|].
  cbn [app] in Hs. apply StronglySorted_inv in Hs as [Hs Ha].
  constructor; [|apply IH, Hs].
  rewrite List.Forall_forall in Ha. apply Ha, in_or_app. right. left. reflexivity.
Qed.

End CheckpointFacts.

(** X19.  What a completed cycle persists, in terms of the batch Slack
    returned, when no timestamp of the batch denotes nan.  When no message
    of the batch has URLs, the cursor the cycle started from.  Otherwise
    the timestamp of a message of the batch that has URLs and is the newest
    such: no message of the batch with URLs has a later timestamp.
    Messages without URLs that are newer still are not covered by the
    checkpoint. *)
Theorem poll_checkpoint_is_newest_with_urls e w messages w' :
  slack_history e (stored_cursor w) = SlackReply true messages ->
  messages <> [] ->
  Forall (ts_ordered e) messages ->
  poll_and_process e w = (Ok tt, w') ->
  (Forall (fun m => has_urls m = false) messages /\
   w_file w' = Some (stored_cursor w)) \/
  (exists newest,
     In newest messages /\ has_urls newest = true /\
     w_file w' = Some (msg_ts newest) /\
     forall m, In m messages -> has_urls m = true -> ts_le e m newest).
Proof.
  intros Hs Hne Hord Hrun.
  pose proof (BatchFacts.sort_messages_cases e messages) as Hsort.
  destruct (sort_messages e messages) as [sorted|x] eqn:Esort.
  2:{ exfalso. revert Hrun. unfold poll_and_process, get_last_processed_ts. run_m.
      rewrite Hs. cbn [negb]. destruct messages; [congruence|]. rewrite Esort.
      discriminate. }
  destruct Hsort as (Hfloat & Hperm & Hsorted).
  destruct (Hsorted Hord) as [Hsorted' _]. clear Hsorted. rename Hsorted' into Hsorted.
  rewrite (poll_and_process_checkpoint e w messages sorted w' Hs Hne Esort Hrun).
  assert (Hin : forall m, In m sorted <-> In m messages).
  { intros m. rewrite <- !list_elem_of_In, Hperm. reflexivity. }
  destruct (CheckpointFacts.latest_with_urls_split sorted (stored_cursor w))
    as [[Hall Hc]|(l1 & newest & l2 & Hl & Hnew & Hl2 & Hc)]; rewrite Hc.
  - left. split; [|reflexivity]. apply Forall_forall. intros m Hm.
    rewrite Forall_forall in Hall. apply Hall. rewrite Hperm. exact Hm.
  - right. exists newest.
    assert (Hnin : In newest messages).
    { apply Hin. rewrite Hl. apply in_or_app. right. left. reflexivity. }
    split; [exact Hnin|]. split; [exact Hnew|]. split; [reflexivity|].
    intros m Hm Hu. apply Hin in Hm. rewrite Hl in Hm, Hsorted.
    apply in_app_or in Hm as [Hm|[<-|Hm]].
    + pose proof (CheckpointFacts.sorted_before e l1 newest l2 Hsorted) as Hb.
      rewrite List.Forall_forall in Hb. apply Hb, Hm.
    + rewrite Forall_forall in Hfloat, Hord.
      apply CheckpointFacts.ts_le_refl;
        [apply Hfloat|apply Hord]; apply list_elem_of_In, Hnin.
    + rewrite Forall_forall in Hl2. rewrite (Hl2 m) in Hu; [discriminate|].
      apply list_elem_of_In, Hm.
Qed.

Lemma poll_checkpoint_is_newest_with_urls_witness :
  let batch := [Message "1700000300.000100" (Some "<https://jobs.lever.co/acme/2>");
                Message "1700000400.000100" (Some "lunch?");
                Message "1700000200.000100" (Some "<https://jobs.lever.co/acme/1>")] in
  let e := Env (fun _ => SlackReply true batch)
               (http_get example_env) (claude_create example_env)
               (notion_query example_env) (notion_create example_env)
               (fun ts => if String.eqb ts "1700000200.000100"
                          then Some (FNum 1700000200)
                          else if String.eqb ts "1700000300.000100"
                          then Some (FNum 1700000300)
                          else Some (FNum 1700000400))
               (py_utc_date example_env) (json_loads example_env)
               (sort_with_nan example_env) (sort_with_nan_perm example_env) in
  let w' := snd (poll_and_process e empty_world) in
  (Forall (fun m => has_urls m = false) batch /\ w_file w' = Some "0") \/
  (exists newest,
     In newest batch /\ has_urls newest = true /\
     w_file w' = Some (msg_ts newest) /\
     forall m, In m batch -> has_urls m = true -> ts_le e m newest).
Proof.
  intros batch e w'.
  apply (poll_checkpoint_is_newest_with_urls e empty_world batch w').
  - reflexivity.
  - discriminate.
  - repeat constructor; discriminate.
  - vm_compute. reflexivity.
Defined.


(** ** Fetches, LLM calls and create calls *)

Module OrderFacts.

Lemma calls_ordered_app e1 e2 :
  calls_ordered e1 -> calls_ordered e2 -> calls_ordered (e1 ++ e2).
Proof. unfold calls_ordered. rewrite !count_app. lia. Qed.

Lemma calls_ordered_cheap evs : forallb is_cheap evs = true -> calls_ordered evs.
Proof.
  intros H. unfold calls_ordered.
  rewrite (count_none is_create_call is_cheap evs), (count_none is_llm_call is_cheap evs);
    [lia| |exact H| |exact H];
    intros ev Hev; unfold is_cheap in Hev; apply negb_true_iff, orb_false_iff in Hev; tauto.
Qed.

Lemma ordered_of_steps {A} (c : M A) : steps_with is_cheap c -> ordered c.
Proof.
  intros Hc w. destruct (Hc w) as [_ (evs & Ht & Hall)].
  exists evs. split; [exact Ht|apply calls_ordered_cheap, Hall].
Qed.

Lemma ordered_bind {A B} (c : M A) (k : A -> M B) :
  ordered c -> (forall a, ordered (k a)) -> ordered (bind c k).
Proof.
  intros Hc Hk w. unfold bind. destruct (Hc w) as (evs & Ht & Ho).
  destruct (c w) as [[a|x] w1]; cbn [snd] in *.
  - destruct (Hk a w1) as (evs2 & Ht2 & Ho2). exists (evs ++ evs2).
    rewrite Ht2, Ht, <- app_assoc. split; [reflexivity|apply calls_ordered_app; assumption].
  - exists evs. split; assumption.
Qed.

Lemma ordered_for_each {A} (body : A -> M unit) l :
  (forall a, ordered (body a)) -> ordered (for_each body l).
Proof.
  intros Hb. induction l as [|a l IH]; cbn [for_each].
  - apply ordered_of_steps, steps_ret.
  - apply ordered_bind; [apply Hb|intros _; exact IH].
Qed.

Lemma count_create_calls evs : count is_create_call evs = length (create_calls evs).
Proof.
  unfold count. induction evs as [|ev evs IH]; [reflexivity|].
  change (create_calls (ev :: evs)) with (create_calls ([ev] ++ evs)).
  rewrite create_calls_app, length_app, <- IH. destruct ev; reflexivity.
Qed.

(** [create_notion_entry] fetches no page, does not call the LLM and
    issues at most one create call. *)
Lemma create_notion_entry_tally e details source date w :
  exists evs,
    w_trace (snd (create_notion_entry e details source date w)) = w_trace w ++ evs /\
    count is_page_fetch evs = 0%nat /\ count is_llm_call evs = 0%nat /\
    (count is_create_call evs <= 1)%nat.
Proof.
  destruct (NotionFacts.create_notion_entry_run e details source date w)
    as (evs & added & created & (_ & Ht & _) & _ & Hcalls & _).
  assert (Hs : steps_with (fun ev => negb (is_page_fetch ev || is_llm_call ev))
                          (create_notion_entry e details source date)).
  { unfold create_notion_entry, is_duplicate, log. steps. }
  destruct (Hs w) as [_ (evs' & Ht' & Hall)].
  rewrite Ht in Ht'. apply app_inv_head in Ht'. subst evs'.
  exists evs. split; [exact Ht|].
  set (Q := fun ev => negb (is_page_fetch ev || is_llm_call ev)) in *.
  assert (HQ : forall ev, Q ev = true -> is_page_fetch ev = false /\ is_llm_call ev = false).
  { intros ev Hev. apply negb_true_iff, orb_false_iff in Hev. exact Hev. }
  rewrite (count_none is_page_fetch Q evs), (count_none is_llm_call Q evs),
    count_create_calls, Hcalls;
    [|intros ev Hev; apply HQ, Hev|exact Hall|intros ev Hev; apply HQ, Hev|exact Hall].
  split; [reflexivity|]. split; [reflexivity|]. destruct (_ && _); cbn; lia.
Qed.

(** The step for one job URL: one page fetch, then at most one LLM call,
    then at most one create call, and none without the LLM call. *)
Lemma process_job_url_tally e text ts source li lc ld sd job_url w :
  exists evs,
    w_trace (snd (process_job_url e text ts source li lc ld sd job_url w))
    = w_trace w ++ evs /\
    count is_page_fetch evs = 1%nat /\
    (count is_llm_call evs <= 1)%nat /\
    (count is_create_call evs <= count is_llm_call evs)%nat.
Proof.
  unfold process_job_url, fetch_page_content, extract_job_details.
  set (ctx := if Str.nonempty (Str.strip _) then _ else None).
  run_m.
  assert (Hrest : forall (prefix : list event) (details : json) w0,
            w_trace w0 = w_trace w ++ prefix ->
            count is_page_fetch prefix = 1%nat ->
            count is_create_call prefix = 0%nat ->
            (count is_llm_call prefix = 1%nat \/
             (count is_llm_call prefix = 0%nat /\ truthy details = false)) ->
            exists evs,
              w_trace
                (snd
                   ((if truthy details
                     then
                       match details with
                       | JObj d =>
                           fun w1 =>
                             let (r1, w'1) :=
                               create_notion_entry e
                                 (delete "job_listed_date"
                                    (if truthy (dict_get d "link_to_apply") then d
                                     else <["link_to_apply" := JStr job_url]> d))
                                 source
                                 (py_or
                                    (py_or
                                       (dict_get
                                          (if truthy (dict_get d "link_to_apply") then d
                                           else <["link_to_apply" := JStr job_url]> d)
                                          "job_listed_date")
                                       (json_of_ostr ld))
                                    (JStr sd)) w1 in
                             match r1 with
                             | Ok a1 =>
                                 (if a1
                                  then emit (ESlackReaction SLACK_CHANNEL_ID ts
                                                            "white_check_mark")
                                  else fun w2 => (Ok tt, w2)) w'1
                             | Raise e0 => (Raise e0, w'1)
                             end
                       | _ => fun w1 => (Raise AttributeError, w1)
                       end
                     else
                       fun w1 =>
                         emit (ESlackReaction SLACK_CHANNEL_ID ts "warning")
                              (World (w_file w1) (w_pages w1)
                                     (w_trace w1 ++ [ELog WARNING (LNoDetails job_url)])))
                      w0))
              = w_trace w ++ evs /\
              count is_page_fetch evs = 1%nat /\
              (count is_llm_call evs <= 1)%nat /\
              (count is_create_call evs <= count is_llm_call evs)%nat).
  { intros prefix details w0 Ht Hf Hc Hl.
    destruct (truthy details) eqn:Etr.
    - destruct Hl as [Hl|[_ Hl]]; [|discriminate].
      destruct details as [| | | | |d];
        try (exists prefix; cbn [snd]; split; [exact Ht|]; lia).
      match goal with
      | |- context [create_notion_entry ?e0 ?d0 ?s0 ?j0 w0] =>
          destruct (create_notion_entry_tally e0 d0 s0 j0 w0) as (evs' & Ht' & Hf' & Hl' & Hc');
          destruct (create_notion_entry e0 d0 s0 j0 w0) as [[[]|x] w3]
      end; cbn [fst snd w_file w_pages w_trace emit] in *; rewrite Ht', Ht.
      + exists (prefix ++ evs' ++ [ESlackReaction SLACK_CHANNEL_ID ts "white_check_mark"]).
        rewrite <- !app_assoc. split; [reflexivity|].
        rewrite !count_app, Hf, Hl, Hc, Hf', Hl'. cbn. lia.
      + exists (prefix ++ evs'). rewrite <- !app_assoc. split; [reflexivity|].
        rewrite !count_app, Hf, Hl, Hc, Hf', Hl'. lia.
      + exists (prefix ++ evs'). rewrite <- !app_assoc. split; [reflexivity|].
        rewrite !count_app, Hf, Hl, Hc, Hf', Hl'. lia.
    - unfold emit. cbn [fst snd w_file w_pages w_trace]. rewrite Ht.
      exists (prefix ++ [ELog WARNING (LNoDetails job_url);
                         ESlackReaction SLACK_CHANNEL_ID ts "warning"]).
      rewrite <- !app_assoc. split; [reflexivity|].
      rewrite !count_app, Hf, Hc. cbn. destruct Hl as [Hl|[Hl _]]; rewrite Hl; lia. }
  destruct (http_get e _ job_url) as [|status body];
    [|destruct (raise_for_status status)];
    cbn [fst snd w_file w_pages w_trace];
    (destruct (negb (Str.nonempty _) && negb (truthy_ostr ctx));
     [|destruct (claude_create e _ _) as [reply|];
       [destruct (json_loads e _) as [v|]|]]);
    cbn [fst snd w_file w_pages w_trace].
  all: match goal with
       | |- context [(if truthy ?d then _ else _) ?w0] =>
           eapply (Hrest _ d w0);
             [cbn [w_trace]; rewrite <- ?app_assoc; reflexivity
             |reflexivity
             |reflexivity
             |first [left; reflexivity|right; split; reflexivity]]
       end.
Qed.

Lemma ordered_process_job_url e text ts source li lc ld sd job_url :
  ordered (process_job_url e text ts source li lc ld sd job_url).
Proof.
  intros w.
  destruct (process_job_url_tally e text ts source li lc ld sd job_url w)
    as (evs & Ht & Hf & Hl & Hc).
  exists evs. split; [exact Ht|]. unfold calls_ordered. lia.
Qed.

Lemma ordered_process_message e text ts urls :
  ordered (process_message e text ts urls).
Proof.
  unfold process_message, log.
  apply ordered_bind; [apply ordered_of_steps; steps|intros _].
  destruct (categorize urls) as [li jobs].
  apply ordered_bind.
  { apply ordered_of_steps. unfold fetch_page_content, log. steps. }
  intros lc. apply ordered_bind.
  { apply ordered_of_steps. unfold extract_job_urls_from_page, log. steps. }
  intros job_urls. apply ordered_bind; [apply ordered_of_steps; steps|intros ld].
  apply ordered_bind; [apply ordered_of_steps; steps|intros sd].
  apply ordered_for_each. intros job_url. apply ordered_process_job_url.
Qed.

Lemma ordered_for_messages e messages : forall latest_ts,
  ordered (for_messages e messages latest_ts).
Proof.
  induction messages as [|msg rest IH]; intros latest_ts; cbn [for_messages].
  - apply ordered_of_steps, steps_ret.
  - destruct (extract_urls _); [apply IH|].
    apply ordered_bind; [apply ordered_process_message|intros _; apply IH].
Qed.

End OrderFacts.

(** X20.  In a cycle every create call is backed by an LLM call and
    every LLM call by a page fetch: a cycle never issues more create calls
    than LLM calls, nor more LLM calls than page fetches.  So a cycle in
    which no page is fetched never calls the LLM and asks for no page to be
    created. *)
Theorem poll_and_process_call_order e w :
  exists evs,
    w_trace (snd (poll_and_process e w)) = w_trace w ++ evs /\
    (count is_create_call evs <= count is_llm_call evs)%nat /\
    (count is_llm_call evs <= count is_page_fetch evs)%nat.
Proof.
  unfold poll_and_process, get_last_processed_ts. run_m.
  set (c := stored_cursor w).
  destruct (slack_history e c) as [x|ok messages];
    cbn [fst snd w_file w_pages w_trace].
  { exists [ELog INFO (LPolling c); ESlackHistory SLACK_CHANNEL_ID c].
    rewrite <- !app_assoc. split; [reflexivity|]. cbn. lia. }
  destruct ok; cbn [negb fst snd w_file w_pages w_trace].
  2:{ exists [ELog INFO (LPolling c); ESlackHistory SLACK_CHANNEL_ID c;
              ELog ERROR LSlackError].
      rewrite <- !app_assoc. split; [reflexivity|]. cbn. lia. }
  destruct messages as [|m ms]; cbn [fst snd w_file w_pages w_trace].
  { exists [ELog INFO (LPolling c); ESlackHistory SLACK_CHANNEL_ID c;
            ELog INFO LNoNewMessages].
    rewrite <- !app_assoc. split; [reflexivity|]. cbn. lia. }
  destruct (sort_messages e (m :: ms)) as [sorted|x];
    cbn [fst snd w_file w_pages w_trace].
  2:{ exists [ELog INFO (LPolling c); ESlackHistory SLACK_CHANNEL_ID c].
      rewrite <- !app_assoc. split; [reflexivity|]. cbn. lia. }
  set (w1 := World _ _ _).
  destruct (OrderFacts.ordered_for_messages e sorted c w1) as (evs & Ht & Hc & Hl).
  destruct (for_messages e sorted c w1) as [[ts|x] w2];
    cbn [fst snd w_file w_pages w_trace] in *; rewrite Ht; subst w1;
    cbn [w_file w_pages w_trace].
  - exists ([ELog INFO (LPolling c); ESlackHistory SLACK_CHANNEL_ID c] ++ evs ++
             [EFileWrite ts; ELog INFO (LDone (length (m :: ms)) ts)]).
    split; [rewrite <- !app_assoc; reflexivity|].
    rewrite !count_app. cbn. lia.
  - exists ([ELog INFO (LPolling c); ESlackHistory SLACK_CHANNEL_ID c] ++ evs).
    split; [rewrite <- !app_assoc; reflexivity|].
    rewrite !count_app. cbn. lia.
Qed.


(** ** Code fences around the reply of the LLM *)

Module FenceFacts.
Import Str StrFacts Re ReFacts StripFacts UrlFacts.

Lemma sub_scan_none r repl fuel : forall pos s,
  (forall pos' s', (pos <= pos')%nat -> match_at r pos' s' = None) ->
  sub_scan fuel r repl pos s = s.
Proof.
  induction fuel as [|fuel IH]; intros pos s Hno; [reflexivity|].
  cbn [sub_scan]. rewrite (Hno pos s (Nat.le_refl pos)).
  destruct s as [|c t]; [reflexivity|]. f_equal. apply IH.
  intros pos' s' Hle. apply Hno. lia.
Qed.

Lemma take_cons_nonempty n c s : (0 < n)%nat -> nonempty (take n (String c s)) = true.
Proof. destruct n; [lia|reflexivity]. Qed.

(** *** The opening fence *)

Lemma match_at_open_later pos s : pos <> 0%nat -> match_at FENCE_OPEN_RE pos s = None.
Proof.
  intros Hpos. unfold match_at, FENCE_OPEN_RE. rewrite rmatch_cat.
  cbn [rmatch ms_pos]. destruct (Nat.eqb_spec pos 0); [congruence|reflexivity].
Qed.

Lemma rmatch_open s :
  rmatch FENCE_OPEN_RE (MState 0 s None) Some =
  if starts_with "```" s then
    let s1 := drop 3 s in
    let tag := starts_with "json" s1 in
    Some (run_end isspace (3 + if tag then 4 else 0)
                  (if tag then drop 4 s1 else s1) None)
  else None.
Proof.
  unfold FENCE_OPEN_RE. rewrite rmatch_cat. cbn [rmatch ms_pos ms_rest ms_grp Nat.eqb].
  destruct (starts_with "```" s); [|reflexivity]. cbv zeta.
  change (String.length "```") with 3%nat. change (String.length "json") with 4%nat.
  destruct (starts_with "json" (drop 3 s)).
  - rewrite mstar_greedy by (eexists; reflexivity). reflexivity.
  - cbn [orelse]. rewrite mstar_greedy by (eexists; reflexivity).
    rewrite Nat.add_0_r. reflexivity.
Qed.

Lemma sub_open s : sub FENCE_OPEN_RE "" s = strip_open s.
Proof.
  unfold sub, strip_open. cbn [sub_scan]. unfold match_at. rewrite rmatch_open.
  destruct (starts_with "```" s) eqn:E.
  - cbv zeta. unfold run_end. cbn [ms_pos ms_rest ms_grp m_text m_after].
    apply starts_with_inv in E. set (s1 := drop (String.length "```") s) in *.
    change (String.length "```") with 3%nat in *.
    change (drop 3 s) with s1.
    set (n := (3 + (if starts_with "json" s1 then 4 else 0) + _ - 0)%nat).
    assert (Hn : nonempty (take n s) = true).
    { rewrite E. apply take_cons_nonempty. unfold n. lia. }
    destruct (take n s) as [|c t]; [discriminate|].
    rewrite app_nil_l. apply sub_scan_none.
    intros pos' s' Hle. apply match_at_open_later. cbn [String.length] in Hle. lia.
  - destruct s as [|c t]; [reflexivity|]. f_equal. apply sub_scan_none.
    intros pos' s' Hle. apply match_at_open_later. lia.
Qed.

(** *** The closing fence *)

Lemma isspace_no_fence c t : isspace c = true -> starts_with "```" (String c t) = false.
Proof.
  intros Hc. cbn [starts_with]. destruct (Ascii.eqb_spec "`"%char c) as [<-|]; [|reflexivity].
  discriminate Hc.
Qed.

Lemma rmatch_close pos s :
  rmatch FENCE_CLOSE_RE (MState pos s None) Some =
  if closes s
  then Some (MState (pos + String.length (take_while isspace s) + 3)
                    (drop 3 (drop_while isspace s)) None)
  else None.
Proof.
  unfold FENCE_CLOSE_RE, closes. rewrite rmatch_cat, rmatch_star_forced.
  2:{ intros pos' c t Hc. rewrite rmatch_cat, rmatch_lit. cbn [ms_rest].
      rewrite (isspace_no_fence c t Hc). reflexivity. }
  unfold run_end. cbn [ms_pos ms_rest ms_grp]. rewrite rmatch_cat, rmatch_lit.
  cbn [ms_pos ms_rest ms_grp]. cbv zeta.
  destruct (starts_with "```" (drop_while isspace s)); [|reflexivity].
  change (String.length "```") with 3%nat. cbn [rmatch ms_rest andb]. unfold at_end.
  destruct (drop 3 (drop_while isspace s)) as [|c [|d t]]; reflexivity.
Qed.

Lemma closes_at_end s : at_end s = true -> closes s = false.
Proof.
  destruct s as [|c [|d t]]; try discriminate; [reflexivity|].
  cbn [at_end]. intros H. apply Ascii.eqb_eq in H as ->. reflexivity.
Qed.

Lemma sub_scan_close fuel : forall pos s,
  (String.length s < fuel)%nat ->
  sub_scan fuel FENCE_CLOSE_RE "" pos s = strip_close s.
Proof.
  induction fuel as [|fuel IH]; intros pos s Hlen; [lia|].
  cbn [sub_scan]. unfold match_at. rewrite rmatch_close.
  destruct s as [|c t].
  - reflexivity.
  - cbn [strip_close]. destruct (closes (String c t)) eqn:Ec.
    + cbn [ms_pos ms_rest ms_grp m_text m_after].
      match goal with |- context [take ?n (String c t)] => set (k := n) end.
      assert (Hk : nonempty (take k (String c t)) = true).
      { apply take_cons_nonempty. unfold k. lia. }
      destruct (take k (String c t)) as [|x y]; [discriminate|].
      rewrite app_nil_l.
      unfold closes in Ec. apply andb_prop in Ec as [_ Hend].
      assert (Hno : closes (drop 3 (drop_while isspace (String c t))) = false)
        by (apply closes_at_end, Hend).
      destruct fuel as [|fuel']; [reflexivity|]. cbn [sub_scan]. unfold match_at.
      rewrite rmatch_close, Hno.
      destruct (drop 3 (drop_while isspace (String c t))) as [|a [|b u]];
        try discriminate; [reflexivity|].
      f_equal. destruct fuel'; reflexivity.
    + f_equal. apply IH. cbn [String.length] in Hlen. lia.
Qed.

Lemma sub_close s : sub FENCE_CLOSE_RE "" s = strip_close s.
Proof. apply sub_scan_close. lia. Qed.

Lemma closes_inv s :
  closes s = true ->
  exists sp tail, s = sp +:+ "```" +:+ tail /\ all isspace sp = true /\ at_end tail = true.
Proof.
  unfold closes. intros H. apply andb_prop in H as [Hf Hend].
  apply starts_with_inv in Hf. change (String.length "```") with 3%nat in Hf.
  exists (take_while isspace s), (drop 3 (drop_while isspace s)).
  split; [|split; [apply all_take_while|exact Hend]].
  rewrite <- Hf. symmetry. apply take_while_drop_while.
Qed.

(** Inside a body that does not end with a blank no closing fence
    starts. *)
Lemma closes_inside c body ws :
  head_free isspace (rev (String c body)) = true -> all isspace ws = true ->
  closes (String c body +:+ ws +:+ "```") = false.
Proof.
  intros Hlast Hws. destruct (closes _) eqn:E; [|reflexivity]. exfalso.
  apply closes_inv in E as (sp & tail & Heq & Hsp & Hend).
  apply (f_equal rev) in Heq. rewrite !rev_app in Heq.
  change (rev "```") with "```" in Heq.
  destruct tail as [|x [|y tail]]; try discriminate Hend.
  - change (rev "") with "" in Heq.
    rewrite !app_assoc, !app_cons, !app_nil_l in Heq. injection Heq as Heq.
    assert (Hall : all isspace (rev ws +:+ rev (String c body)) = true).
    { rewrite Heq, all_rev. exact Hsp. }
    rewrite all_app in Hall. apply andb_prop in Hall as [_ Hall].
    destruct (rev (String c body)) as [|z r] eqn:Er.
    + apply (f_equal rev) in Er. rewrite rev_involutive in Er. discriminate Er.
    + cbn [head_free all] in *. apply andb_prop in Hall as [Hz _].
      rewrite Hz in Hlast. discriminate.
  - cbn [at_end] in Hend. apply Ascii.eqb_eq in Hend as ->.
    change (rev (String nl "")) with (String nl "") in Heq.
    rewrite !app_assoc, !app_cons, !app_nil_l in Heq. discriminate Heq.
Qed.

Lemma head_free_rev_tail c body :
  head_free isspace (rev (String c body)) = true -> head_free isspace (rev body) = true.
Proof.
  rewrite rev_cons. destruct (rev body) as [|x r]; [reflexivity|]. intros H. exact H.
Qed.

Lemma strip_close_fenced body ws :
  head_free isspace (rev body) = true -> all isspace ws = true ->
  strip_close (body +:+ ws +:+ "```") = body.
Proof.
  intros Hlast Hws. induction body as [|c body IH].
  - rewrite app_nil_l.
    assert (Hd : take_while isspace (ws +:+ "```") = ws /\
                 drop_while isspace (ws +:+ "```") = "```").
    { apply take_while_app; [exact Hws|reflexivity]. }
    destruct Hd as [_ Hd].
    assert (Hc : closes (ws +:+ "```") = true) by (unfold closes; rewrite Hd; reflexivity).
    destruct (ws +:+ "```") as [|x y] eqn:E; cbn [strip_close]; rewrite Hc, Hd; reflexivity.
  - rewrite app_cons. cbn [strip_close]. rewrite <- app_cons.
    rewrite (closes_inside c body ws Hlast Hws). f_equal.
    apply IH, (head_free_rev_tail c), Hlast.
Qed.

Lemma closes_has_fence s : closes s = true -> contains "```" s = true.
Proof. intros H. apply closes_inv in H as (sp & tail & -> & _). apply contains_app. Qed.

Lemma strip_close_unfenced s : contains "```" s = false -> strip_close s = s.
Proof.
  induction s as [|c s IH]; intros Hno; cbn [strip_close].
  - reflexivity.
  - destruct (closes (String c s)) eqn:E.
    + apply closes_has_fence in E. congruence.
    + f_equal. apply IH. destruct (contains "```" s) eqn:Ec; [|reflexivity].
      change (String c s) with (one c +:+ s) in Hno.
      rewrite (contains_suffix _ (one c) s Ec) in Hno. discriminate.
Qed.

Lemma trimmed_fenced m : trimmed ("```json" +:+ m +:+ "```") = true.
Proof.
  unfold trimmed. rewrite !rev_app. change (rev "```") with "```".
  rewrite !app_cons. reflexivity.
Qed.

Lemma strip_open_json rest : strip_open ("```json" +:+ rest) = drop_while isspace rest.
Proof. unfold strip_open. rewrite !app_cons, app_nil_l. reflexivity. Qed.

Lemma strip_inside s : exists a b, s = a +:+ strip s +:+ b.
Proof.
  unfold strip, rstrip.
  destruct (drop_while_suffix isspace s) as (a & Ha).
  set (t := drop_while isspace s) in *.
  destruct (drop_while_suffix isspace (rev t)) as (b & Hb).
  exists a, (rev b). rewrite Ha at 1. f_equal.
  rewrite <- rev_app, <- Hb, rev_involutive. reflexivity.
Qed.

End FenceFacts.

(** X21.  A fenced reply.  When the reply of the LLM is a body between an
    opening fence of three backticks and the word json and a closing fence
    of three backticks, with any blanks around the fences and around the
    body, the text handed to the JSON parser is the body exactly.  The body
    is what is left when the blanks are taken off: not empty, with no blank
    at either end. *)
Theorem fenced_reply_is_unwrapped (ws0 ws1 body ws2 ws3 : string) :
  Str.all Str.isspace ws0 = true -> Str.all Str.isspace ws1 = true ->
  Str.all Str.isspace ws2 = true -> Str.all Str.isspace ws3 = true ->
  body <> "" -> trimmed body = true ->
  Re.sub FENCE_CLOSE_RE ""
    (Re.sub FENCE_OPEN_RE ""
       (Str.strip (ws0 +:+ ("```json" +:+ ws1 +:+ body +:+ ws2 +:+ "```") +:+ ws3)))
  = body.
Proof.
  intros H0 H1 H2 H3 Hne Hbody.
  rewrite StripFacts.strip_around; try assumption; [|discriminate|].
  2:{ replace (ws1 +:+ body +:+ ws2 +:+ "```") with ((ws1 +:+ body +:+ ws2) +:+ "```")
        by (rewrite !StrFacts.app_assoc; reflexivity).
      apply FenceFacts.trimmed_fenced. }
  rewrite FenceFacts.sub_open, FenceFacts.sub_close, FenceFacts.strip_open_json.
  pose proof Hbody as Hb. unfold trimmed in Hb. apply andb_prop in Hb as [Hhead Hlast].
  assert (Hd : Str.drop_while Str.isspace (ws1 +:+ body +:+ ws2 +:+ "```")
               = body +:+ ws2 +:+ "```").
  { apply StrFacts.take_while_app; [exact H1|].
    destruct body as [|c b]; [congruence|]. rewrite StrFacts.app_cons.
    cbn [head_free] in Hhead. apply negb_true_iff, Hhead. }
  rewrite Hd. apply FenceFacts.strip_close_fenced; assumption.
Qed.


Lemma fenced_reply_is_unwrapped_witness :
  Re.sub FENCE_CLOSE_RE ""
    (Re.sub FENCE_OPEN_RE ""
       (Str.strip (" " +:+ ("```json" +:+ NL +:+ "{}" +:+ " " +:+ "```") +:+ NL)))
  = "{}".
Proof.
  apply (fenced_reply_is_unwrapped " " NL "{}" " " NL); try reflexivity.
  discriminate.
Defined.

(** X22.  A reply without a fence.  When the reply of the LLM holds no
    run of three backticks, the two substitutions change nothing: the text
    handed to the JSON parser is the reply less the blanks around it. *)
Theorem unfenced_reply_is_kept (reply : string) :
  Str.contains "```" reply = false ->
  Re.sub FENCE_CLOSE_RE "" (Re.sub FENCE_OPEN_RE "" (Str.strip reply)) = Str.strip reply.
Proof.
  intros Hno.
  assert (Hs : Str.contains "```" (Str.strip reply) = false).
  { destruct (Str.contains "```" (Str.strip reply)) eqn:E; [|reflexivity].
    destruct (FenceFacts.strip_inside reply) as (a & b & Heq).
    rewrite Heq in Hno.
    rewrite (UrlFacts.contains_suffix _ a _ (UrlFacts.contains_prefix _ _ b E)) in Hno.
    discriminate. }
  rewrite FenceFacts.sub_open, FenceFacts.sub_close.
  assert (Ho : strip_open (Str.strip reply) = Str.strip reply).
  { unfold strip_open. destruct (Str.starts_with "```" (Str.strip reply)) eqn:E; [|reflexivity].
    apply StrFacts.starts_with_iff in E as (t & Ht). rewrite Ht in Hs.
    change ("```" +:+ t) with ("" +:+ "```" +:+ t) in Hs.
    rewrite StrFacts.contains_app in Hs. discriminate. }
  rewrite Ho. apply FenceFacts.strip_close_unfenced, Hs.
Qed.

Lemma unfenced_reply_is_kept_witness :
  Re.sub FENCE_CLOSE_RE ""
    (Re.sub FENCE_OPEN_RE "" (Str.strip (NL +:+ "{}" +:+ NL)))
  = Str.strip (NL +:+ "{}" +:+ NL).
Proof. apply unfenced_reply_is_kept. reflexivity. Defined.
